(** * trex: Observable, SafeSubscriber, Subject and chainAbort

    A shallow embedding of [src/Observable.ts], [src/Subject.ts] and
    [src/util/chainAbort.ts].

    JavaScript objects live in a store ([State]): every
    [new AbortController()], [new SafeSubscriber(..)], [new Subject()] and
    every group of closure variables of an operator ([let index = 0], ...)
    is a cell of the store, named by its position.  Closures that the
    source hands around (event listeners, the [{next, error, complete}]
    observers of the operators, the subscription procedures [_init]) are
    values of the inductive types [Listener], [Observer] and [Observable];
    each constructor stands for one closure expression of the source and
    carries what that closure captures.

    Every method is a function [State -> option State]; [None] means that
    the recursion budget ran out or that a reference names no object. *)

From Stdlib Require Import ZArith Lia String.
Set Warnings "-register-all,-clear-no-such-hyp".
From stdpp Require Import base option numbers strings list sets.

Local Open Scope Z_scope.
Local Open Scope nat_scope.

(** ** Values *)

(** The JavaScript values that flow through the pipelines of this
    development.  Numbers are integers (no rounding is modelled). *)
Inductive value :=
  | JUndefined
  | JNumber (z : Z)
  | JNaN
  | JTypeError (message : string).

#[global] Instance value_eq_dec : EqDecision value.
Proof. solve_decision. Defined.

(** [a + b] of JavaScript on these values. *)
Definition js_add (a b : value) : value :=
  match a, b with
  | JNumber x, JNumber y => JNumber (x + y)
  | _, _ => JNaN
  end.

(** The outcome of calling a user callback inside [try { .. } catch]. *)
Inductive Result (A : Type) :=
  | Return (a : A)
  | Throw (err : value).
Arguments Return {A} a.
Arguments Throw {A} err.

(** ** Cancellation tokens: [AbortController] and its [signal] *)

(** The three arrow functions that the source registers as ["abort"]
    listeners. *)
Inductive Listener :=
  (* chainAbort.ts:10   const handler = () => childController.abort() *)
  | ChainHandler (childController : nat)
  (* chainAbort.ts:11   () => parentSignal.removeEventListener("abort", handler) *)
  | ChainCleanup (parentSignal : nat) (handler : nat)
  (* Subject.ts:16      const handler = () => { indexOf .. splice } *)
  | SubjectHandler (subject : nat) (subscriber : nat).

(** An [AbortController] together with its [signal].  [fired] counts the
    ["abort"] events dispatched on the signal.  A registered listener is a
    pair of the identity of the function object and the closure. *)
Record AbortController := mkAbortController {
  ac_aborted : bool;
  ac_fired : nat;
  ac_listeners : list (nat * Listener)
}.

(** ** Observables, observers and subscribers *)

(** A partial observer supplied by the user of the library.  A handler
    that is present records the notification in the log under [uo_tag] and
    then calls [abort()] on the controllers it names.  These handlers
    return; observers whose handlers throw, or call the methods of their
    own subscriber, are the [AnyObserver]s further down. *)
Record UserObserver := mkUserObserver {
  uo_tag : nat;
  uo_next : option (value -> list nat);
  uo_error : option (value -> list nat);
  uo_complete : option (list nat)
}.

(** Subscription procedures ([_init]).  One constructor per
    [new Observable(..)] expression of the source, plus [Producer] for a
    procedure written by the user. *)
Inductive Observable :=
  (* Observable.ts:14 *)
  | FromIterable (values : list value)
  (* Observable.ts:27 *)
  | FromPromiseLike (input : nat)
  (* Subject.ts:8 *)
  | SubjectInit (subject : nat)
  (* a user procedure that keeps the subscriber for later use *)
  | Producer (name : nat)
  (* Observable.ts:106 *)
  | FilterInit (callback : value -> nat -> Result bool) (source : Observable)
  (* Observable.ts:132 *)
  | TakeInit (count : Z) (source : Observable)
  (* Observable.ts:182 *)
  | ScanInit (callback : value -> value -> nat -> Result value)
             (hasInit : bool) (initialValue : value) (source : Observable)
  (* Observable.ts:230 *)
  | MergeMapInit (callback : value -> nat -> Result Observable) (source : Observable)
  (* Observable.ts:275 *)
  | ConcatMapInit (callback : value -> nat -> Result Observable) (source : Observable)
  (* Observable.ts:329 *)
  | SwitchMapInit (callback : value -> nat -> Result Observable) (source : Observable).

(** The observers handed to [subscribe]. *)
Inductive Observer :=
  | PartialObserver (observer : UserObserver)
  | FilterObserver (callback : value -> nat -> Result bool) (vars subscriber : nat)
  | TakeObserver (count : Z) (vars subscriber : nat)
  | ScanObserver (callback : value -> value -> nat -> Result value)
                 (hasInit : bool) (vars subscriber : nat)
  | MergeMapOuter (callback : value -> nat -> Result Observable)
                  (vars subscriber signal : nat)
  | MergeMapInner (vars subscriber : nat)
  | ConcatMapOuter (callback : value -> nat -> Result Observable)
                   (vars subscriber signal : nat)
  | ConcatMapInner (callback : value -> nat -> Result Observable)
                   (vars subscriber signal : nat)
  | SwitchMapOuter (callback : value -> nat -> Result Observable)
                   (vars subscriber signal : nat)
  | SwitchMapInner (vars subscriber : nat).

(** [class SafeSubscriber] (Observable.ts:379). *)
Record SafeSubscriber := mkSafeSubscriber {
  _closed : bool;
  _destination : Observer;
  _abortController : nat
}.

(** [class Subject] (Subject.ts:8): its two private fields. *)
Record Subject := mkSubject {
  _subscribers : list nat;
  subject_closed : bool
}.

(** The [let] variables that the closures of one operator subscription
    share. *)
Inductive Vars :=
  | FilterVars (index : nat)
  | TakeVars (i : nat)
  | ScanVars (state : value) (i : nat)
  | MergeMapVars (index : nat) (active : Z) (outerComplete : bool)
  | ConcatMapVars (index : nat) (outerComplete : bool) (buffer : list value)
  | SwitchMapVars (index : nat) (outerComplete : bool)
                  (innerAbortController : option nat).

(** What a user observer, the host error reporter, a thenable or a user
    producer gets to see. *)
Inductive Notification :=
  | Next (v : value)
  | Error (err : value)
  | Complete.

#[global] Instance Notification_eq_dec : EqDecision Notification.
Proof. solve_decision. Defined.

Inductive Entry :=
  (* a handler of the user observer with this tag was called *)
  | Delivered (tag : nat) (n : Notification)
  (* hostReportError(err) *)
  | Reported (err : value).

#[global] Instance Entry_eq_dec : EqDecision Entry.
Proof. solve_decision. Defined.

(** ** The store *)

Record State := mkState {
  controllers : list AbortController;
  closures : nat;
  subscribers : list SafeSubscriber;
  subjects : list Subject;
  variables : list Vars;
  (* subscribers handed to [input.then(..)]: (input, subscriber) *)
  thenables : list (nat * nat);
  (* subscribers handed to a user producer: (name, subscriber, signal) *)
  produced : list (nat * nat * nat);
  log : list Entry
}.

Definition empty : State := mkState [] 0 [] [] [] [] [] [].

Definition set_controllers (f : list AbortController -> list AbortController)
    (s : State) : State :=
  mkState (f (controllers s)) (closures s) (subscribers s) (subjects s)
          (variables s) (thenables s) (produced s) (log s).

Definition set_closures (n : nat) (s : State) : State :=
  mkState (controllers s) n (subscribers s) (subjects s)
          (variables s) (thenables s) (produced s) (log s).

Definition set_subscribers (f : list SafeSubscriber -> list SafeSubscriber)
    (s : State) : State :=
  mkState (controllers s) (closures s) (f (subscribers s)) (subjects s)
          (variables s) (thenables s) (produced s) (log s).

Definition set_subjects (f : list Subject -> list Subject) (s : State) : State :=
  mkState (controllers s) (closures s) (subscribers s) (f (subjects s))
          (variables s) (thenables s) (produced s) (log s).

Definition set_variables (f : list Vars -> list Vars) (s : State) : State :=
  mkState (controllers s) (closures s) (subscribers s) (subjects s)
          (f (variables s)) (thenables s) (produced s) (log s).

Definition set_thenables (f : list (nat * nat) -> list (nat * nat))
    (s : State) : State :=
  mkState (controllers s) (closures s) (subscribers s) (subjects s)
          (variables s) (f (thenables s)) (produced s) (log s).

Definition set_produced (f : list (nat * nat * nat) -> list (nat * nat * nat))
    (s : State) : State :=
  mkState (controllers s) (closures s) (subscribers s) (subjects s)
          (variables s) (thenables s) (f (produced s)) (log s).

Definition record (e : Entry) (s : State) : State :=
  mkState (controllers s) (closures s) (subscribers s) (subjects s)
          (variables s) (thenables s) (produced s) (log s ++ [e]).

(** ** [AbortController], [AbortSignal] and [EventTarget]

    The platform behaviour the source relies on: [abort()] does nothing
    on an aborted controller; otherwise it sets the flag and dispatches
    one ["abort"] event.  A dispatch walks a copy of the listener list
    taken when it starts and skips a listener that has been removed in
    the meantime. *)

(** [new AbortController()] *)
Definition new_AbortController (s : State) : nat * State :=
  (length (controllers s),
   set_controllers (fun l => l ++ [mkAbortController false 0 []]) s).

(** [signal.aborted] *)
Definition signal_aborted (signal : nat) (s : State) : option bool :=
  ac_aborted <$> controllers s !! signal.

Definition listeners_of (signal : nat) (s : State) : list (nat * Listener) :=
  match controllers s !! signal with
  | Some c => ac_listeners c
  | None => []
  end.

(** A fresh function object. *)
Definition new_closure (s : State) : nat * State :=
  (closures s, set_closures (S (closures s)) s).

(** [signal.addEventListener("abort", f)] *)
Definition addEventListener (signal f : nat) (l : Listener) (s : State) : State :=
  set_controllers
    (alter (fun c => mkAbortController (ac_aborted c) (ac_fired c)
                       (ac_listeners c ++ [(f, l)])) signal) s.

(** [signal.removeEventListener("abort", f)] *)
Definition removeEventListener (signal f : nat) (s : State) : State :=
  set_controllers
    (alter (fun c => mkAbortController (ac_aborted c) (ac_fired c)
                       (filter (fun p => p.1 ≠ f) (ac_listeners c))) signal) s.

Definition registered (signal f : nat) (s : State) : bool :=
  bool_decide (f ∈ (listeners_of signal s).*1).

(** Subject.ts:10-15, the body of the listener the Subject registers. *)
Fixpoint remove_first (x : nat) (l : list nat) : list nat :=
  match l with
  | [] => []
  | y :: l' => if decide (x = y) then l' else y :: remove_first x l'
  end.

Definition Subject_handler (subject subscriber : nat) (s : State) : State :=
  set_subjects
    (alter (fun j => mkSubject (remove_first subscriber (_subscribers j))
                       (subject_closed j)) subject) s.

Section Dispatch.
(** [abort] of what remains of the budget. *)
Variable abort_rec : nat -> State -> option State.

Definition run_listener (l : Listener) (s : State) : option State :=
  match l with
  | ChainHandler childController => abort_rec childController s
  | ChainCleanup parentSignal handler =>
      Some (removeEventListener parentSignal handler s)
  | SubjectHandler subject subscriber =>
      Some (Subject_handler subject subscriber s)
  end.

Fixpoint dispatchEvent (signal : nat) (snapshot : list (nat * Listener))
    (s : State) : option State :=
  match snapshot with
  | [] => Some s
  | (f, l) :: rest =>
      if registered signal f s
      then s' ← run_listener l s; dispatchEvent signal rest s'
      else dispatchEvent signal rest s
  end.
End Dispatch.

(** [controller.abort()] *)
Fixpoint abort (fuel : nat) (controller : nat) (s : State) : option State :=
  match fuel with
  | 0 => None
  | S fuel =>
      c ← controllers s !! controller;
      if ac_aborted c then Some s
      else
        let s1 :=
          set_controllers
            (<[controller := mkAbortController true (S (ac_fired c))
                               (ac_listeners c)]>) s in
        dispatchEvent (abort fuel) controller (ac_listeners c) s1
  end.

(** ** chainAbort.ts *)

Definition chainAbort (parentSignal childController : nat) (s : State) : State :=
  let '(handler, s) := new_closure s in
  let '(cleanup, s) := new_closure s in
  let s := addEventListener childController cleanup
             (ChainCleanup parentSignal handler) s in
  addEventListener parentSignal handler (ChainHandler childController) s.

(** ** Store access used by the methods *)

(** [new SafeSubscriber(observer, abortController)] *)
Definition new_SafeSubscriber (observer : Observer) (abortController : nat)
    (s : State) : nat * State :=
  (length (subscribers s),
   set_subscribers (fun l => l ++ [mkSafeSubscriber false observer abortController]) s).

(** [this._closed = true] *)
Definition close (subscriber : nat) (s : State) : State :=
  set_subscribers
    (alter (fun b => mkSafeSubscriber true (_destination b) (_abortController b))
           subscriber) s.

(** [new Subject()] *)
Definition new_Subject (s : State) : nat * State :=
  (length (subjects s), set_subjects (fun l => l ++ [mkSubject [] false]) s).

(** The [let] declarations at the head of a subscription procedure. *)
Definition new_Vars (v : Vars) (s : State) : nat * State :=
  (length (variables s), set_variables (fun l => l ++ [v]) s).

Definition set_Vars (vars : nat) (v : Vars) (s : State) : State :=
  set_variables (<[vars := v]>) s.

(** [hostReportError(err)].
    Modelled from the spec: [src/util/hostReportError.ts] is not among the
    sources; the spec calls it a process-wide sink for an error that
    reaches a subscriber whose observer has no [error] handler. *)
Definition hostReportError (err : value) (s : State) : State :=
  record (Reported err) s.

(** ** The methods *)

Inductive Call :=
  (* Observable.ts:57 *)
  | subscribe (this : Observable) (observer : Observer) (signal : option nat)
  (* Observable.ts:389, 398, 411 *)
  | SafeSubscriber_next (this : nat) (v : value)
  | SafeSubscriber_error (this : nat) (err : value)
  | SafeSubscriber_complete (this : nat)
  (* Subject.ts:26, 34, 43 *)
  | Subject_next (this : nat) (v : value)
  | Subject_error (this : nat) (err : value)
  | Subject_complete (this : nat)
  (* the rest of the [for .. of this._subscribers] loop, from a position *)
  | Subject_next_loop (this : nat) (position : nat) (v : value)
  (* the [while (this._subscribers.length > 0)] loops *)
  | Subject_error_loop (this : nat) (err : value)
  | Subject_complete_loop (this : nat)
  (* Observable.ts:29-32 and 33-35, the reactions given to [input.then] *)
  | onfulfilled (subscriber : nat) (v : value)
  | onrejected (subscriber : nat) (err : value).

Section Methods.
(** What remains of the budget, and the methods run with it. *)
Variable fuel : nat.
Variable call : Call -> State -> option State.

(** The calls [controller.abort()] made by a handler of the user. *)
Fixpoint abort_all (cs : list nat) (s : State) : option State :=
  match cs with
  | [] => Some s
  | c :: cs => s' ← abort fuel c s; abort_all cs s'
  end.

(** Observable.ts:280-305 *)
Definition checkSubscribe (callback : value -> nat -> Result Observable)
    (vars subscriber signal : nat) (s : State) : option State :=
  x ← variables s !! vars;
  match x with
  | ConcatMapVars index outerComplete buffer =>
      match buffer with
      | [] => Some s
      | v :: buffer =>
          let s := set_Vars vars (ConcatMapVars (S index) outerComplete buffer) s in
          match callback v index with
          | Throw err => call (SafeSubscriber_error subscriber err) s
          | Return result =>
              call (subscribe result
                      (ConcatMapInner callback vars subscriber signal)
                      (Some signal)) s
          end
      end
  | _ => None
  end.

(** [_destination.next(value, this._signal)], when it is a function. *)
Definition Observer_next (destination : Observer) (v : value) (s : State)
    : option State :=
  match destination with
  | PartialObserver o =>
      match uo_next o with
      | Some handler =>
          abort_all (handler v) (record (Delivered (uo_tag o) (Next v)) s)
      | None => Some s
      end
  (* Observable.ts:110-121 *)
  | FilterObserver callback vars subscriber =>
      x ← variables s !! vars;
      match x with
      | FilterVars index =>
          let s := set_Vars vars (FilterVars (S index)) s in
          match callback v index with
          | Throw err => call (SafeSubscriber_error subscriber err) s
          | Return result =>
              if result then call (SafeSubscriber_next subscriber v) s
              else Some s
          end
      | _ => None
      end
  (* Observable.ts:136-141 *)
  | TakeObserver count vars subscriber =>
      s ← call (SafeSubscriber_next subscriber v) s;
      x ← variables s !! vars;
      match x with
      | TakeVars i =>
          let s := set_Vars vars (TakeVars (S i)) s in
          if decide (Z.of_nat (S i) = count)
          then call (SafeSubscriber_complete subscriber) s
          else Some s
      | _ => None
      end
  (* Observable.ts:187-199 *)
  | ScanObserver callback hasInit vars subscriber =>
      x ← variables s !! vars;
      match x with
      | ScanVars state i =>
          let index := i in
          let s := set_Vars vars (ScanVars state (S i)) s in
          s ← (if negb hasInit && bool_decide (index = 0)
               then call (SafeSubscriber_next subscriber v) s
               else Some s);
          x ← variables s !! vars;
          match x with
          | ScanVars state i =>
              match callback state v index with
              | Throw err => call (SafeSubscriber_error subscriber err) s
              | Return state =>
                  call (SafeSubscriber_next subscriber state)
                       (set_Vars vars (ScanVars state i) s)
              end
          | _ => None
          end
      | _ => None
      end
  (* Observable.ts:236-258 *)
  | MergeMapOuter callback vars subscriber signal =>
      x ← variables s !! vars;
      match x with
      | MergeMapVars index active outerComplete =>
          let s := set_Vars vars (MergeMapVars (S index) active outerComplete) s in
          match callback v index with
          | Throw err => call (SafeSubscriber_error subscriber err) s
          | Return result =>
              let s := set_Vars vars
                         (MergeMapVars (S index) (active + 1)%Z outerComplete) s in
              call (subscribe result (MergeMapInner vars subscriber)
                      (Some signal)) s
          end
      | _ => None
      end
  (* Observable.ts:247 *)
  | MergeMapInner vars subscriber => call (SafeSubscriber_next subscriber v) s
  (* Observable.ts:309-312 *)
  | ConcatMapOuter callback vars subscriber signal =>
      x ← variables s !! vars;
      match x with
      | ConcatMapVars index outerComplete buffer =>
          checkSubscribe callback vars subscriber signal
            (set_Vars vars (ConcatMapVars index outerComplete (buffer ++ [v])) s)
      | _ => None
      end
  (* Observable.ts:292 *)
  | ConcatMapInner callback vars subscriber signal =>
      call (SafeSubscriber_next subscriber v) s
  (* Observable.ts:336-364 *)
  | SwitchMapOuter callback vars subscriber signal =>
      x ← variables s !! vars;
      match x with
      | SwitchMapVars index outerComplete innerAbortController =>
          s ← match innerAbortController with
              | Some c =>
                  s ← abort fuel c s;
                  y ← variables s !! vars;
                  match y with
                  | SwitchMapVars index outerComplete _ =>
                      Some (set_Vars vars (SwitchMapVars index outerComplete None) s)
                  | _ => None
                  end
              | None => Some s
              end;
          y ← variables s !! vars;
          match y with
          | SwitchMapVars index outerComplete _ =>
              let '(c, s) := new_AbortController s in
              let s := set_Vars vars (SwitchMapVars (S index) outerComplete (Some c)) s in
              let s := chainAbort signal c s in
              match callback v index with
              | Throw err => call (SafeSubscriber_error subscriber err) s
              | Return result =>
                  call (subscribe result (SwitchMapInner vars subscriber)
                          (Some signal)) s
              end
          | _ => None
          end
      | _ => None
      end
  (* Observable.ts:353 *)
  | SwitchMapInner vars subscriber => call (SafeSubscriber_next subscriber v) s
  end.

(** [_destination.error(err)], or [hostReportError(err)] when the
    observer has no [error] member. *)
Definition Observer_error (destination : Observer) (err : value) (s : State)
    : option State :=
  match destination with
  | PartialObserver o =>
      match uo_error o with
      | Some handler =>
          abort_all (handler err) (record (Delivered (uo_tag o) (Error err)) s)
      | None => Some (hostReportError err s)
      end
  (* [error: (err) => subscriber.error(err)] in every operator *)
  | FilterObserver _ _ subscriber
  | TakeObserver _ _ subscriber
  | ScanObserver _ _ _ subscriber
  | MergeMapOuter _ _ subscriber _
  | MergeMapInner _ subscriber
  | ConcatMapOuter _ _ subscriber _
  | ConcatMapInner _ _ subscriber _
  | SwitchMapOuter _ _ subscriber _
  | SwitchMapInner _ subscriber => call (SafeSubscriber_error subscriber err) s
  end.

(** [_destination.complete()], when it is a function. *)
Definition Observer_complete (destination : Observer) (s : State)
    : option State :=
  match destination with
  | PartialObserver o =>
      match uo_complete o with
      | Some handler =>
          abort_all handler (record (Delivered (uo_tag o) Complete) s)
      | None => Some s
      end
  | FilterObserver _ _ subscriber
  | TakeObserver _ _ subscriber
  | ScanObserver _ _ _ subscriber => call (SafeSubscriber_complete subscriber) s
  (* Observable.ts:260-265 *)
  | MergeMapOuter _ vars subscriber _ =>
      x ← variables s !! vars;
      match x with
      | MergeMapVars index active _ =>
          let s := set_Vars vars (MergeMapVars index active true) s in
          if decide (active = 0%Z)
          then call (SafeSubscriber_complete subscriber) s
          else Some s
      | _ => None
      end
  (* Observable.ts:249-254 *)
  | MergeMapInner vars subscriber =>
      x ← variables s !! vars;
      match x with
      | MergeMapVars index active outerComplete =>
          let active := (active - 1)%Z in
          let s := set_Vars vars (MergeMapVars index active outerComplete) s in
          if outerComplete && bool_decide (active = 0%Z)
          then call (SafeSubscriber_complete subscriber) s
          else Some s
      | _ => None
      end
  (* Observable.ts:314-319 *)
  | ConcatMapOuter _ vars subscriber _ =>
      x ← variables s !! vars;
      match x with
      | ConcatMapVars index _ buffer =>
          let s := set_Vars vars (ConcatMapVars index true buffer) s in
          if decide (length buffer = 0)
          then call (SafeSubscriber_complete subscriber) s
          else Some s
      | _ => None
      end
  (* Observable.ts:294-300 *)
  | ConcatMapInner callback vars subscriber signal =>
      x ← variables s !! vars;
      match x with
      | ConcatMapVars index outerComplete buffer =>
          if outerComplete && bool_decide (length buffer = 0)
          then call (SafeSubscriber_complete subscriber) s
          else checkSubscribe callback vars subscriber signal s
      | _ => None
      end
  (* Observable.ts:366-371 *)
  | SwitchMapOuter _ vars subscriber _ =>
      x ← variables s !! vars;
      match x with
      | SwitchMapVars index _ innerAbortController =>
          let s := set_Vars vars (SwitchMapVars index true innerAbortController) s in
          match innerAbortController with
          | None => call (SafeSubscriber_complete subscriber) s
          | Some _ => Some s
          end
      | _ => None
      end
  (* Observable.ts:355-360 *)
  | SwitchMapInner vars subscriber =>
      x ← variables s !! vars;
      match x with
      | SwitchMapVars index outerComplete _ =>
          let s := set_Vars vars (SwitchMapVars index outerComplete None) s in
          if outerComplete
          then call (SafeSubscriber_complete subscriber) s
          else Some s
      | _ => None
      end
  end.

(** Observable.ts:389-396 *)
Definition SafeSubscriber_next_body (this : nat) (v : value) (s : State)
    : option State :=
  b ← subscribers s !! this;
  if _closed b then Some s
  else Observer_next (_destination b) v s.

(** Observable.ts:398-409 *)
Definition SafeSubscriber_error_body (this : nat) (err : value) (s : State)
    : option State :=
  b ← subscribers s !! this;
  if _closed b then Some s
  else
    s ← Observer_error (_destination b) err (close this s);
    abort fuel (_abortController b) s.

(** Observable.ts:411-420 *)
Definition SafeSubscriber_complete_body (this : nat) (s : State)
    : option State :=
  b ← subscribers s !! this;
  if _closed b then Some s
  else
    s ← Observer_complete (_destination b) (close this s);
    abort fuel (_abortController b) s.

(** Observable.ts:16-21, the [for .. of] loop over the iterator. *)
Fixpoint from_loop (values : list value) (subscriber signal : nat) (s : State)
    : option State :=
  match values with
  | [] => Some s
  | v :: values =>
      aborted ← signal_aborted signal s;
      if aborted : bool then Some s
      else
        s ← call (SafeSubscriber_next subscriber v) s;
        from_loop values subscriber signal s
  end.

(** [this._init(subscriber, abortController.signal)] *)
Definition init (this : Observable) (subscriber signal : nat) (s : State)
    : option State :=
  match this with
  (* Observable.ts:14-23 *)
  | FromIterable values =>
      s ← from_loop values subscriber signal s;
      call (SafeSubscriber_complete subscriber) s
  (* Observable.ts:27-37: [input.then(.., ..)] keeps the two reactions *)
  | FromPromiseLike input =>
      Some (set_thenables (fun l => l ++ [(input, subscriber)]) s)
  (* Subject.ts:8-17 *)
  | SubjectInit subject =>
      j ← subjects s !! subject;
      let s := set_subjects
                 (<[subject := mkSubject (_subscribers j ++ [subscriber])
                                         (subject_closed j)]>) s in
      let '(handler, s) := new_closure s in
      Some (addEventListener signal handler (SubjectHandler subject subscriber) s)
  | Producer name =>
      Some (set_produced (fun l => l ++ [(name, subscriber, signal)]) s)
  (* Observable.ts:106-127 *)
  | FilterInit callback source =>
      let '(vars, s) := new_Vars (FilterVars 0) s in
      call (subscribe source (FilterObserver callback vars subscriber)
              (Some signal)) s
  (* Observable.ts:132-147 *)
  | TakeInit count source =>
      let '(vars, s) := new_Vars (TakeVars 0) s in
      call (subscribe source (TakeObserver count vars subscriber)
              (Some signal)) s
  (* Observable.ts:182-205 *)
  | ScanInit callback hasInit initialValue source =>
      let '(vars, s) := new_Vars (ScanVars initialValue 0) s in
      call (subscribe source (ScanObserver callback hasInit vars subscriber)
              (Some signal)) s
  (* Observable.ts:230-269 *)
  | MergeMapInit callback source =>
      let '(vars, s) := new_Vars (MergeMapVars 0 0%Z false) s in
      call (subscribe source (MergeMapOuter callback vars subscriber signal)
              (Some signal)) s
  (* Observable.ts:275-323 *)
  | ConcatMapInit callback source =>
      let '(vars, s) := new_Vars (ConcatMapVars 0 false []) s in
      call (subscribe source (ConcatMapOuter callback vars subscriber signal)
              (Some signal)) s
  (* Observable.ts:329-375 *)
  | SwitchMapInit callback source =>
      let '(vars, s) := new_Vars (SwitchMapVars 0 false None) s in
      call (subscribe source (SwitchMapOuter callback vars subscriber signal)
              (Some signal)) s
  end.

(** Observable.ts:57-64 *)
Definition subscribe_body (this : Observable) (observer : Observer)
    (signal : option nat) (s : State) : option State :=
  let '(abortController, s) := new_AbortController s in
  let s := match signal with
           | Some signal => chainAbort signal abortController s
           | None => s
           end in
  let '(subscriber, s) := new_SafeSubscriber observer abortController s in
  init this subscriber abortController s.

(** Subject.ts:26-32 *)
Definition Subject_next_body (this : nat) (v : value) (s : State)
    : option State :=
  j ← subjects s !! this;
  if subject_closed j then Some s
  else call (Subject_next_loop this 0 v) s.

(** One turn of [for (const subscriber of this._subscribers)]: the array
    iterator reads the array as it is when the turn starts. *)
Definition Subject_next_loop_body (this position : nat) (v : value) (s : State)
    : option State :=
  j ← subjects s !! this;
  match _subscribers j !! position with
  | None => Some s
  | Some subscriber =>
      s ← call (SafeSubscriber_next subscriber v) s;
      call (Subject_next_loop this (S position) v) s
  end.

Definition set_subject_closed (this : nat) (s : State) : State :=
  set_subjects
    (alter (fun j => mkSubject (_subscribers j) true) this) s.

(** [this._subscribers.shift()] *)
Definition shift (this : nat) (s : State) : State :=
  set_subjects
    (alter (fun j => mkSubject (tail (_subscribers j)) (subject_closed j)) this) s.

(** Subject.ts:34-41 *)
Definition Subject_error_body (this : nat) (err : value) (s : State)
    : option State :=
  j ← subjects s !! this;
  if subject_closed j then Some s
  else call (Subject_error_loop this err) (set_subject_closed this s).

Definition Subject_error_loop_body (this : nat) (err : value) (s : State)
    : option State :=
  j ← subjects s !! this;
  match _subscribers j with
  | [] => Some s
  | subscriber :: _ =>
      s ← call (SafeSubscriber_error subscriber err) (shift this s);
      call (Subject_error_loop this err) s
  end.

(** Subject.ts:43-50 *)
Definition Subject_complete_body (this : nat) (s : State) : option State :=
  j ← subjects s !! this;
  if subject_closed j then Some s
  else call (Subject_complete_loop this) (set_subject_closed this s).

Definition Subject_complete_loop_body (this : nat) (s : State) : option State :=
  j ← subjects s !! this;
  match _subscribers j with
  | [] => Some s
  | subscriber :: _ =>
      s ← call (SafeSubscriber_complete subscriber) (shift this s);
      call (Subject_complete_loop this) s
  end.

Definition body (c : Call) : State -> option State :=
  match c with
  | subscribe this observer signal => subscribe_body this observer signal
  | SafeSubscriber_next this v => SafeSubscriber_next_body this v
  | SafeSubscriber_error this err => SafeSubscriber_error_body this err
  | SafeSubscriber_complete this => SafeSubscriber_complete_body this
  | Subject_next this v => Subject_next_body this v
  | Subject_error this err => Subject_error_body this err
  | Subject_complete this => Subject_complete_body this
  | Subject_next_loop this position v => Subject_next_loop_body this position v
  | Subject_error_loop this err => Subject_error_loop_body this err
  | Subject_complete_loop this => Subject_complete_loop_body this
  (* Observable.ts:29-32 *)
  | onfulfilled subscriber v =>
      fun s => s ← call (SafeSubscriber_next subscriber v) s;
               call (SafeSubscriber_complete subscriber) s
  (* Observable.ts:33-35 *)
  | onrejected subscriber err => call (SafeSubscriber_error subscriber err)
  end.
End Methods.

(** Running a method with a budget of nested calls. *)
Fixpoint run (fuel : nat) (c : Call) (s : State) : option State :=
  match fuel with
  | 0 => None
  | S fuel => body fuel (run fuel) c s
  end.

(** A program of the user: calls made one after the other. *)
Fixpoint run_all (fuel : nat) (cs : list Call) (s : State) : option State :=
  match cs with
  | [] => Some s
  | c :: cs => s' ← run fuel c s; run_all fuel cs s'
  end.

(** ** The static constructors and the operator methods *)

(** What [Observable.from] looks at in its argument. *)
Inductive Input :=
  (* [null] or [undefined]: reading a property throws *)
  | Nullish
  (* any other value, given by the three members [from] reads:
     [iterator] is [Some values] when [typeof input[Symbol.iterator]] is
     ["function"] and the iterator yields [values]; [then_] and [catch_]
     say whether [typeof input.then] and [typeof input.catch] are
     ["function"]; [name] tells thenables apart. *)
  | Object (iterator : option (list value)) (then_ catch_ : bool) (name : nat).

(** Observable.ts:423-425 *)
Definition isPromiseLike (input : Input) : Result bool :=
  match input with
  | Nullish => Throw (JTypeError "Cannot read properties of undefined")
  | Object _ then_ catch_ _ => Return (then_ && catch_)
  end.

Module Obs.

(** Observable.ts:12-41 *)
Definition from (input : Input) : Result Observable :=
  match input with
  | Nullish => Throw (JTypeError "Cannot read properties of undefined")
  | Object (Some values) _ _ _ => Return (FromIterable values)
  | Object None _ _ name =>
      match isPromiseLike input with
      | Throw err => Throw err
      | Return true => Return (FromPromiseLike name)
      | Return false => Throw (JTypeError "Value is not observable")
      end
  end.

(** Observable.ts:43-45 *)
Definition of_ (values : list value) : Result Observable :=
  from (Object (Some values) false false 0).

(** Observable.ts:105 *)
Definition filter (callback : value -> nat -> Result bool) (this : Observable)
    : Observable :=
  FilterInit callback this.

(** Observable.ts:130-131 *)
Definition take (count : Z) (this : Observable) : Observable :=
  let count := Z.max count 0 in
  TakeInit count this.

(** Observable.ts:177-183: [initialValue] is [None] when [scan] is called
    with one argument. *)
Definition scan (callback : value -> value -> nat -> Result value)
    (initialValue : option value) (this : Observable) : Observable :=
  let hasInit := bool_decide (is_Some initialValue) in
  ScanInit callback hasInit (default JUndefined initialValue) this.

(** Observable.ts:227 *)
Definition mergeMap (callback : value -> nat -> Result Observable)
    (this : Observable) : Observable :=
  MergeMapInit callback this.

(** Observable.ts:272 *)
Definition concatMap (callback : value -> nat -> Result Observable)
    (this : Observable) : Observable :=
  ConcatMapInit callback this.

(** Observable.ts:326 *)
Definition switchMap (callback : value -> nat -> Result Observable)
    (this : Observable) : Observable :=
  SwitchMapInit callback this.

End Obs.

(** * Properties *)

(** ** Cancellation tokens *)

Definition is_aborted (c : nat) (s : State) : Prop :=
  signal_aborted c s = Some true.

Definition fired (c : nat) (s : State) : nat :=
  match controllers s !! c with
  | Some a => ac_fired a
  | None => 0
  end.

Lemma listeners_of_removeEventListener q p f s :
  listeners_of q (removeEventListener p f s) =
  if decide (p = q) then filter (fun x : nat * Listener => x.1 ≠ f) (listeners_of q s)
  else listeners_of q s.
Proof.
  unfold listeners_of, removeEventListener; simpl.
  case_decide as E.
  - subst q. rewrite list_lookup_alter_eq.
    destruct (controllers s !! p); reflexivity.
  - rewrite list_lookup_alter_ne by done. reflexivity.
Qed.

Lemma listeners_of_addEventListener q p f l s :
  p < length (controllers s) ->
  listeners_of q (addEventListener p f l s) =
  if decide (p = q) then listeners_of q s ++ [(f, l)] else listeners_of q s.
Proof.
  intros Hp. unfold listeners_of, addEventListener; simpl.
  case_decide as E.
  - subst q. rewrite list_lookup_alter_eq.
    destruct (lookup_lt_is_Some_2 _ _ Hp) as [a ->]. reflexivity.
  - rewrite list_lookup_alter_ne by done. reflexivity.
Qed.

Lemma signal_aborted_removeEventListener q p f s :
  signal_aborted q (removeEventListener p f s) = signal_aborted q s.
Proof.
  unfold signal_aborted, removeEventListener; simpl.
  destruct (decide (p = q)) as [->|E].
  - rewrite list_lookup_alter_eq. destruct (controllers s !! q); reflexivity.
  - rewrite list_lookup_alter_ne by done. reflexivity.
Qed.

Lemma signal_aborted_addEventListener q p f l s :
  signal_aborted q (addEventListener p f l s) = signal_aborted q s.
Proof.
  unfold signal_aborted, addEventListener; simpl.
  destruct (decide (p = q)) as [->|E].
  - rewrite list_lookup_alter_eq. destruct (controllers s !! q); reflexivity.
  - rewrite list_lookup_alter_ne by done. reflexivity.
Qed.

Lemma fired_removeEventListener q p f s :
  fired q (removeEventListener p f s) = fired q s.
Proof.
  unfold fired, removeEventListener; simpl.
  destruct (decide (p = q)) as [->|E].
  - rewrite list_lookup_alter_eq. destruct (controllers s !! q); reflexivity.
  - rewrite list_lookup_alter_ne by done. reflexivity.
Qed.

Lemma registered_spec p f s :
  registered p f s = true <-> f ∈ (listeners_of p s).*1.
Proof. unfold registered. apply bool_decide_eq_true. Qed.

(** What [abort()] may change: listeners are only removed, flags are only
    raised, a Subject only loses subscribers, and nothing else moves. *)
Record wanes (s s' : State) : Prop := mkWanes {
  wanes_length : length (controllers s') = length (controllers s);
  wanes_listeners : forall q, listeners_of q s' `sublist_of` listeners_of q s;
  wanes_aborted : forall q, is_aborted q s -> is_aborted q s';
  wanes_closures : closures s' = closures s;
  wanes_subscribers : subscribers s' = subscribers s;
  wanes_variables : variables s' = variables s;
  wanes_thenables : thenables s' = thenables s;
  wanes_produced : produced s' = produced s;
  wanes_log : log s' = log s;
  wanes_subjects : forall i j', subjects s' !! i = Some j' ->
    exists j, subjects s !! i = Some j /\
              subject_closed j' = subject_closed j /\
              _subscribers j' `sublist_of` _subscribers j;
  wanes_subjects_length : length (subjects s') = length (subjects s)
}.

Lemma wanes_refl s : wanes s s.
Proof.
  split; try done.
  intros i j' H. exists j'. done.
Qed.

Lemma wanes_trans s1 s2 s3 : wanes s1 s2 -> wanes s2 s3 -> wanes s1 s3.
Proof.
  intros [] []. split; try congruence; try (intros; etrans; eauto; fail).
  - auto.
  - intros i j3 H3.
    destruct (wanes_subjects1 i j3 H3) as (j2 & H2 & E2 & S2).
    destruct (wanes_subjects0 i j2 H2) as (j1 & H1 & E1 & S1).
    exists j1. split; [done|]. split; [congruence|]. by etrans.
Qed.

Lemma remove_first_sublist x l : remove_first x l `sublist_of` l.
Proof.
  induction l as [|y l IH]; simpl; [done|].
  case_decide.
  - by apply sublist_cons.
  - by apply sublist_skip.
Qed.

Lemma wanes_removeEventListener p f s : wanes s (removeEventListener p f s).
Proof.
  split; try done.
  - simpl. by rewrite length_alter.
  - intros q. rewrite listeners_of_removeEventListener.
    case_decide; [apply sublist_filter|done].
  - intros q. unfold is_aborted. by rewrite signal_aborted_removeEventListener.
  - intros i j' H. exists j'. done.
Qed.

Lemma wanes_Subject_handler j b s : wanes s (Subject_handler j b s).
Proof.
  split; try done.
  - intros i j' H. simpl in H.
    destruct (decide (j = i)) as [->|E].
    + rewrite list_lookup_alter_eq in H.
      destruct (subjects s !! i) as [x|]; [|done]. simpl in H.
      simplify_eq. exists x. split; [done|]. split; [done|].
      apply remove_first_sublist.
    + rewrite list_lookup_alter_ne in H by done. exists j'. done.
  - simpl. by rewrite length_alter.
Qed.

Lemma wanes_raise c a s :
  controllers s !! c = Some a ->
  wanes s (set_controllers
             (<[c := mkAbortController true (S (ac_fired a)) (ac_listeners a)]>) s).
Proof.
  intros Hc. split; try done.
  - simpl. by rewrite length_insert.
  - intros q. unfold listeners_of; simpl.
    destruct (decide (c = q)) as [->|E].
    + rewrite list_lookup_insert_eq by (by eapply lookup_lt_Some).
      by rewrite Hc.
    + by rewrite list_lookup_insert_ne.
  - intros q. unfold is_aborted, signal_aborted; simpl.
    destruct (decide (c = q)) as [->|E].
    + rewrite list_lookup_insert_eq by (by eapply lookup_lt_Some). done.
    + by rewrite list_lookup_insert_ne.
  - intros i j' H. exists j'. done.
Qed.

Section AbortInduction.
Variable fuel : nat.
Variable P : State -> State -> Prop.
Hypothesis P_refl : forall s, P s s.
Hypothesis P_trans : forall s1 s2 s3, P s1 s2 -> P s2 s3 -> P s1 s3.
Hypothesis P_remove : forall p f s, P s (removeEventListener p f s).
Hypothesis P_subject : forall j b s, P s (Subject_handler j b s).
Hypothesis P_abort : forall c s s', abort fuel c s = Some s' -> P s s'.

Lemma run_listener_ind l s s' :
  run_listener (abort fuel) l s = Some s' -> P s s'.
Proof.
  destruct l; simpl; intros H.
  - eauto.
  - simplify_eq. apply P_remove.
  - simplify_eq. apply P_subject.
Qed.

Lemma dispatchEvent_ind signal snapshot s s' :
  dispatchEvent (abort fuel) signal snapshot s = Some s' -> P s s'.
Proof.
  revert s. induction snapshot as [|[f l] rest IH]; simpl; intros s H.
  - simplify_eq. apply P_refl.
  - destruct (registered signal f s); [|eauto].
    destruct (run_listener (abort fuel) l s) as [s1|] eqn:E; [|done].
    simpl in H. eapply P_trans; [by eapply run_listener_ind|eauto].
Qed.
End AbortInduction.

Lemma abort_wanes fuel c s s' : abort fuel c s = Some s' -> wanes s s'.
Proof.
  revert c s s'. induction fuel as [|fuel IH]; intros c s s' H; [done|].
  simpl in H. destruct (controllers s !! c) as [a|] eqn:Hc; [|done].
  simpl in H. destruct (ac_aborted a).
  - simplify_eq. apply wanes_refl.
  - eapply wanes_trans; [by apply wanes_raise|].
    eapply (dispatchEvent_ind fuel wanes); eauto using wanes_refl, wanes_trans,
      wanes_removeEventListener, wanes_Subject_handler.
Qed.

Lemma abort_is_aborted fuel c s s' : abort fuel c s = Some s' -> is_aborted c s'.
Proof.
  destruct fuel as [|fuel]; [done|]. simpl. intros H.
  destruct (controllers s !! c) as [a|] eqn:Hc; [|done]. simpl in H.
  destruct (ac_aborted a) eqn:Ha.
  - simplify_eq. unfold is_aborted, signal_aborted. by rewrite Hc, <- Ha.
  - apply (dispatchEvent_ind fuel wanes) in H; eauto using wanes_refl,
      wanes_trans, wanes_removeEventListener, wanes_Subject_handler, abort_wanes.
    apply (wanes_aborted _ _ H). unfold is_aborted, signal_aborted; simpl.
    rewrite list_lookup_insert_eq by (by eapply lookup_lt_Some). done.
Qed.

Lemma dispatchEvent_fuel_mono (f g : nat -> State -> option State) :
  (forall c s s', f c s = Some s' -> g c s = Some s') ->
  forall signal snapshot s s',
    dispatchEvent f signal snapshot s = Some s' ->
    dispatchEvent g signal snapshot s = Some s'.
Proof.
  intros Hfg signal snapshot.
  induction snapshot as [|[i l] rest IH]; simpl; intros s s' H; [done|].
  destruct (registered signal i s); [|eauto].
  destruct (run_listener f l s) as [s1|] eqn:E; [|done]. simpl in H.
  assert (run_listener g l s = Some s1) as ->.
  { destruct l; simpl in *; eauto. }
  simpl. eauto.
Qed.

Lemma abort_fuel_mono fuel fuel' c s s' :
  fuel <= fuel' -> abort fuel c s = Some s' -> abort fuel' c s = Some s'.
Proof.
  revert fuel' c s s'. induction fuel as [|fuel IH]; intros fuel' c s s' Hle H;
    [done|].
  destruct fuel' as [|fuel']; [lia|]. simpl in *.
  destruct (controllers s !! c) as [a|]; [|done]. simpl in *.
  destruct (ac_aborted a); [done|].
  eapply dispatchEvent_fuel_mono; [|exact H].
  intros. eapply IH; [lia|done].
Qed.

(** The well-formedness of the listener lists that [chainAbort] and the
    Subject maintain:
    - the ["abort"] event of a controller has fired once if it is aborted
      and never otherwise;
    - function objects are older than the next one to be created, and a
      signal holds a function object at most once;
    - a cleanup listener sits on the very controller that the handler it
      removes would abort;
    - a handler aborts a controller that exists. *)
Record tokens_ok (s : State) : Prop := mkTokensOk {
  ok_fired : forall c b, signal_aborted c s = Some b ->
                         fired c s = if b then 1 else 0;
  ok_fresh : forall c f l, (f, l) ∈ listeners_of c s -> f < closures s;
  ok_target : forall c f q h, (f, ChainCleanup q h) ∈ listeners_of c s ->
                              h < closures s;
  ok_nodup : forall c, NoDup (listeners_of c s).*1;
  ok_pair : forall x f q h l,
      (f, ChainCleanup q h) ∈ listeners_of x s ->
      (h, l) ∈ listeners_of q s -> l = ChainHandler x;
  ok_child : forall c f x, (f, ChainHandler x) ∈ listeners_of c s ->
                           x < length (controllers s)
}.

Lemma tokens_ok_empty : tokens_ok empty.
Proof.
  split; unfold listeners_of, signal_aborted; simpl; intros;
    try match goal with H : _ ∈ [] |- _ => by apply elem_of_nil in H end;
    [done|apply NoDup_nil_2].
Qed.

Lemma wanes_elem q e s s' : wanes s s' -> e ∈ listeners_of q s' -> e ∈ listeners_of q s.
Proof. intros W H. eapply elem_of_sublist; [done|apply W]. Qed.

Lemma wanes_tokens_ok s s' :
  wanes s s' -> tokens_ok s ->
  (forall c b, signal_aborted c s' = Some b -> fired c s' = if b then 1 else 0) ->
  tokens_ok s'.
Proof.
  intros W [] Hf. split.
  - done.
  - intros c f l H. rewrite (wanes_closures _ _ W). eauto using wanes_elem.
  - intros c f q h H. rewrite (wanes_closures _ _ W). eauto using wanes_elem.
  - intros c. eapply sublist_NoDup; [apply (ok_nodup0 c)|].
    apply fmap_sublist, W.
  - intros x f q h l H1 H2. eauto using wanes_elem.
  - intros c f x H. rewrite (wanes_length _ _ W). eauto using wanes_elem.
Qed.

Lemma tokens_ok_removeEventListener p f s :
  tokens_ok s -> tokens_ok (removeEventListener p f s).
Proof.
  intros Hok. eapply wanes_tokens_ok; [apply wanes_removeEventListener|done|].
  intros c b. rewrite signal_aborted_removeEventListener, fired_removeEventListener.
  apply Hok.
Qed.

Lemma tokens_ok_Subject_handler j b s :
  tokens_ok s -> tokens_ok (Subject_handler j b s).
Proof.
  intros Hok. eapply wanes_tokens_ok; [apply wanes_Subject_handler|done|].
  apply Hok.
Qed.

Lemma tokens_ok_raise c a s :
  controllers s !! c = Some a -> ac_aborted a = false -> tokens_ok s ->
  tokens_ok (set_controllers
               (<[c := mkAbortController true (S (ac_fired a)) (ac_listeners a)]>) s).
Proof.
  intros Hc Ha Hok. eapply wanes_tokens_ok; [by apply wanes_raise|done|].
  intros q b. unfold signal_aborted, fired; simpl.
  destruct (decide (c = q)) as [->|E].
  - rewrite list_lookup_insert_eq by (by eapply lookup_lt_Some). simpl.
    intros [= <-]. pose proof (ok_fired _ Hok q false) as H.
    unfold signal_aborted, fired in H. rewrite Hc in H. simpl in H.
    rewrite H; [done|by rewrite Ha].
  - rewrite list_lookup_insert_ne by done. apply Hok.
Qed.

Lemma abort_tokens_ok fuel c s s' :
  abort fuel c s = Some s' -> tokens_ok s -> tokens_ok s'.
Proof.
  revert c s s'. induction fuel as [|fuel IH]; intros c s s' H; [done|].
  simpl in H. destruct (controllers s !! c) as [a|] eqn:Hc; [|done].
  simpl in H. destruct (ac_aborted a) eqn:Ha.
  - by simplify_eq.
  - intros Hok.
    eapply (dispatchEvent_ind fuel (fun s s' => tokens_ok s -> tokens_ok s'));
      eauto using tokens_ok_removeEventListener, tokens_ok_Subject_handler,
        tokens_ok_raise.
Qed.

(** *** A listener that is run is still registered *)

Section DispatchInvariant.
Variable fuel : nat.
Variable x : nat.
Variable P : State -> State -> Prop.
Hypothesis P_refl : forall s, P s s.
Hypothesis P_trans : forall s1 s2 s3, P s1 s2 -> P s2 s3 -> P s1 s3.
Hypothesis P_listener : forall f l s s',
    tokens_ok s -> is_aborted x s -> (f, l) ∈ listeners_of x s ->
    run_listener (abort fuel) l s = Some s' -> P s s'.

Lemma run_listener_wanes l s s' :
  run_listener (abort fuel) l s = Some s' -> wanes s s'.
Proof.
  apply (run_listener_ind fuel wanes);
    eauto using wanes_removeEventListener, wanes_Subject_handler, abort_wanes.
Qed.

Lemma run_listener_tokens_ok l s s' :
  run_listener (abort fuel) l s = Some s' -> tokens_ok s -> tokens_ok s'.
Proof.
  apply (run_listener_ind fuel (fun s s' => tokens_ok s -> tokens_ok s'));
    eauto using tokens_ok_removeEventListener, tokens_ok_Subject_handler,
      abort_tokens_ok.
Qed.

Lemma dispatchEvent_inv full rest s s' :
  tokens_ok s -> is_aborted x s ->
  NoDup full.*1 -> rest ⊆ full -> listeners_of x s ⊆ full ->
  dispatchEvent (abort fuel) x rest s = Some s' -> P s s'.
Proof.
  intros Hok Hx Hnd. revert s Hok Hx.
  induction rest as [|[f l] rest IH]; simpl; intros s Hok Hx Hrest Hcur H.
  - simplify_eq. apply P_refl.
  - assert (rest ⊆ full) as Hrest' by set_solver.
    destruct (registered x f s) eqn:Hreg; [|eauto].
    destruct (run_listener (abort fuel) l s) as [s1|] eqn:E; [|done].
    simpl in H.
    assert ((f, l) ∈ listeners_of x s) as Hin.
    { apply registered_spec, list_elem_of_fmap in Hreg.
      destruct Hreg as ([f' l'] & Hf & Hin'). simpl in Hf. subst f'.
      assert ((f, l) ∈ full) as H1 by set_solver.
      assert ((f, l') ∈ full) as H2 by set_solver.
      assert (l = l') as ->; [|done].
      apply list_elem_of_lookup in H1 as [i Hi].
      apply list_elem_of_lookup in H2 as [j Hj].
      assert (i = j) as ->.
      { eapply NoDup_lookup; [exact Hnd| |];
          rewrite list_lookup_fmap; [by rewrite Hi|by rewrite Hj]. }
      congruence. }
    pose proof (run_listener_wanes _ _ _ E) as W.
    eapply P_trans; [by eapply P_listener|].
    apply IH; eauto using run_listener_tokens_ok.
    + by apply (wanes_aborted _ _ W).
    + intros e He. apply Hcur. by eapply wanes_elem.
Qed.
End DispatchInvariant.

(** A handler leaves its signal only after the controller it aborts has
    been aborted; a listener of another kind is never removed. *)
Record kept (s s' : State) : Prop := mkKept {
  kept_wanes : wanes s s';
  kept_handlers : forall p h c, (h, ChainHandler c) ∈ listeners_of p s ->
      (h, ChainHandler c) ∈ listeners_of p s' \/ is_aborted c s';
  kept_others : forall x f l, (f, l) ∈ listeners_of x s ->
      (forall y, l ≠ ChainHandler y) -> (f, l) ∈ listeners_of x s'
}.

Lemma kept_refl s : kept s s.
Proof. split; [apply wanes_refl|by left|done]. Qed.

Lemma kept_trans s1 s2 s3 : kept s1 s2 -> kept s2 s3 -> kept s1 s3.
Proof.
  intros [W1 A1 A2] [W2 B1 B2]. split.
  - by eapply wanes_trans.
  - intros p h c Hh. destruct (A1 _ _ _ Hh) as [Hh'|Hab]; [eauto|].
    right. by apply (wanes_aborted _ _ W2).
  - eauto.
Qed.

Lemma elem_of_listeners_removeEventListener q e p f s :
  e ∈ listeners_of q (removeEventListener p f s) <->
  e ∈ listeners_of q s /\ (p = q -> e.1 ≠ f).
Proof.
  rewrite listeners_of_removeEventListener. case_decide as E.
  - rewrite list_elem_of_filter. naive_solver.
  - naive_solver.
Qed.

Lemma listeners_of_raise q c a s :
  controllers s !! c = Some a ->
  listeners_of q
    (set_controllers
       (<[c := mkAbortController true (S (ac_fired a)) (ac_listeners a)]>) s)
  = listeners_of q s.
Proof.
  intros Hc. unfold listeners_of; simpl.
  destruct (decide (c = q)) as [->|E].
  - rewrite list_lookup_insert_eq by (by eapply lookup_lt_Some).
    by rewrite Hc.
  - by rewrite list_lookup_insert_ne.
Qed.

Lemma is_aborted_raise c a s :
  controllers s !! c = Some a ->
  is_aborted c
    (set_controllers
       (<[c := mkAbortController true (S (ac_fired a)) (ac_listeners a)]>) s).
Proof.
  intros Hc. unfold is_aborted, signal_aborted; simpl.
  rewrite list_lookup_insert_eq by (by eapply lookup_lt_Some). done.
Qed.

Lemma run_listener_kept fuel x f l s s' :
  (forall c s s', abort fuel c s = Some s' -> tokens_ok s -> kept s s') ->
  tokens_ok s -> is_aborted x s -> (f, l) ∈ listeners_of x s ->
  run_listener (abort fuel) l s = Some s' -> kept s s'.
Proof.
  intros IH Hok Hx Hin H. destruct l as [y|q g|j b]; simpl in H.
  - eauto.
  - simplify_eq. split.
    + apply wanes_removeEventListener.
    + intros p h c Hh.
      destruct (decide (p = q /\ h = g)) as [[-> ->]|Hne].
      * right. pose proof (ok_pair _ Hok _ _ _ _ _ Hin Hh) as [= ->].
        unfold is_aborted. by rewrite signal_aborted_removeEventListener.
      * left. apply elem_of_listeners_removeEventListener. naive_solver.
    + intros z f' l' Hl Hno.
      apply elem_of_listeners_removeEventListener. split; [done|].
      intros -> Hf. simpl in Hf. subst f'.
      pose proof (ok_pair _ Hok _ _ _ _ _ Hin Hl). naive_solver.
  - simplify_eq. split; [apply wanes_Subject_handler|by left|done].
Qed.

Lemma abort_kept fuel c s s' :
  abort fuel c s = Some s' -> tokens_ok s -> kept s s'.
Proof.
  revert c s s'. induction fuel as [|fuel IH]; intros c s s' H Hok; [done|].
  simpl in H. destruct (controllers s !! c) as [a|] eqn:Hc; [|done].
  simpl in H. destruct (ac_aborted a) eqn:Ha.
  - simplify_eq. apply kept_refl.
  - set (s1 := set_controllers _ s) in H.
    assert (listeners_of c s = ac_listeners a) as Hla.
    { unfold listeners_of. by rewrite Hc. }
    assert (kept s1 s') as [W K1 K2].
    { eapply (dispatchEvent_inv fuel c kept)
        with (full := ac_listeners a) (rest := ac_listeners a);
        try exact H; eauto using kept_refl, kept_trans.
      - intros. eapply run_listener_kept; eauto.
      - by apply tokens_ok_raise.
      - by apply is_aborted_raise.
      - rewrite <- Hla. apply Hok.
      - unfold s1. rewrite listeners_of_raise, Hla; done. }
    split.
    + eapply wanes_trans; [by apply wanes_raise|done].
    + intros p h x Hh. apply K1. unfold s1. by rewrite listeners_of_raise.
    + intros x f l Hl Hno. apply K2; [|done].
      unfold s1. by rewrite listeners_of_raise.
Qed.

(** *** No handler outlives the controller it aborts *)

Definition tidy_at (c : nat) (s : State) : Prop :=
  forall h' p h, (h', ChainCleanup p h) ∈ listeners_of c s ->
                 is_aborted c s -> h ∉ (listeners_of p s).*1.

Lemma wanes_ids q f s s' :
  wanes s s' -> f ∉ (listeners_of q s).*1 -> f ∉ (listeners_of q s').*1.
Proof.
  intros W Hf Hin. apply Hf. eapply elem_of_sublist; [exact Hin|].
  apply fmap_sublist, W.
Qed.

Lemma wanes_tidy_at c s s' :
  wanes s s' -> (is_aborted c s' -> is_aborted c s) ->
  tidy_at c s -> tidy_at c s'.
Proof.
  intros W Hab Ht h' p h Hc Ha.
  eapply wanes_ids; [exact W|]. eapply Ht; eauto using wanes_elem.
Qed.

Lemma dispatchEvent_wanes fuel x rest s s' :
  dispatchEvent (abort fuel) x rest s = Some s' -> wanes s s'.
Proof.
  apply (dispatchEvent_ind fuel wanes);
    eauto using wanes_refl, wanes_trans, wanes_removeEventListener,
      wanes_Subject_handler, abort_wanes.
Qed.

Lemma dispatchEvent_runs_cleanup fuel c rest s s' h' p h :
  dispatchEvent (abort fuel) c rest s = Some s' ->
  (h', ChainCleanup p h) ∈ rest ->
  h' ∈ (listeners_of c s').*1 ->
  h ∉ (listeners_of p s').*1.
Proof.
  revert s. induction rest as [|[f l] rest IH]; simpl; intros s H Hin Hreg.
  - by apply elem_of_nil in Hin.
  - destruct (registered c f s) eqn:Hr.
    + destruct (run_listener (abort fuel) l s) as [s1|] eqn:E; [|done].
      simpl in H. apply elem_of_cons in Hin as [Heq|Hin]; [|eauto].
      injection Heq as <- <-. simpl in E. injection E as <-.
      eapply wanes_ids; [by eapply dispatchEvent_wanes|].
      intros Hh. apply list_elem_of_fmap in Hh as (e & -> & He).
      apply elem_of_listeners_removeEventListener in He. naive_solver.
    + apply elem_of_cons in Hin as [Heq|Hin]; [|eauto].
      injection Heq as <- <-. exfalso.
      assert (registered c h' s = true); [|congruence].
      apply registered_spec. eapply elem_of_sublist; [exact Hreg|].
      apply fmap_sublist. by apply (dispatchEvent_wanes _ _ _ _ _ H).
Qed.

Lemma abort_tidy_at fuel x s s' c :
  abort fuel x s = Some s' -> tidy_at c s -> tidy_at c s'.
Proof.
  revert x s s'. induction fuel as [|fuel IH]; intros x s s' H; [done|].
  simpl in H. destruct (controllers s !! x) as [a|] eqn:Hx; [|done].
  simpl in H. destruct (ac_aborted a) eqn:Ha; [by simplify_eq|].
  set (s1 := set_controllers _ s) in H. intros Ht.
  destruct (decide (x = c)) as [->|Hne].
  - intros h' p h Hin _.
    eapply dispatchEvent_runs_cleanup; [exact H| |].
    + apply (wanes_elem _ _ _ _ (dispatchEvent_wanes _ _ _ _ _ H)) in Hin.
      unfold s1 in Hin. rewrite listeners_of_raise in Hin by done.
      unfold listeners_of in Hin. by rewrite Hx in Hin.
    + apply list_elem_of_fmap. by exists (h', ChainCleanup p h).
  - assert (tidy_at c s1) as Ht1.
    { eapply wanes_tidy_at; [by apply wanes_raise| |done].
      unfold is_aborted, signal_aborted; simpl.
      by rewrite list_lookup_insert_ne. }
    revert Ht1.
    apply (dispatchEvent_ind fuel (fun s s' => tidy_at c s -> tidy_at c s'))
      with (signal := x) (snapshot := ac_listeners a); eauto.
    intros p f s0. apply wanes_tidy_at; [apply wanes_removeEventListener|].
    unfold is_aborted. by rewrite signal_aborted_removeEventListener.
Qed.

(** *** [abort()] returns *)

Definition live (s : State) : nat :=
  length (filter (fun a => ac_aborted a = false) (controllers s)).

Lemma live_le (l l' : list AbortController) :
  length l' = length l ->
  (forall i a a', l !! i = Some a -> l' !! i = Some a' ->
                  ac_aborted a = true -> ac_aborted a' = true) ->
  length (filter (fun a => ac_aborted a = false) l') <=
  length (filter (fun a => ac_aborted a = false) l).
Proof.
  revert l'. induction l as [|a l IH]; intros [|a' l'] Hlen Hmono; try done.
  rewrite !filter_cons. simpl in Hlen.
  assert (length (filter (fun a => ac_aborted a = false) l') <=
          length (filter (fun a => ac_aborted a = false) l)) as Hle.
  { apply IH; [lia|]. intros i. apply (Hmono (S i)). }
  pose proof (Hmono 0 a a' eq_refl eq_refl) as H0.
  repeat case_decide; simpl; try lia.
  destruct (ac_aborted a); [|done]. rewrite H0 in *; done.
Qed.

Lemma wanes_live s s' : wanes s s' -> live s' <= live s.
Proof.
  intros W. apply live_le; [apply W|].
  intros i a a' Hi Hi' Ha.
  pose proof (wanes_aborted _ _ W i) as H.
  unfold is_aborted, signal_aborted in H. rewrite Hi, Hi' in H. simpl in H.
  rewrite Ha in H. by injection (H eq_refl).
Qed.

Lemma live_raise (l : list AbortController) c a a' :
  l !! c = Some a -> ac_aborted a = false -> ac_aborted a' = true ->
  S (length (filter (fun a => ac_aborted a = false) (<[c := a']> l))) =
  length (filter (fun a => ac_aborted a = false) l).
Proof.
  revert c. induction l as [|b l IH]; intros [|c] Hc Ha Ha'; try done;
    simpl in *; rewrite !filter_cons.
  - simplify_eq. rewrite Ha, Ha'. repeat case_decide; done.
  - case_decide; simpl; rewrite <- (IH c); done.
Qed.

Definition children_exist (s : State) : Prop :=
  forall c f x, (f, ChainHandler x) ∈ listeners_of c s ->
                x < length (controllers s).

Lemma wanes_children_exist s s' :
  wanes s s' -> children_exist s -> children_exist s'.
Proof.
  intros W H c f x Hin. rewrite (wanes_length _ _ W). eauto using wanes_elem.
Qed.

Lemma dispatchEvent_returns fuel x rest s :
  (forall c s, children_exist s -> c < length (controllers s) ->
               live s < fuel -> is_Some (abort fuel c s)) ->
  children_exist s -> live s < fuel ->
  (forall f y, (f, ChainHandler y) ∈ rest -> y < length (controllers s)) ->
  is_Some (dispatchEvent (abort fuel) x rest s).
Proof.
  intros IH. revert s.
  induction rest as [|[f l] rest IHr]; simpl; intros s Hc Hl Hrest; [done|].
  assert (forall f y, (f, ChainHandler y) ∈ rest -> y < length (controllers s))
    as Hrest' by (intros; eapply Hrest; by right).
  destruct (registered x f s); [|eauto].
  assert (is_Some (run_listener (abort fuel) l s)) as [s1 E].
  { destruct l; simpl; [|done..]. apply IH; [done| |done].
    eapply Hrest. by left. }
  rewrite E. simpl.
  pose proof (run_listener_wanes _ _ _ _ E) as W.
  apply IHr; eauto using wanes_children_exist.
  - pose proof (wanes_live _ _ W). lia.
  - rewrite (wanes_length _ _ W). done.
Qed.

Lemma abort_returns fuel c s :
  children_exist s -> c < length (controllers s) -> live s < fuel ->
  is_Some (abort fuel c s).
Proof.
  revert c s. induction fuel as [|fuel IH]; intros c s Hok Hc Hl; [lia|].
  simpl. destruct (lookup_lt_is_Some_2 _ _ Hc) as [a Ha]. rewrite Ha. simpl.
  destruct (ac_aborted a) eqn:Hab; [done|].
  set (s1 := set_controllers _ s).
  assert (wanes s s1) as W by (by apply wanes_raise).
  assert (S (live s1) = live s) as Hl1.
  { unfold live, s1; simpl. by eapply live_raise. }
  apply dispatchEvent_returns; eauto using wanes_children_exist.
  - lia.
  - intros f y Hin. rewrite (wanes_length _ _ W). eapply Hok.
    unfold listeners_of. by rewrite Ha.
Qed.

(** *** A listener that stays registered is run *)

Lemma dispatchEvent_runs_handler fuel x rest s s' f c :
  dispatchEvent (abort fuel) x rest s = Some s' ->
  (f, ChainHandler c) ∈ rest ->
  f ∈ (listeners_of x s').*1 ->
  is_aborted c s'.
Proof.
  revert s. induction rest as [|[g l] rest IH]; simpl; intros s H Hin Hreg.
  - by apply elem_of_nil in Hin.
  - destruct (registered x g s) eqn:Hr.
    + destruct (run_listener (abort fuel) l s) as [s1|] eqn:E; [|done].
      simpl in H. apply elem_of_cons in Hin as [Heq|Hin]; [|eauto].
      injection Heq as <- <-. simpl in E.
      apply (wanes_aborted _ _ (dispatchEvent_wanes _ _ _ _ _ H)).
      by eapply abort_is_aborted.
    + apply elem_of_cons in Hin as [Heq|Hin]; [|eauto].
      injection Heq as <- <-. exfalso.
      assert (registered x f s = true); [|congruence].
      apply registered_spec. eapply elem_of_sublist; [exact Hreg|].
      apply fmap_sublist. by apply (dispatchEvent_wanes _ _ _ _ _ H).
Qed.

Lemma abort_runs_handler fuel x s s' f c :
  abort fuel x s = Some s' -> tokens_ok s ->
  signal_aborted x s = Some false ->
  (f, ChainHandler c) ∈ listeners_of x s ->
  is_aborted c s'.
Proof.
  intros H Hok Hx Hin.
  destruct (kept_handlers _ _ (abort_kept _ _ _ _ H Hok) _ _ _ Hin) as [Hk|]; [|done].
  destruct fuel as [|fuel]; [done|]. simpl in H.
  unfold signal_aborted in Hx. unfold listeners_of in Hin.
  destruct (controllers s !! x) as [a|] eqn:Ha; [|done]. simpl in *.
  injection Hx as Hx. rewrite Hx in H.
  eapply dispatchEvent_runs_handler; [exact H|exact Hin|].
  apply list_elem_of_fmap. by exists (f, ChainHandler c).
Qed.

(** *** [abort()] only travels down the chain *)

Inductive reaches (s : State) : nat -> nat -> Prop :=
  | reaches_here x : reaches s x x
  | reaches_step x f z y :
      (f, ChainHandler z) ∈ listeners_of x s -> reaches s z y -> reaches s x y.

Lemma wanes_reaches s s' x y : wanes s s' -> reaches s' x y -> reaches s x y.
Proof.
  intros W. induction 1 as [|x f z y Hin _ IH]; [constructor|].
  eapply reaches_step; [|exact IH]. by eapply wanes_elem.
Qed.

Definition descends (s0 : State) (x : nat) (s s' : State) : Prop :=
  wanes s s' /\
  forall y, is_aborted y s' -> is_aborted y s \/ reaches s0 x y.

Lemma abort_descends fuel x s s' :
  abort fuel x s = Some s' -> tokens_ok s -> descends s x s s'.
Proof.
  revert x s s'. induction fuel as [|fuel IH]; intros x s s' H Hok; [done|].
  pose proof (abort_wanes _ _ _ _ H) as W.
  simpl in H. destruct (controllers s !! x) as [a|] eqn:Hx; [|done].
  simpl in H. destruct (ac_aborted a) eqn:Ha.
  - simplify_eq. split; [apply wanes_refl|by left].
  - split; [done|]. set (s1 := set_controllers _ s) in H.
    assert (wanes s s1) as W1 by (by apply wanes_raise).
    assert (wanes s s1 -> descends s x s1 s') as D0.
    { eapply (dispatchEvent_inv fuel x
               (fun t t' => wanes s t -> descends s x t t'))
        with (full := ac_listeners a) (rest := ac_listeners a);
        try exact H.
      - intros t _. split; [apply wanes_refl|by left].
      - intros t1 t2 t3 A B W0. destruct (A W0) as [W2 A'].
        destruct (B (wanes_trans _ _ _ W0 W2)) as [W3 B'].
        split; [by eapply wanes_trans|].
        intros y Hy. destruct (B' y Hy) as [Hy'|]; [|by right]. by apply A'.
      - intros f l t t' Hokt Hz Hin E W0.
        split; [by eapply run_listener_wanes|].
        destruct l as [w|q g|j b]; simpl in E.
        + intros y Hy. destruct (IH _ _ _ E Hokt) as [_ D].
          destruct (D y Hy) as [|R]; [by left|right].
          eapply reaches_step; [by eapply wanes_elem|].
          by eapply wanes_reaches.
        + simplify_eq. intros y. unfold is_aborted.
          rewrite signal_aborted_removeEventListener. by left.
        + simplify_eq. intros y Hy. by left.
      - by apply tokens_ok_raise.
      - by apply is_aborted_raise.
      - pose proof (ok_nodup _ Hok x) as Hn. unfold listeners_of in Hn.
        by rewrite Hx in Hn.
      - done.
      - unfold s1. rewrite listeners_of_raise by done.
        unfold listeners_of. by rewrite Hx. }
    destruct (D0 W1) as [_ D].
    intros y Hy. destruct (D y Hy) as [Hy'|]; [|by right].
    unfold is_aborted, signal_aborted, s1 in Hy'. simpl in Hy'.
    destruct (decide (x = y)) as [->|Hne]; [right; constructor|].
    rewrite list_lookup_insert_ne in Hy' by done. by left.
Qed.

(** *** What [chainAbort] builds *)

Lemma chainAbort_listeners q p c s :
  p < length (controllers s) -> c < length (controllers s) ->
  listeners_of q (chainAbort p c s) =
  listeners_of q s
  ++ (if decide (c = q) then [(S (closures s), ChainCleanup p (closures s))] else [])
  ++ (if decide (p = q) then [(closures s, ChainHandler c)] else []).
Proof.
  intros Hp Hc. unfold chainAbort, new_closure. simpl.
  rewrite listeners_of_addEventListener
    by (unfold addEventListener; simpl; by rewrite length_alter).
  rewrite listeners_of_addEventListener by done.
  repeat case_decide; by rewrite <- ?app_assoc, ?app_nil_r.
Qed.

Lemma chainAbort_signal_aborted q p c s :
  signal_aborted q (chainAbort p c s) = signal_aborted q s.
Proof.
  unfold chainAbort, new_closure. simpl.
  by rewrite !signal_aborted_addEventListener.
Qed.

Lemma fired_addEventListener q p f l s :
  fired q (addEventListener p f l s) = fired q s.
Proof.
  unfold fired, addEventListener; simpl.
  destruct (decide (p = q)) as [->|E].
  - rewrite list_lookup_alter_eq. destruct (controllers s !! q); reflexivity.
  - rewrite list_lookup_alter_ne by done. reflexivity.
Qed.

Lemma chainAbort_fired q p c s : fired q (chainAbort p c s) = fired q s.
Proof.
  unfold chainAbort, new_closure. simpl. by rewrite !fired_addEventListener.
Qed.

Lemma chainAbort_length p c s :
  length (controllers (chainAbort p c s)) = length (controllers s).
Proof. unfold chainAbort, new_closure. simpl. by rewrite !length_alter. Qed.

Lemma chainAbort_closures p c s :
  closures (chainAbort p c s) = S (S (closures s)).
Proof. reflexivity. Qed.

Lemma elem_of_chainAbort e q p c s :
  p < length (controllers s) -> c < length (controllers s) ->
  e ∈ listeners_of q (chainAbort p c s) <->
  e ∈ listeners_of q s \/
  (c = q /\ e = (S (closures s), ChainCleanup p (closures s))) \/
  (p = q /\ e = (closures s, ChainHandler c)).
Proof.
  intros Hp Hc. rewrite chainAbort_listeners by done.
  rewrite !elem_of_app. repeat case_decide;
    rewrite ?list_elem_of_singleton, ?elem_of_nil; naive_solver.
Qed.

Lemma tokens_ok_chainAbort p c s :
  p < length (controllers s) -> c < length (controllers s) ->
  tokens_ok s -> tokens_ok (chainAbort p c s).
Proof.
  intros Hp Hc Hok. split.
  - intros q b. rewrite chainAbort_signal_aborted, chainAbort_fired. apply Hok.
  - intros q f l H. rewrite chainAbort_closures.
    apply elem_of_chainAbort in H; [|done..].
    destruct H as [H|[[? E]|[? E]]]; simplify_eq; [|lia..].
    pose proof (ok_fresh _ Hok _ _ _ H). lia.
  - intros q f x h H. rewrite chainAbort_closures.
    apply elem_of_chainAbort in H; [|done..].
    destruct H as [H|[[? E]|[? E]]]; simplify_eq; [|lia].
    pose proof (ok_target _ Hok _ _ _ _ H). lia.
  - intros q. rewrite chainAbort_listeners, !fmap_app by done.
    pose proof (ok_nodup _ Hok q) as Hn.
    assert (forall f, f ∈ (listeners_of q s).*1 -> f < closures s) as Hlt.
    { intros f ([f' l] & -> & Hin)%list_elem_of_fmap. by eapply ok_fresh. }
    assert (forall k, (forall f, f ∈ k -> closures s <= f) -> NoDup k ->
              NoDup ((listeners_of q s).*1 ++ k)) as Happ.
    { intros k Hk Hnk. apply NoDup_app. repeat split; [done| |done].
      intros f Hf Hf'. apply Hlt in Hf. apply Hk in Hf'. lia. }
    repeat case_decide; simpl; apply Happ;
      try apply NoDup_nil_2; try apply NoDup_singleton;
      try (intros f; rewrite ?elem_of_cons, ?elem_of_nil; lia).
    apply NoDup_cons. split; [|apply NoDup_singleton].
    rewrite list_elem_of_singleton. lia.
  - intros x f q h l H1 H2.
    apply elem_of_chainAbort in H1; [|done..].
    apply elem_of_chainAbort in H2; [|done..].
    destruct H1 as [H1|[[? E1]|[? E1]]], H2 as [H2|[[? E2]|[? E2]]];
      simplify_eq;
      try (by eapply ok_pair);
      try (pose proof (ok_target _ Hok _ _ _ _ H1); lia);
      try (pose proof (ok_fresh _ Hok _ _ _ H2); lia); try done; lia.
  - intros q f x H. rewrite chainAbort_length.
    apply elem_of_chainAbort in H; [|done..].
    destruct H as [H|[[? E]|[? E]]]; simplify_eq; [by eapply ok_child|done].
Qed.

Lemma reaches_chainAbort p c s x :
  p < length (controllers s) -> c < length (controllers s) ->
  reaches (chainAbort p c s) x p -> reaches s x p.
Proof.
  intros Hp Hc H.
  assert (forall y, reaches (chainAbort p c s) x y -> y = p -> reaches s x y)
    as G; [|by eapply G].
  clear H. intros y H. induction H as [|x f z y Hin _ IH]; intros Ey;
    [constructor|].
  apply elem_of_chainAbort in Hin; [|done..].
  destruct Hin as [Hin|[[? E]|[? E]]]; simplify_eq.
  - eapply reaches_step; [exact Hin|by apply IH].
  - constructor.
Qed.

(** C5.  Let [chainAbort(parentSignal, childController)] be called in a
    well-formed store on two existing controllers, the child not aborted
    and the parent not among the controllers that the child's own
    listeners abort.  Then, in the store it leaves:
    - the handler is registered on the parent;
    - if the parent is not aborted, [abort()] on the parent returns, the
      child is aborted, its ["abort"] event has fired exactly once, and
      the handler is no longer registered on the parent;
    - [abort()] on the child returns, the child is aborted with its event
      fired exactly once, the parent is aborted or not as it was before,
      and the handler is no longer registered on the parent. *)
Theorem chainAbort_cascades_down_only (s : State) (parentSignal childController : nat) :
  tokens_ok s ->
  parentSignal < length (controllers s) ->
  childController < length (controllers s) ->
  signal_aborted childController s = Some false ->
  ~ reaches s childController parentSignal ->
  let handler := closures s in
  let s1 := chainAbort parentSignal childController s in
  (handler, ChainHandler childController) ∈ listeners_of parentSignal s1 /\
  (signal_aborted parentSignal s = Some false ->
   exists fuel s2,
     abort fuel parentSignal s1 = Some s2 /\
     is_aborted childController s2 /\
     fired childController s = 0 /\ fired childController s2 = 1 /\
     handler ∉ (listeners_of parentSignal s2).*1) /\
  (exists fuel s2,
     abort fuel childController s1 = Some s2 /\
     is_aborted childController s2 /\
     fired childController s = 0 /\ fired childController s2 = 1 /\
     signal_aborted parentSignal s2 = signal_aborted parentSignal s /\
     handler ∉ (listeners_of parentSignal s2).*1).
Proof.
  intros Hok Hp Hc Hlive Hnr handler s1.
  set (p := parentSignal) in *. set (c := childController) in *.
  assert (tokens_ok s1) as Hok1 by (by apply tokens_ok_chainAbort).
  assert ((handler, ChainHandler c) ∈ listeners_of p s1) as Hh.
  { apply elem_of_chainAbort; auto. }
  assert ((S handler, ChainCleanup p handler) ∈ listeners_of c s1) as Hcl.
  { apply elem_of_chainAbort; auto. }
  assert (fired c s = 0) as Hf0 by (by apply (ok_fired _ Hok c false)).
  assert (tidy_at c s1) as Ht1.
  { intros h' q h _ Ha. unfold is_aborted, s1 in Ha.
    rewrite chainAbort_signal_aborted in Ha. congruence. }
  assert (forall fuel x s2, abort fuel x s1 = Some s2 -> is_aborted c s2 ->
            fired c s2 = 1 /\ handler ∉ (listeners_of p s2).*1) as Hend.
  { intros fuel x s2 H Ha. split.
    - by apply (ok_fired _ (abort_tokens_ok _ _ _ _ H Hok1) c true).
    - eapply (abort_tidy_at _ _ _ _ c H Ht1); [|done].
      by eapply (kept_others _ _ (abort_kept _ _ _ _ H Hok1)). }
  assert (forall x, x < length (controllers s) ->
            is_Some (abort (S (live s1)) x s1)) as Hret.
  { intros x Hx. apply abort_returns; [exact (ok_child _ Hok1)| |lia].
    unfold s1. by rewrite chainAbort_length. }
  split; [done|]. split.
  - intros Hpl. destruct (Hret p Hp) as [s2 H]. exists (S (live s1)), s2.
    assert (is_aborted c s2) as Ha.
    { eapply abort_runs_handler; eauto.
      unfold s1. by rewrite chainAbort_signal_aborted. }
    destruct (Hend _ _ _ H Ha). done.
  - destruct (Hret c Hc) as [s2 H]. exists (S (live s1)), s2.
    pose proof (abort_is_aborted _ _ _ _ H) as Ha.
    destruct (Hend _ _ _ H Ha). repeat split; try done.
    pose proof (abort_wanes _ _ _ _ H) as W.
    destruct (abort_descends _ _ _ _ H Hok1) as [_ D].
    unfold s1 in *. clear Hend Hret.
    specialize (D p). pose proof (wanes_aborted _ _ W p) as Hm.
    unfold is_aborted in *. rewrite chainAbort_signal_aborted in *.
    assert (is_Some (signal_aborted p s2)) as [b2 Hb2].
    { unfold signal_aborted. rewrite fmap_is_Some. apply lookup_lt_is_Some_2.
      by rewrite (wanes_length _ _ W), chainAbort_length. }
    assert (is_Some (signal_aborted p s)) as [b Hb].
    { unfold signal_aborted. rewrite fmap_is_Some. by apply lookup_lt_is_Some_2. }
    rewrite Hb2, Hb in *. destruct b2, b; try done.
    + destruct (D eq_refl) as [|R]; [done|].
      exfalso. apply Hnr. by eapply reaches_chainAbort.
    + by specialize (Hm eq_refl).
Qed.

Lemma tokens_ok_new_AbortController s :
  tokens_ok s -> tokens_ok (new_AbortController s).2.
Proof.
  intros Hok.
  assert (forall q, listeners_of q (new_AbortController s).2 = listeners_of q s)
    as Hl.
  { intros q. unfold listeners_of; simpl.
    destruct (decide (q < length (controllers s))) as [Hq|Hq].
    - by rewrite lookup_app_l.
    - rewrite (lookup_ge_None_2 (controllers s)) by lia.
      rewrite lookup_app_r by lia.
      by destruct (q - length (controllers s)) as [|[|n]]. }
  split; try (intros *; rewrite ?Hl; apply Hok).
  - intros c b. unfold signal_aborted, fired; simpl.
    destruct (decide (c < length (controllers s))) as [Hc|Hc].
    + rewrite lookup_app_l by done. apply Hok.
    + rewrite lookup_app_r by lia.
      destruct (c - length (controllers s)) as [|[|n]]; simpl; try done.
      by intros [= <-].
  - intros c f x. rewrite Hl. simpl. rewrite length_app. simpl.
    intros H. pose proof (ok_child _ Hok _ _ _ H). lia.
Qed.

(** A parent and a child as [new AbortController()] makes them. *)
Definition two_controllers : State :=
  (new_AbortController (new_AbortController empty).2).2.

Lemma chainAbort_cascades_down_only_witness :
  let s1 := chainAbort 0 1 two_controllers in
  (0, ChainHandler 1) ∈ listeners_of 0 s1 /\
  (signal_aborted 0 two_controllers = Some false ->
   exists fuel s2,
     abort fuel 0 s1 = Some s2 /\
     is_aborted 1 s2 /\
     fired 1 two_controllers = 0 /\ fired 1 s2 = 1 /\
     0 ∉ (listeners_of 0 s2).*1) /\
  (exists fuel s2,
     abort fuel 1 s1 = Some s2 /\
     is_aborted 1 s2 /\
     fired 1 two_controllers = 0 /\ fired 1 s2 = 1 /\
     signal_aborted 0 s2 = signal_aborted 0 two_controllers /\
     0 ∉ (listeners_of 0 s2).*1).
Proof.
  apply (chainAbort_cascades_down_only two_controllers 0 1).
  - do 2 apply tokens_ok_new_AbortController. apply tokens_ok_empty.
  - simpl. lia.
  - simpl. lia.
  - reflexivity.
  - intros H. inversion H as [|x f z y Hin _]; subst.
    vm_compute in Hin. by apply elem_of_nil in Hin.
Defined.

(** ** [Observable.from] *)

Definition exposes_iterator (input : Input) : Prop :=
  match input with
  | Object (Some _) _ _ _ => True
  | _ => False
  end.

Definition exposes_then_and_catch (input : Input) : Prop :=
  match input with
  | Object _ true true _ => True
  | _ => False
  end.

(** C10.  An input whose [Symbol.iterator] member is not a function and
    whose [then] and [catch] members are not both functions makes
    [Observable.from] throw a [TypeError]; it returns no Observable, so
    there is nothing to subscribe to.  ([from] does not touch the store:
    subscribers are only made by [subscribe].) *)
Theorem from_throws_TypeError (input : Input) :
  ~ exposes_iterator input ->
  ~ exposes_then_and_catch input ->
  (exists message, Obs.from input = Throw (JTypeError message)) /\
  (forall o, Obs.from input <> Return o).
Proof.
  intros Hi Hp. destruct input as [|[values|] [|] [|] name]; simpl in *;
    try (exfalso; by auto); split; try done; eauto.
Qed.

Lemma from_throws_TypeError_witness :
  (exists message,
     Obs.from (Object None true false 0) = Throw (JTypeError message)) /\
  (forall o, Obs.from (Object None true false 0) <> Return o).
Proof.
  apply (from_throws_TypeError (Object None true false 0)); simpl; auto.
Defined.

(** The inputs that are accepted. *)
Lemma from_returns (input : Input) :
  exposes_iterator input \/ exposes_then_and_catch input ->
  exists o, Obs.from input = Return o.
Proof.
  destruct input as [|[values|] [|] [|] name]; simpl; intros [[]|[]]; eauto.
Qed.

(** ** Runs of the operators *)

(** An observer with the three handlers, none of which aborts anything. *)
Definition logger (tag : nat) : Observer :=
  PartialObserver
    (mkUserObserver tag (Some (fun _ => [])) (Some (fun _ => [])) (Some [])).

(** [const outer = new Subject(), first = new Subject(),
    second = new Subject()] *)
Definition three_subjects : State :=
  (new_Subject (new_Subject (new_Subject empty).2).2).2.

(** [(v) => v === 1 ? first : second] *)
Definition pick (v : value) (index : nat) : Result Observable :=
  match v with
  | JNumber 1 => Return (SubjectInit 1)
  | _ => Return (SubjectInit 2)
  end.

(** C1.  [outer.switchMap(pick).subscribe(logger)], then [outer.next(1)],
    [outer.next(2)] and [first.next(42)]: the value 42 of the superseded
    inner reaches the observer.  The controller that [switchMap] aborted
    (number 2) is not the one the first inner subscription runs under
    (number 3), and both inner Subjects still hold their subscriber. *)
Theorem switchMap_forwards_superseded_inner :
  exists s,
    run_all 20
      [subscribe (Obs.switchMap pick (SubjectInit 0)) (logger 0) None;
       Subject_next 0 (JNumber 1);
       Subject_next 0 (JNumber 2);
       Subject_next 1 (JNumber 42)] three_subjects = Some s /\
    log s = [Delivered 0 (Next (JNumber 42))] /\
    _subscribers <$> subjects s = [[1]; [2]; [3]] /\
    _abortController <$> subscribers s !! 2 = Some 3 /\
    signal_aborted 2 s = Some true /\
    signal_aborted 3 s = Some false.
Proof. eexists. split; [vm_compute; reflexivity|]. vm_compute. auto 10. Qed.

(** C2.  [outer.concatMap(pick).subscribe(logger)], then [outer.next(1)]
    and [outer.next(2)]: the inner of the second value is subscribed while
    the inner of the first is still active, and [second.next(20)] followed
    by [first.next(10)] reaches the observer in that order. *)
Theorem concatMap_subscribes_second_inner_at_once :
  exists s1 s2,
    run_all 20
      [subscribe (Obs.concatMap pick (SubjectInit 0)) (logger 0) None;
       Subject_next 0 (JNumber 1);
       Subject_next 0 (JNumber 2)] three_subjects = Some s1 /\
    _subscribers <$> subjects s1 = [[1]; [2]; [3]] /\
    _closed <$> subscribers s1 = [false; false; false; false] /\
    variables s1 = [ConcatMapVars 2 false []] /\
    run_all 20
      [Subject_next 2 (JNumber 20); Subject_next 1 (JNumber 10)] s1 = Some s2 /\
    log s2 = [Delivered 0 (Next (JNumber 20)); Delivered 0 (Next (JNumber 10))].
Proof.
  do 2 eexists. split; [vm_compute; reflexivity|]. vm_compute. auto 10.
Qed.

(** [(a, b) => a + b] *)
Definition add (a b : value) (index : nat) : Result value :=
  Return (js_add a b).

Definition one_two_three : list value := [JNumber 1; JNumber 2; JNumber 3].

(** C6.  [Observable.of(1, 2, 3).scan((a, b) => a + b)] delivers 1 and
    then [undefined + 1], which is [NaN], and [NaN] twice more. *)
Theorem scan_without_seed_of_1_2_3 :
  log <$> run 20 (subscribe (Obs.scan add None (FromIterable one_two_three))
                    (logger 0) None) empty =
  Some [Delivered 0 (Next (JNumber 1)); Delivered 0 (Next JNaN);
        Delivered 0 (Next JNaN); Delivered 0 (Next JNaN);
        Delivered 0 Complete].
Proof. vm_compute. reflexivity. Qed.

(** With the seed 10 the run is the one the specification gives. *)
Lemma scan_with_seed_of_1_2_3 :
  log <$> run 20 (subscribe
                    (Obs.scan add (Some (JNumber 10)) (FromIterable one_two_three))
                    (logger 0) None) empty =
  Some [Delivered 0 (Next (JNumber 11)); Delivered 0 (Next (JNumber 13));
        Delivered 0 (Next (JNumber 16)); Delivered 0 Complete].
Proof. vm_compute. reflexivity. Qed.

(** [() => true] *)
Definition always (v : value) (index : nat) : Result bool := Return true.

(** C7.  [Observable.of(1, 2, 3).filter(() => true).take(0)] delivers the
    three values. *)
Theorem filter_take_0_of_1_2_3 :
  log <$> run 20 (subscribe
                    (Obs.take 0 (Obs.filter always (FromIterable one_two_three)))
                    (logger 0) None) empty =
  Some [Delivered 0 (Next (JNumber 1)); Delivered 0 (Next (JNumber 2));
        Delivered 0 (Next (JNumber 3)); Delivered 0 Complete].
Proof. vm_compute. reflexivity. Qed.

(** C8.  [subject.take(1).subscribe(logger0); subject.subscribe(logger1);
    subject.next(7)]: the first subscriber unregisters while it is being
    served, and the second, registered when [next] was called, is passed
    over. *)
Theorem Subject_next_skips_a_subscriber :
  exists s1 s2,
    run_all 20
      [subscribe (Obs.take 1 (SubjectInit 0)) (logger 0) None;
       subscribe (SubjectInit 0) (logger 1) None] three_subjects = Some s1 /\
    _subscribers <$> subjects s1 !! 0 = Some [1; 2] /\
    run 20 (Subject_next 0 (JNumber 7)) s1 = Some s2 /\
    log s2 = [Delivered 0 (Next (JNumber 7)); Delivered 0 Complete] /\
    _subscribers <$> subjects s2 !! 0 = Some [2].
Proof.
  do 2 eexists. split; [vm_compute; reflexivity|]. vm_compute. auto 10.
Qed.

(** The terminal event reaches each of three plain subscribers once, and
    the closed Subject ignores what follows. *)
Lemma Subject_complete_three_subscribers :
  (fun s => (log s, subjects s !! 0)) <$>
  run_all 20
    [subscribe (SubjectInit 0) (logger 0) None;
     subscribe (SubjectInit 0) (logger 1) None;
     subscribe (SubjectInit 0) (logger 2) None;
     Subject_next 0 (JNumber 7);
     Subject_complete 0;
     Subject_next 0 (JNumber 8);
     Subject_error 0 JNaN] three_subjects =
  Some ([Delivered 0 (Next (JNumber 7)); Delivered 1 (Next (JNumber 7));
         Delivered 2 (Next (JNumber 7)); Delivered 0 Complete;
         Delivered 1 Complete; Delivered 2 Complete],
        Some (mkSubject [] true)).
Proof. vm_compute. reflexivity. Qed.

(** [{ next: () => controller.abort(), error, complete }] for the
    controller number 0. *)
Definition aborter (tag : nat) : Observer :=
  PartialObserver
    (mkUserObserver tag (Some (fun _ => [0])) (Some (fun _ => [])) (Some [])).

(** C9.  [const controller = new AbortController();
    Observable.from([1, 2, 3]).subscribe(aborter, controller.signal)]:
    the token of the subscription (controller 1) is aborted while the
    first value is delivered; 2 and 3 are not delivered, [complete] is. *)
Theorem from_completes_after_abort :
  exists s,
    run 20 (subscribe (FromIterable one_two_three) (aborter 0) (Some 0))
      (new_AbortController empty).2 = Some s /\
    log s = [Delivered 0 (Next (JNumber 1)); Delivered 0 Complete] /\
    _abortController <$> subscribers s !! 0 = Some 1 /\
    signal_aborted 1 s = Some true.
Proof. eexists. split; [vm_compute; reflexivity|]. vm_compute. auto. Qed.

(** ** [SafeSubscriber] *)

(** The method of subscriber [k] that a notification stands for. *)
Definition method (k : nat) (n : Notification) : Call :=
  match n with
  | Next v => SafeSubscriber_next k v
  | Error err => SafeSubscriber_error k err
  | Complete => SafeSubscriber_complete k
  end.

Definition is_terminal (n : Notification) : bool :=
  match n with
  | Next _ => false
  | _ => true
  end.

(** What an observer is told when the methods of its subscriber are
    called in the order [calls]: the values up to the first [error] or
    [complete], then that one event, then nothing. *)
Fixpoint deliveries (o : UserObserver) (calls : list Notification) : list Entry :=
  match calls with
  | [] => []
  | Next v :: calls =>
      match uo_next o with
      | Some _ => [Delivered (uo_tag o) (Next v)]
      | None => []
      end ++ deliveries o calls
  | Error err :: _ =>
      match uo_error o with
      | Some _ => [Delivered (uo_tag o) (Error err)]
      | None => [Reported err]
      end
  | Complete :: _ =>
      match uo_complete o with
      | Some _ => [Delivered (uo_tag o) Complete]
      | None => []
      end
  end.

(** The controllers that the handlers of an observer abort. *)
Definition scripts_within (n : nat) (o : UserObserver) : Prop :=
  (forall h v c, uo_next o = Some h -> c ∈ h v -> c < n) /\
  (forall h v c, uo_error o = Some h -> c ∈ h v -> c < n) /\
  (forall h c, uo_complete o = Some h -> c ∈ h -> c < n).

Lemma run_S fuel c s : run (S fuel) c s = body fuel (run fuel) c s.
Proof. reflexivity. Qed.

Arguments run : simpl never.
Arguments abort : simpl never.

Lemma abort_all_returns fuel cs s :
  tokens_ok s -> (forall c, c ∈ cs -> c < length (controllers s)) ->
  live s < fuel ->
  exists s', abort_all fuel cs s = Some s' /\ wanes s s' /\ tokens_ok s'.
Proof.
  revert s. induction cs as [|c cs IH]; simpl; intros s Hok Hcs Hl.
  - exists s. eauto using wanes_refl.
  - destruct (abort_returns fuel c s) as [s1 H1];
      [exact (ok_child _ Hok)|apply Hcs; by left|done|].
    rewrite H1. simpl.
    pose proof (abort_wanes _ _ _ _ H1) as W1.
    destruct (IH s1) as (s2 & H2 & W2 & Hok2).
    + by eapply abort_tokens_ok.
    + intros c' Hc'. rewrite (wanes_length _ _ W1). apply Hcs. by right.
    + pose proof (wanes_live _ _ W1). lia.
    + exists s2. eauto using wanes_trans.
Qed.

Lemma wanes_record e s : log (record e s) = log s ++ [e].
Proof. reflexivity. Qed.

Lemma tokens_ok_frame s s' :
  controllers s' = controllers s -> closures s' = closures s ->
  tokens_ok s -> tokens_ok s'.
Proof.
  intros Hc Hn [].
  split; unfold listeners_of, signal_aborted, fired in *; rewrite ?Hc, ?Hn; done.
Qed.

Lemma live_frame s s' : controllers s' = controllers s -> live s' = live s.
Proof. unfold live. by intros ->. Qed.

Section OneSubscriber.
(** A store, and in it the subscriber [k] of a user observer [o], made by
    [subscribe] with the controller [c]. *)
Variable o : UserObserver.
Variable others : list SafeSubscriber.
Variable c : nat.

Let k := length others.

Definition holds (closed : bool) (s : State) : Prop :=
  tokens_ok s /\ length (controllers s) = S c /\
  subscribers s = others ++ [mkSafeSubscriber closed (PartialObserver o) c].

Hypothesis Hscripts : scripts_within (S c) o.

Lemma holds_lookup closed s :
  holds closed s ->
  subscribers s !! k = Some (mkSafeSubscriber closed (PartialObserver o) c).
Proof.
  intros (_ & _ & ->). unfold k. rewrite lookup_app_r by lia.
  by rewrite Nat.sub_diag.
Qed.

Lemma holds_wanes closed s s' :
  wanes s s' -> tokens_ok s' -> holds closed s -> holds closed s'.
Proof.
  intros W Hok (_ & Hl & Hs). split; [done|]. split.
  - by rewrite (wanes_length _ _ W).
  - by rewrite (wanes_subscribers _ _ W).
Qed.

Lemma holds_close s : holds false s -> holds true (close k s).
Proof.
  intros (Hok & Hl & Hs). split; [by apply (tokens_ok_frame s)|].
  split; [done|]. simpl. rewrite Hs. unfold k.
  rewrite alter_app_r_alt by lia. by rewrite Nat.sub_diag.
Qed.

Lemma holds_record closed e s : holds closed s -> holds closed (record e s).
Proof. intros (Hok & Hl & Hs). split; [by apply (tokens_ok_frame s)|done]. Qed.

Lemma live_bound closed s : holds closed s -> live s <= S c.
Proof.
  intros (_ & <- & _). unfold live. apply length_filter.
Qed.

(** A call on the closed subscriber changes nothing. *)
Lemma closed_method_noop fuel s n :
  holds true s -> run (S fuel) (method k n) s = Some s.
Proof.
  intros H. pose proof (holds_lookup _ _ H) as Hk.
  destruct n; rewrite run_S; simpl;
    unfold SafeSubscriber_next_body, SafeSubscriber_error_body,
      SafeSubscriber_complete_body; by rewrite Hk.
Qed.

Lemma open_next fuel s v :
  holds false s -> S c < fuel ->
  exists s', run (S fuel) (method k (Next v)) s = Some s' /\
             holds false s' /\
             log s' = log s ++ deliveries o [Next v].
Proof.
  intros H Hf. pose proof (holds_lookup _ _ H) as Hk.
  rewrite run_S. simpl. unfold SafeSubscriber_next_body. rewrite Hk. simpl.
  destruct (uo_next o) as [h|] eqn:Hn.
  - destruct (abort_all_returns fuel (h v) (record (Delivered (uo_tag o) (Next v)) s))
      as (s' & E & W & Hok).
    + apply (tokens_ok_frame s); [done..|apply H].
    + intros x Hx. simpl. destruct H as (_ & Hl & _). rewrite Hl.
      eapply (proj1 Hscripts); eauto.
    + pose proof (live_bound _ _ H). rewrite (live_frame s) by done. lia.
    + exists s'. split; [done|]. split.
      * eapply holds_wanes; eauto using holds_record.
      * by rewrite (wanes_log _ _ W), app_nil_r.
  - exists s. by rewrite !app_nil_r.
Qed.

Lemma open_terminal fuel s n :
  holds false s -> S c < fuel -> is_terminal n = true ->
  exists s', run (S fuel) (method k n) s = Some s' /\
             holds true s' /\ is_aborted c s' /\
             log s' = log s ++ deliveries o [n].
Proof.
  intros H Hf Hn. pose proof (holds_lookup _ _ H) as Hk.
  pose proof (holds_close _ H) as Hc.
  assert (forall s1, holds true s1 ->
            exists s', abort fuel c s1 = Some s' /\ holds true s' /\
                       is_aborted c s' /\ log s' = log s1) as Hab.
  { intros s1 H1. destruct (abort_returns fuel c s1) as [s' E].
    - exact (ok_child _ (proj1 H1)).
    - destruct H1 as (_ & -> & _). lia.
    - pose proof (live_bound _ _ H1). lia.
    - exists s'. pose proof (abort_wanes _ _ _ _ E) as W.
      split; [done|]. split; [|split].
      + eapply holds_wanes; eauto. eapply abort_tokens_ok; eauto. apply H1.
      + by eapply abort_is_aborted.
      + apply W. }
  assert (forall cs e, (forall x, x ∈ cs -> x < S c) ->
            exists s1, abort_all fuel cs (record e (close k s)) = Some s1 /\
                       holds true s1 /\ log s1 = log s ++ [e]) as Hrun.
  { intros cs e Hcs.
    destruct (abort_all_returns fuel cs (record e (close k s)))
      as (s1 & E & W & Hok).
    - apply (holds_record true), Hc.
    - intros x Hx. destruct H as (_ & Hl & _). simpl. rewrite Hl. auto.
    - pose proof (live_bound _ _ H). rewrite (live_frame s) by done. lia.
    - exists s1. split; [done|]. split.
      + eapply holds_wanes; eauto using holds_record.
      + by rewrite (wanes_log _ _ W). }
  destruct n as [v|err|]; [done|..]; rewrite run_S; simpl;
    unfold SafeSubscriber_error_body, SafeSubscriber_complete_body;
    rewrite Hk; simpl.
  - destruct (uo_error o) as [h|] eqn:Hh.
    + destruct (Hrun (h err) (Delivered (uo_tag o) (Error err)))
        as (s1 & E1 & H1 & L1).
      { intros x Hx. eapply (proj1 (proj2 Hscripts)); eauto. }
      rewrite E1. simpl. destruct (Hab s1 H1) as (s' & E & H' & A & L).
      exists s'. rewrite L, L1. done.
    + simpl. destruct (Hab (hostReportError err (close k s)))
        as (s' & E & H' & A & L); [by apply holds_record|].
      exists s'. rewrite L. done.
  - destruct (uo_complete o) as [h|] eqn:Hh.
    + destruct (Hrun h (Delivered (uo_tag o) Complete)) as (s1 & E1 & H1 & L1).
      { intros x Hx. eapply (proj2 (proj2 Hscripts)); eauto. }
      rewrite E1. simpl. destruct (Hab s1 H1) as (s' & E & H' & A & L).
      exists s'. rewrite L, L1. done.
    + simpl. destruct (Hab (close k s)) as (s' & E & H' & A & L); [done|].
      exists s'. rewrite L. by rewrite app_nil_r.
Qed.

Lemma closed_calls fuel s calls :
  holds true s -> run_all (S fuel) (method k <$> calls) s = Some s.
Proof.
  intros H. induction calls as [|n calls IH]; simpl; [done|].
  rewrite closed_method_noop by done. simpl. exact IH.
Qed.

Lemma open_calls fuel s calls :
  holds false s -> S c < fuel ->
  exists s', run_all (S fuel) (method k <$> calls) s = Some s' /\
             holds (existsb is_terminal calls) s' /\
             (existsb is_terminal calls = true -> is_aborted c s') /\
             log s' = log s ++ deliveries o calls.
Proof.
  intros H Hf. revert s H. induction calls as [|n calls IH]; intros s H.
  - exists s. simpl. by rewrite app_nil_r.
  - destruct (is_terminal n) eqn:Hn.
    + destruct (open_terminal fuel s n H Hf Hn) as (s1 & E1 & H1 & A1 & L1).
      exists s1. cbn [fmap list_fmap run_all existsb]. rewrite E1. simpl.
      rewrite closed_calls by done. rewrite Hn. simpl.
      split; [done|]. split; [done|]. split; [done|].
      rewrite L1. destruct n; done.
    + destruct n as [v| |]; try done.
      destruct (open_next fuel s v H Hf) as (s1 & E1 & H1 & L1).
      destruct (IH s1 H1) as (s' & E & H' & A & L).
      exists s'. cbn [fmap list_fmap run_all existsb]. rewrite E1. simpl.
      split; [done|]. split; [done|]. split; [done|].
      rewrite L, L1. simpl. by rewrite app_nil_r, <- app_assoc.
Qed.
End OneSubscriber.

Lemma deliveries_shape o calls :
  exists vs last,
    deliveries o calls = ((fun v => Delivered (uo_tag o) (Next v)) <$> vs) ++ last /\
    length last <= 1 /\
    (forall v, Delivered (uo_tag o) (Next v) ∉ last).
Proof.
  induction calls as [|[v|err|] calls (vs & last & E & Hl & Hn)]; simpl.
  - exists [], []. split; [done|]. split; [simpl; lia|]. intros v. apply not_elem_of_nil.
  - rewrite E. destruct (uo_next o).
    + by exists (v :: vs), last.
    + by exists vs, last.
  - exists []. destruct (uo_error o); eexists; (split; [reflexivity|]);
      (split; [simpl; lia|]); intros v; rewrite list_elem_of_singleton; done.
  - exists []. destruct (uo_complete o); eexists; (split; [reflexivity|]);
      (split; [simpl; lia|]); intros v;
      rewrite ?list_elem_of_singleton; try done. apply not_elem_of_nil.
Qed.

(** In any well-formed store, let [subscribe] make a subscriber for a
    user observer whose handlers return (with or without a parent signal),
    and let its methods then be called in any order [calls].  The calls return; the observer
    has been told [deliveries o calls]: values up to the first [error] or
    [complete], that event, and nothing after it (at most one event that
    is not a value, and it is the last); the subscriber is closed exactly
    if an [error] or [complete] was among the calls, in which case its own
    controller is aborted and any further call of a method leaves the
    store as it is. *)
Theorem SafeSubscriber_delivers_until_closed
    (s0 : State) (o : UserObserver) (signal : option nat) (name : nat)
    (calls : list Notification) :
  tokens_ok s0 ->
  (forall p, signal = Some p -> p < length (controllers s0)) ->
  scripts_within (S (length (controllers s0))) o ->
  let k := length (subscribers s0) in
  let c := length (controllers s0) in
  exists fuel s,
    run_all fuel (subscribe (Producer name) (PartialObserver o) signal
                    :: (method k <$> calls)) s0 = Some s /\
    subscribers s =
      subscribers s0
      ++ [mkSafeSubscriber (existsb is_terminal calls) (PartialObserver o) c] /\
    log s = log s0 ++ deliveries o calls /\
    (exists vs last,
       log s = log s0 ++ ((fun v => Delivered (uo_tag o) (Next v)) <$> vs) ++ last /\
       length last <= 1 /\
       (forall v, Delivered (uo_tag o) (Next v) ∉ last)) /\
    (existsb is_terminal calls = true ->
     is_aborted c s /\ forall n, run fuel (method k n) s = Some s).
Proof.
  intros Hok Hsig Hscripts k c.
  set (fuel := S (S (S c))).
  set (s1 := (new_AbortController s0).2).
  set (s2 := match signal with Some p => chainAbort p c s1 | None => s1 end).
  set (s3 := set_produced (fun l => l ++ [(name, k, c)])
               (new_SafeSubscriber (PartialObserver o) c s2).2).
  assert (tokens_ok s2 /\ length (controllers s2) = S c /\
          subscribers s2 = subscribers s0 /\ log s2 = log s0)
    as (Hok2 & Hl2 & Hs2 & Hlog2).
  { assert (tokens_ok s1) as Hok1 by (by apply tokens_ok_new_AbortController).
    assert (length (controllers s1) = S c) as Hl1.
    { unfold s1. simpl. rewrite length_app. simpl. unfold c. lia. }
    unfold s2. destruct signal as [p|]; [|done].
    split; [|split; [|done]].
    - apply tokens_ok_chainAbort; rewrite ?Hl1; [|lia|done].
      specialize (Hsig p eq_refl). fold c in Hsig. lia.
    - by rewrite chainAbort_length. }
  assert (holds o (subscribers s0) c false s3) as H3.
  { split; [by apply (tokens_ok_frame s2)|]. split; [done|].
    unfold s3. simpl. by rewrite Hs2. }
  assert (run fuel (subscribe (Producer name) (PartialObserver o) signal) s0
          = Some s3) as E0.
  { unfold fuel. rewrite run_S. unfold s3, s2, s1, k.
    destruct signal; reflexivity. }
  destruct (open_calls o (subscribers s0) c Hscripts (S (S c)) s3 calls H3)
    as (s & E & H & A & L); [lia|].
  exists fuel, s. fold k in E. cbn [run_all]. rewrite E0.
  cbn [mbind option_bind].
  split; [exact E|]. split; [apply H|].
  assert (log s = log s0 ++ deliveries o calls) as Hlog.
  { rewrite L. unfold s3. simpl. by rewrite Hlog2. }
  split; [done|]. split.
  - destruct (deliveries_shape o calls) as (vs & last & Ed & Hd).
    exists vs, last. by rewrite Hlog, Ed.
  - intros Ht. split; [by apply A|]. intros n.
    change fuel with (S (S (S c))).
    apply (closed_method_noop o (subscribers s0) c). by rewrite Ht in H.
Qed.

Lemma SafeSubscriber_delivers_until_closed_witness :
  let s0 := (new_AbortController empty).2 in
  let o := mkUserObserver 7 (Some (fun _ => [0])) None (Some []) in
  let calls := [Next (JNumber 1); Complete; Next (JNumber 2); Error JNaN] in
  exists fuel s,
    run_all fuel (subscribe (Producer 0) (PartialObserver o) (Some 0)
                    :: (method 0 <$> calls)) s0 = Some s /\
    subscribers s = [mkSafeSubscriber true (PartialObserver o) 1] /\
    log s = [Delivered 7 (Next (JNumber 1)); Delivered 7 Complete] /\
    (exists vs last,
       log s = ((fun v => Delivered 7 (Next v)) <$> vs) ++ last /\
       length last <= 1 /\
       (forall v, Delivered 7 (Next v) ∉ last)) /\
    (true = true ->
     is_aborted 1 s /\ forall n, run fuel (method 0 n) s = Some s).
Proof.
  apply (SafeSubscriber_delivers_until_closed (new_AbortController empty).2
           (mkUserObserver 7 (Some (fun _ => [0])) None (Some [])) (Some 0) 0
           [Next (JNumber 1); Complete; Next (JNumber 2); Error JNaN]).
  - apply tokens_ok_new_AbortController, tokens_ok_empty.
  - intros p [= <-]. simpl. lia.
  - repeat split; simpl; intros *; intros [= <-]; set_solver by lia.
Defined.

(** ** [SafeSubscriber] with any observer

    The handlers of a [UserObserver] return normally and call nothing but
    [abort()].  Here the observer is arbitrary: a handler may call the
    methods of the subscriber that wraps it (through a Subject or a closure
    of the producer), call [abort()], and end by returning or by throwing.
    [SafeSubscriber] has no [try]: an exception leaves the method at the
    call of the handler and goes on to the caller. *)

(** What a handler does once it is called. *)
Inductive Handler :=
  | Returns
  | Throws (err : value)
  (* subscriber.next(v); ... *)
  | CallsNext (v : value) (rest : Handler)
  (* subscriber.error(err); ... *)
  | CallsError (err : value) (rest : Handler)
  (* subscriber.complete(); ... *)
  | CallsComplete (rest : Handler)
  (* controller.abort(); ... *)
  | Aborts (controller : nat) (rest : Handler).

(** A partial observer: each handler present or not.  A handler that is
    called records the notification in the log under [ao_tag] first. *)
Record AnyObserver := mkAnyObserver {
  ao_tag : nat;
  ao_next : option (value -> Handler);
  ao_error : option (value -> Handler);
  ao_complete : option Handler
}.

(** One [SafeSubscriber] (Observable.ts:379-421): its field [_closed], and
    the store with the controllers and the log. *)
Record Sub := mkSub {
  sub_closed : bool;
  sub_store : State
}.

(** How a call ends: it returns, or an exception leaves it. *)
Inductive Outcome :=
  | Returned (x : Sub)
  | Thrown (err : value) (x : Sub).

Definition after_call (r : Outcome) : Sub :=
  match r with
  | Returned x => x
  | Thrown _ x => x
  end.

Section SafeSubscriberMethods.
(** [this._destination] and [this._abortController]. *)
Variable o : AnyObserver.
Variable c : nat.
(** What remains of the budget, and the methods run with it. *)
Variable fuel : nat.
Variable call : Notification -> Sub -> option Outcome.

(** The body of a handler.  An exception thrown by a method that the
    handler calls leaves the handler too. *)
Fixpoint handle (h : Handler) (x : Sub) : option Outcome :=
  match h with
  | Returns => Some (Returned x)
  | Throws err => Some (Thrown err x)
  | CallsNext v rest =>
      r ← call (Next v) x;
      match r with
      | Returned x => handle rest x
      | Thrown err x => Some (Thrown err x)
      end
  | CallsError err rest =>
      r ← call (Error err) x;
      match r with
      | Returned x => handle rest x
      | Thrown err x => Some (Thrown err x)
      end
  | CallsComplete rest =>
      r ← call Complete x;
      match r with
      | Returned x => handle rest x
      | Thrown err x => Some (Thrown err x)
      end
  | Aborts controller rest =>
      s ← abort fuel controller (sub_store x);
      handle rest (mkSub (sub_closed x) s)
  end.

Definition tell (n : Notification) (x : Sub) : Sub :=
  mkSub (sub_closed x) (record (Delivered (ao_tag o) n) (sub_store x)).

(** [this._abortController.abort()], reached when the handler returned. *)
Definition then_abort (r : Outcome) : option Outcome :=
  match r with
  | Returned x =>
      s ← abort fuel c (sub_store x);
      Some (Returned (mkSub (sub_closed x) s))
  | Thrown err x => Some (Thrown err x)
  end.

(** Observable.ts:389-396 *)
Definition next_method (v : value) (x : Sub) : option Outcome :=
  if sub_closed x then Some (Returned x)
  else
    match ao_next o with
    | Some h => handle (h v) (tell (Next v) x)
    | None => Some (Returned x)
    end.

(** Observable.ts:398-409 *)
Definition error_method (err : value) (x : Sub) : option Outcome :=
  if sub_closed x then Some (Returned x)
  else
    let x := mkSub true (sub_store x) in
    r ← match ao_error o with
        | Some h => handle (h err) (tell (Error err) x)
        | None => Some (Returned (mkSub true (hostReportError err (sub_store x))))
        end;
    then_abort r.

(** Observable.ts:411-420 *)
Definition complete_method (x : Sub) : option Outcome :=
  if sub_closed x then Some (Returned x)
  else
    let x := mkSub true (sub_store x) in
    r ← match ao_complete o with
        | Some h => handle h (tell Complete x)
        | None => Some (Returned x)
        end;
    then_abort r.

Definition method_body (n : Notification) : Sub -> option Outcome :=
  match n with
  | Next v => next_method v
  | Error err => error_method err
  | Complete => complete_method
  end.
End SafeSubscriberMethods.

(** A method of the subscriber, with a budget of nested calls. *)
Fixpoint deliver (o : AnyObserver) (c : nat) (fuel : nat) (n : Notification)
    (x : Sub) : option Outcome :=
  match fuel with
  | 0 => None
  | S fuel => method_body o c fuel (deliver o c fuel) n x
  end.

(** The calls of a producer, one after the other; the producer goes on
    after a call that threw. *)
Fixpoint deliver_all (o : AnyObserver) (c : nat) (fuel : nat)
    (calls : list Notification) (x : Sub) : option Sub :=
  match calls with
  | [] => Some x
  | n :: calls =>
      r ← deliver o c fuel n x; deliver_all o c fuel calls (after_call r)
  end.

(** Observable.ts:57-62: the controller and the subscriber that
    [subscribe(observer, signal)] makes before it runs the producer. *)
Definition subscribed_with (signal : option nat) (s : State) : nat * Sub :=
  let '(abortController, s) := new_AbortController s in
  let s := match signal with
           | Some signal => chainAbort signal abortController s
           | None => s
           end in
  (abortController, mkSub false s).

Lemma deliver_S o c fuel n x :
  deliver o c (S fuel) n x = method_body o c fuel (deliver o c fuel) n x.
Proof. reflexivity. Qed.

Arguments deliver : simpl never.

(** The log of the subscription: values, then at most one entry that is
    not a value, and none while the subscriber is open. *)
Definition tidy (o : AnyObserver) (base : list Entry) (x : Sub) : Prop :=
  exists vs last,
    log (sub_store x)
    = base ++ ((fun v => Delivered (ao_tag o) (Next v)) <$> vs) ++ last /\
    length last <= 1 /\
    (forall v, Delivered (ao_tag o) (Next v) ∉ last) /\
    (sub_closed x = false -> last = []).

Lemma tidy_store o base closed s s' :
  log s' = log s -> tidy o base (mkSub closed s) -> tidy o base (mkSub closed s').
Proof. intros Hl (vs & last & L & H). exists vs, last. simpl in *. by rewrite Hl. Qed.

Lemma tidy_next o base v x :
  sub_closed x = false -> tidy o base x -> tidy o base (tell o (Next v) x).
Proof.
  intros Hc (vs & last & L & Hl & Hn & Ho). rewrite (Ho Hc) in L.
  exists (vs ++ [v]), []. simpl. rewrite L, fmap_app, !app_nil_r. simpl.
  split; [by rewrite <- app_assoc|]. split; [lia|]. split; [|done].
  intros w. apply not_elem_of_nil.
Qed.

Lemma tidy_terminal o base e s s' :
  log s' = log s ++ [e] -> (forall v, e <> Delivered (ao_tag o) (Next v)) ->
  tidy o base (mkSub false s) -> tidy o base (mkSub true s').
Proof.
  intros Hl He (vs & last & L & _ & _ & Ho). simpl in *. rewrite (Ho eq_refl) in L.
  exists vs, [e]. simpl. rewrite Hl, L, app_nil_r.
  split; [by rewrite <- app_assoc|]. split; [lia|]. split; [|done].
  intros v Hin%list_elem_of_singleton. by eapply He.
Qed.

Lemma tidy_close o base s :
  tidy o base (mkSub false s) -> tidy o base (mkSub true s).
Proof.
  intros (vs & last & L & Hl & Hn & Ho). exists vs, last. done.
Qed.

Section Safety.
Variable o : AnyObserver.
Variable c : nat.
Variable base : list Entry.

(** What every call keeps, and what it leaves when the subscriber is
    closed. *)
Definition safe_call (x : Sub) (r : Outcome) : Prop :=
  tidy o base (after_call r) /\
  (sub_closed x = true -> r = Returned x).

Section Step.
Variable fuel : nat.
Hypothesis IH : forall n x r,
  deliver o c fuel n x = Some r -> tidy o base x -> safe_call x r.

Lemma handle_safe h x r :
  handle fuel (deliver o c fuel) h x = Some r -> tidy o base x ->
  tidy o base (after_call r) /\
  (sub_closed x = true -> sub_closed (after_call r) = true).
Proof.
  revert x. induction h as [|err|v rest IHh|err rest IHh|rest IHh|q rest IHh];
    intros x H Ht; simpl in H.
  - by injection H as <-.
  - by injection H as <-.
  - destruct (deliver o c fuel (Next v) x) as [r1|] eqn:E; [|done]. simpl in H.
    destruct (IH _ _ _ E Ht) as [Ht1 Hc1].
    destruct r1 as [x1|e x1].
    + destruct (IHh _ H Ht1) as [Ht' Hc']. split; [done|].
      intros Hx. apply Hc'. by injection (Hc1 Hx) as ->.
    + injection H as <-. split; [done|]. intros Hx. by specialize (Hc1 Hx).
  - destruct (deliver o c fuel (Error err) x) as [r1|] eqn:E; [|done]. simpl in H.
    destruct (IH _ _ _ E Ht) as [Ht1 Hc1].
    destruct r1 as [x1|e x1].
    + destruct (IHh _ H Ht1) as [Ht' Hc']. split; [done|].
      intros Hx. apply Hc'. by injection (Hc1 Hx) as ->.
    + injection H as <-. split; [done|]. intros Hx. by specialize (Hc1 Hx).
  - destruct (deliver o c fuel Complete x) as [r1|] eqn:E; [|done]. simpl in H.
    destruct (IH _ _ _ E Ht) as [Ht1 Hc1].
    destruct r1 as [x1|e x1].
    + destruct (IHh _ H Ht1) as [Ht' Hc']. split; [done|].
      intros Hx. apply Hc'. by injection (Hc1 Hx) as ->.
    + injection H as <-. split; [done|]. intros Hx. by specialize (Hc1 Hx).
  - destruct (abort fuel q (sub_store x)) as [s|] eqn:E; [|done]. simpl in H.
    apply (IHh _ H). destruct x as [cl st]. simpl in *.
    apply (tidy_store o base cl st); [|done].
    apply (abort_wanes _ _ _ _ E).
Qed.

Lemma then_abort_safe r r' :
  then_abort c fuel r = Some r' -> tidy o base (after_call r) ->
  tidy o base (after_call r') /\
  sub_closed (after_call r') = sub_closed (after_call r) /\
  (forall x', r' = Returned x' -> is_aborted c (sub_store x')).
Proof.
  destruct r as [x|e x]; simpl; intros H Ht.
  - destruct (abort fuel c (sub_store x)) as [s|] eqn:E; [|done].
    injection H as <-. simpl. split; [|split; [done|]].
    + destruct x as [cl st]. simpl in *. apply (tidy_store o base cl st); [|done].
      apply (abort_wanes _ _ _ _ E).
    + intros x' [= <-]. simpl. by eapply abort_is_aborted.
  - injection H as <-. done.
Qed.

Lemma method_body_safe n x r :
  method_body o c fuel (deliver o c fuel) n x = Some r -> tidy o base x ->
  safe_call x r /\
  (is_terminal n = true ->
   sub_closed (after_call r) = true /\
   (sub_closed x = false -> forall x', r = Returned x' ->
      is_aborted c (sub_store x'))).
Proof.
  intros H Ht. destruct x as [[|] s].
  { destruct n; simpl in H; injection H as <-; done. }
  destruct n as [v|err|]; simpl in H;
    unfold next_method, error_method, complete_method in H; simpl in H.
  - destruct (ao_next o) as [h|]; [|by injection H as <-].
    destruct (handle_safe _ _ _ H) as [Ht' _]; [by apply tidy_next|]. done.
  - destruct (match ao_error o with Some _ => _ | None => _ end) as [r1|] eqn:E;
      [|done]. simpl in H.
    assert (tidy o base (after_call r1) /\ sub_closed (after_call r1) = true)
      as [Ht1 Hc1].
    { destruct (ao_error o) as [h|].
      - destruct (handle_safe _ _ _ E) as [Ht1 Hc1]; [|by auto].
        apply (tidy_terminal o base (Delivered (ao_tag o) (Error err)) s); done.
      - injection E as <-. simpl. split; [|done].
        apply (tidy_terminal o base (Reported err) s); done. }
    destruct (then_abort_safe _ _ H Ht1) as (Ht' & Hc' & Ha).
    split; [done|]. intros _. split; [congruence|]. intros _. exact Ha.
  - destruct (match ao_complete o with Some _ => _ | None => _ end) as [r1|] eqn:E;
      [|done]. simpl in H.
    assert (tidy o base (after_call r1) /\ sub_closed (after_call r1) = true)
      as [Ht1 Hc1].
    { destruct (ao_complete o) as [h|].
      - destruct (handle_safe _ _ _ E) as [Ht1 Hc1]; [|by auto].
        apply (tidy_terminal o base (Delivered (ao_tag o) Complete) s); done.
      - injection E as <-. simpl. split; [|done]. by apply tidy_close. }
    destruct (then_abort_safe _ _ H Ht1) as (Ht' & Hc' & Ha).
    split; [done|]. intros _. split; [congruence|]. intros _. exact Ha.
Qed.
End Step.

Lemma deliver_safe fuel n x r :
  deliver o c fuel n x = Some r -> tidy o base x ->
  safe_call x r /\
  (is_terminal n = true ->
   sub_closed (after_call r) = true /\
   (sub_closed x = false -> forall x', r = Returned x' ->
      is_aborted c (sub_store x'))).
Proof.
  revert n x r. induction fuel as [|fuel IH]; intros n x r H Ht; [done|].
  rewrite deliver_S in H. eapply method_body_safe; eauto.
  intros n' x' r' H' Ht'. by apply (IH n' x' r').
Qed.

Lemma deliver_all_safe fuel calls x x' :
  deliver_all o c fuel calls x = Some x' -> tidy o base x ->
  tidy o base x' /\
  (sub_closed x = true -> x' = x) /\
  (existsb is_terminal calls = true -> sub_closed x' = true).
Proof.
  revert x. induction calls as [|n calls IH]; simpl; intros x H Ht.
  - injection H as <-. done.
  - destruct (deliver o c fuel n x) as [r|] eqn:E; [|done]. simpl in H.
    destruct (deliver_safe _ _ _ _ E Ht) as [[Ht1 Hc1] Hn].
    destruct (IH _ H Ht1) as (Ht' & Hc' & He'). split; [done|]. split.
    + intros Hx. rewrite (Hc1 Hx) in *. simpl in *. auto.
    + intros He. apply orb_prop in He as [He|He]; [|auto].
      destruct (Hn He) as [Hcl _]. by rewrite (Hc' Hcl).
Qed.
End Safety.

Lemma closed_deliver o c fuel n x :
  sub_closed x = true -> deliver o c (S fuel) n x = Some (Returned x).
Proof.
  intros H. rewrite deliver_S.
  destruct n; simpl; unfold next_method, error_method, complete_method;
    by rewrite H.
Qed.

(** *** The calls return *)

(** The controllers that a handler aborts exist. *)
Fixpoint within (n : nat) (h : Handler) : Prop :=
  match h with
  | Returns | Throws _ => True
  | CallsNext _ rest | CallsError _ rest | CallsComplete rest => within n rest
  | Aborts controller rest => controller < n /\ within n rest
  end.

(** The handler does not call [next]. *)
Fixpoint calls_no_next (h : Handler) : Prop :=
  match h with
  | Returns | Throws _ => True
  | CallsNext _ _ => False
  | CallsError _ rest | CallsComplete rest | Aborts _ rest => calls_no_next rest
  end.

(** An observer whose handlers abort controllers that exist, and whose
    [next] handler does not call [next] again (that recursion would not
    end). *)
Definition finite (n : nat) (o : AnyObserver) : Prop :=
  (forall h v, ao_next o = Some h -> within n (h v) /\ calls_no_next (h v)) /\
  (forall h err, ao_error o = Some h -> within n (h err)) /\
  (forall h, ao_complete o = Some h -> within n h).

Section Returns.
Variable o : AnyObserver.
Variable c : nat.
Hypothesis Hfinite : finite (S c) o.

Definition sound (x : Sub) : Prop :=
  tokens_ok (sub_store x) /\ length (controllers (sub_store x)) = S c.

Lemma sound_frame cl cl' s s' :
  controllers s' = controllers s -> closures s' = closures s ->
  sound (mkSub cl s) -> sound (mkSub cl' s').
Proof.
  intros Hc Hn [Hok Hl]. simpl in *. split; simpl; [|by rewrite Hc].
  by apply (tokens_ok_frame s).
Qed.

Lemma abort_sound fuel q cl s :
  sound (mkSub cl s) -> q < S c -> S c < fuel ->
  exists s', abort fuel q s = Some s' /\ sound (mkSub cl s').
Proof.
  intros [Hok Hl] Hq Hf. simpl in *.
  destruct (abort_returns fuel q s) as [s' E].
  - exact (ok_child _ Hok).
  - lia.
  - assert (live s <= length (controllers s)) by apply length_filter. lia.
  - exists s'. split; [done|]. split; simpl.
    + by eapply abort_tokens_ok.
    + by rewrite (wanes_length _ _ (abort_wanes _ _ _ _ E)).
Qed.

Lemma handle_closed fuel h x :
  within (S c) h -> sound x -> sub_closed x = true -> S c <= fuel ->
  exists r, handle (S fuel) (deliver o c (S fuel)) h x = Some r /\
            sound (after_call r) /\ sub_closed (after_call r) = true.
Proof.
  intros Hw Hs Hc Hf. revert x Hs Hc.
  induction h as [|err|v rest IHh|err rest IHh|rest IHh|q rest IHh];
    intros x Hs Hc; simpl in *.
  - by eexists.
  - by eexists.
  - rewrite closed_deliver by done. simpl. by apply IHh.
  - rewrite closed_deliver by done. simpl. by apply IHh.
  - rewrite closed_deliver by done. simpl. by apply IHh.
  - destruct Hw as [Hq Hw]. destruct x as [cl s]. simpl.
    destruct (abort_sound (S fuel) q cl s Hs Hq) as (s' & -> & Hs'); [lia|].
    simpl. by apply IHh.
Qed.

Lemma then_abort_returns fuel r :
  sound (after_call r) -> S c <= fuel ->
  exists r', then_abort c (S fuel) r = Some r' /\ sound (after_call r') /\
             sub_closed (after_call r') = sub_closed (after_call r).
Proof.
  intros Hs Hf. destruct r as [[cl s]|e x]; simpl in *; [|by eexists].
  destruct (abort_sound (S fuel) c cl s Hs) as (s' & -> & Hs'); [lia..|].
  by eexists.
Qed.

Lemma terminal_returns fuel n x :
  is_terminal n = true -> sound x -> S c <= fuel ->
  exists r, deliver o c (S (S fuel)) n x = Some r /\
            sound (after_call r) /\ sub_closed (after_call r) = true.
Proof.
  intros Hn Hs Hf. destruct (sub_closed x) eqn:Hc.
  { rewrite closed_deliver by done. by eexists. }
  destruct x as [cl s]. simpl in Hc. subst cl. rewrite deliver_S.
  destruct n as [v|err|]; [done|..]; simpl;
    unfold error_method, complete_method; simpl.
  - assert (exists r1,
              match ao_error o with
              | Some h => handle (S fuel) (deliver o c (S fuel)) (h err)
                            (tell o (Error err) (mkSub true s))
              | None => Some (Returned (mkSub true (hostReportError err s)))
              end = Some r1 /\
              sound (after_call r1) /\ sub_closed (after_call r1) = true)
      as (r1 & -> & Hs1 & Hc1).
    { destruct (ao_error o) as [h|] eqn:Hh.
      - apply handle_closed; [by apply (proj1 (proj2 Hfinite))| |done..].
        by apply (sound_frame false true s).
      - eexists. split; [done|]. split; [|done].
        by apply (sound_frame false true s). }
    simpl. destruct (then_abort_returns fuel r1 Hs1 Hf) as (r' & -> & Hs' & Hc').
    exists r'. split; [done|]. split; [done|congruence].
  - assert (exists r1,
              match ao_complete o with
              | Some h => handle (S fuel) (deliver o c (S fuel)) h
                            (tell o Complete (mkSub true s))
              | None => Some (Returned (mkSub true s))
              end = Some r1 /\
              sound (after_call r1) /\ sub_closed (after_call r1) = true)
      as (r1 & -> & Hs1 & Hc1).
    { destruct (ao_complete o) as [h|] eqn:Hh.
      - apply handle_closed; [by apply (proj2 (proj2 Hfinite))| |done..].
        by apply (sound_frame false true s).
      - eexists. split; [done|]. split; [|done].
        by apply (sound_frame false true s). }
    simpl. destruct (then_abort_returns fuel r1 Hs1 Hf) as (r' & -> & Hs' & Hc').
    exists r'. split; [done|]. split; [done|congruence].
Qed.

Lemma handle_returns fuel h x :
  within (S c) h -> calls_no_next h -> sound x -> S c <= fuel ->
  exists r, handle (S (S fuel)) (deliver o c (S (S fuel))) h x = Some r /\
            sound (after_call r).
Proof.
  intros Hw Hn Hs Hf. revert x Hs.
  induction h as [|err|v rest IHh|err rest IHh|rest IHh|q rest IHh];
    intros x Hs; simpl in *.
  - by eexists.
  - by eexists.
  - done.
  - destruct (terminal_returns fuel (Error err) x) as (r1 & -> & Hs1 & _);
      [done..|].
    simpl. destruct r1 as [x1|e x1]; [by apply IHh|by eexists].
  - destruct (terminal_returns fuel Complete x) as (r1 & -> & Hs1 & _);
      [done..|].
    simpl. destruct r1 as [x1|e x1]; [by apply IHh|by eexists].
  - destruct Hw as [Hq Hw]. destruct x as [cl s]. simpl.
    destruct (abort_sound (S (S fuel)) q cl s Hs Hq) as (s' & -> & Hs'); [lia|].
    simpl. by apply IHh.
Qed.

Lemma deliver_returns fuel n x :
  sound x -> S c <= fuel ->
  exists r, deliver o c (S (S (S fuel))) n x = Some r /\ sound (after_call r).
Proof.
  intros Hs Hf. destruct (is_terminal n) eqn:Hn.
  { destruct (terminal_returns (S fuel) n x) as (r & E & Hs' & _); [done..|lia|].
    by exists r. }
  destruct n as [v| |]; try done.
  destruct (sub_closed x) eqn:Hc.
  { rewrite closed_deliver by done. by eexists. }
  rewrite deliver_S. simpl. unfold next_method. rewrite Hc.
  destruct (ao_next o) as [h|] eqn:Hh; [|by eexists].
  destruct (proj1 Hfinite h v Hh) as [Hw Hnn].
  apply handle_returns; try done.
  destruct x as [cl s]. by apply (sound_frame cl cl s).
Qed.

Lemma deliver_all_returns fuel calls x :
  sound x -> S c <= fuel ->
  is_Some (deliver_all o c (S (S (S fuel))) calls x).
Proof.
  intros Hs Hf. revert x Hs. induction calls as [|n calls IH]; intros x Hs; simpl.
  - by eexists.
  - destruct (deliver_returns fuel n x Hs Hf) as (r & -> & Hs'). simpl.
    by apply IH.
Qed.
End Returns.




(** *** The two readings of [SafeSubscriber] agree

    A [UserObserver] is an [AnyObserver] whose handlers call [abort()]
    and return.  On such an observer the methods above do what the methods
    of the subscribers in the store do. *)

Definition aborting (cs : list nat) : Handler := foldr Aborts Returns cs.

Definition as_AnyObserver (o : UserObserver) : AnyObserver :=
  mkAnyObserver (uo_tag o)
    ((fun h v => aborting (h v)) <$> uo_next o)
    ((fun h err => aborting (h err)) <$> uo_error o)
    (aborting <$> uo_complete o).

Lemma dispatchEvent_set_subscribers fuel f x rest s :
  (forall c s, abort fuel c (set_subscribers f s)
               = set_subscribers f <$> abort fuel c s) ->
  dispatchEvent (abort fuel) x rest (set_subscribers f s)
  = set_subscribers f <$> dispatchEvent (abort fuel) x rest s.
Proof.
  intros IH. revert s. induction rest as [|[g l] rest IHr]; intros s; simpl; [done|].
  change (registered x g (set_subscribers f s)) with (registered x g s).
  destruct (registered x g s); [|apply IHr].
  destruct l as [y|q h|j b]; simpl.
  - rewrite IH. destruct (abort fuel y s) as [s1|]; simpl; [apply IHr|done].
  - apply (IHr (removeEventListener q h s)).
  - apply (IHr (Subject_handler j b s)).
Qed.

Lemma abort_set_subscribers fuel f c s :
  abort fuel c (set_subscribers f s) = set_subscribers f <$> abort fuel c s.
Proof.
  revert c s. induction fuel as [|fuel IH]; intros c s; [done|].
  unfold abort; fold abort. simpl.
  destruct (controllers s !! c) as [a|]; simpl; [|done].
  destruct (ac_aborted a); [done|].
  apply (dispatchEvent_set_subscribers fuel f c (ac_listeners a)
           (set_controllers _ s)), IH.
Qed.

Lemma abort_all_set_subscribers fuel f cs s :
  abort_all fuel cs (set_subscribers f s)
  = set_subscribers f <$> abort_all fuel cs s.
Proof.
  revert s. induction cs as [|c cs IH]; intros s; simpl; [done|].
  rewrite abort_set_subscribers.
  destruct (abort fuel c s) as [s1|]; simpl; [apply IH|done].
Qed.

Lemma handle_aborting fuel call cs x :
  handle fuel call (aborting cs) x
  = (fun s => Returned (mkSub (sub_closed x) s))
    <$> abort_all fuel cs (sub_store x).
Proof.
  revert x. induction cs as [|q cs IH]; intros [cl s]; simpl; [done|].
  destruct (abort fuel q s) as [s1|]; simpl; [|done]. apply (IH (mkSub cl s1)).
Qed.

(** The store in which subscriber [k] has the flag of [x]. *)
Definition stored (k : nat) (x : Sub) : State :=
  if sub_closed x then close k (sub_store x) else sub_store x.

Lemma SafeSubscriber_agrees (o : UserObserver) (k c fuel : nat)
    (n : Notification) (s : State) :
  subscribers s !! k = Some (mkSafeSubscriber false (PartialObserver o) c) ->
  run (S fuel) (method k n) s
  = r ← deliver (as_AnyObserver o) c (S fuel) n (mkSub false s);
    Some (stored k (after_call r)).
Proof.
  intros Hk. rewrite run_S, deliver_S.
  destruct n as [v|err|]; simpl;
    unfold SafeSubscriber_next_body, SafeSubscriber_error_body,
      SafeSubscriber_complete_body, next_method, error_method, complete_method;
    rewrite Hk; simpl.
  - destruct (uo_next o) as [h|]; simpl; [|done].
    rewrite handle_aborting by done. simpl.
    by destruct (abort_all fuel (h v) _).
  - destruct (uo_error o) as [h|]; simpl.
    + rewrite handle_aborting by done. simpl.
      change (record (Delivered (uo_tag o) (Error err)) (close k s))
        with (close k (record (Delivered (uo_tag o) (Error err)) s)).
      unfold close at 1. rewrite abort_all_set_subscribers.
      destruct (abort_all fuel (h err) _) as [s1|]; simpl; [|done].
      fold (close k s1). unfold close. rewrite abort_set_subscribers.
      by destruct (abort fuel c s1).
    + change (hostReportError err (close k s))
        with (close k (hostReportError err s)).
      unfold close. rewrite abort_set_subscribers.
      by destruct (abort fuel c _).
  - destruct (uo_complete o) as [h|]; simpl.
    + rewrite handle_aborting by done. simpl.
      change (record (Delivered (uo_tag o) Complete) (close k s))
        with (close k (record (Delivered (uo_tag o) Complete) s)).
      unfold close at 1. rewrite abort_all_set_subscribers.
      destruct (abort_all fuel h _) as [s1|]; simpl; [|done].
      fold (close k s1). unfold close. rewrite abort_set_subscribers.
      by destruct (abort fuel c s1).
    + unfold close. rewrite abort_set_subscribers.
      by destruct (abort fuel c _).
Qed.

(** ** [mergeMap] *)

(** The subscribers that a user producer has been handed. *)
Definition handed (s : State) : list nat := (fun x => x.1.2) <$> produced s.

(** A producer calls a method of a subscriber it holds; a call addressed
    to a subscriber that no producer holds does not take place. *)
Definition push (fuel : nat) (e : nat * Notification) (s : State) : option State :=
  if decide (e.1 ∈ handed s) then run fuel (method e.1 e.2) s else Some s.

Fixpoint pushes (fuel : nat) (events : list (nat * Notification)) (s : State)
    : option State :=
  match events with
  | [] => Some s
  | e :: events => s' ← push fuel e s; pushes fuel events s'
  end.

Definition is_closed (k : nat) (s : State) : option bool :=
  _closed <$> subscribers s !! k.

(** The inner subscriptions (subscribers 2, 3, ...) that are not closed. *)
Definition open_inners (s : State) : nat :=
  length (filter (fun b => _closed b = false) (drop 2 (subscribers s))).

Lemma is_closed_close k j s :
  is_closed j (close k s) =
  if decide (k = j) then (fun _ => true) <$> is_closed j s else is_closed j s.
Proof.
  unfold is_closed, close; simpl. case_decide as E.
  - subst. rewrite list_lookup_alter_eq. by destruct (subscribers s !! j).
  - by rewrite list_lookup_alter_ne.
Qed.

Lemma count_open_close (l : list SafeSubscriber) k b :
  l !! k = Some b -> _closed b = false ->
  S (length (filter (fun b => _closed b = false)
       (alter (fun b => mkSafeSubscriber true (_destination b) (_abortController b)) k l)))
  = length (filter (fun b => _closed b = false) l).
Proof.
  revert k. induction l as [|a l IH]; intros [|k] Hk Hb; try done;
    simpl in *; rewrite !filter_cons; simpl.
  - simplify_eq. rewrite Hb. repeat case_decide; done.
  - case_decide; simpl; rewrite <- (IH k); done.
Qed.

Lemma open_inners_close k b s :
  2 <= k -> subscribers s !! k = Some b -> _closed b = false ->
  S (open_inners (close k s)) = open_inners s.
Proof.
  intros Hk Hb Hc. unfold open_inners, close; simpl.
  destruct k as [|[|k]]; try lia.
  destruct (subscribers s) as [|b0 [|b1 l]]; try done. simpl in *.
  by eapply count_open_close.
Qed.

Lemma open_inners_close_outer k s :
  k < 2 -> open_inners (close k s) = open_inners s.
Proof.
  intros Hk. unfold open_inners, close; simpl.
  destruct (subscribers s) as [|b0 [|b1 l]]; destruct k as [|[|k]];
    try done; lia.
Qed.

Lemma open_inners_zero k b s :
  open_inners s = 0 -> 2 <= k -> subscribers s !! k = Some b ->
  _closed b = true.
Proof.
  unfold open_inners. intros H0 Hk Hb.
  destruct (_closed b) eqn:Hc; [done|]. exfalso.
  assert (b ∈ filter (fun b => _closed b = false) (drop 2 (subscribers s))) as Hin.
  { apply list_elem_of_filter. split; [done|].
    apply list_elem_of_lookup. exists (k - 2). rewrite lookup_drop.
    by replace (2 + (k - 2)) with k by lia. }
  destruct (filter _ _); [by apply elem_of_nil in Hin|done].
Qed.

(** Two stores that differ in nothing but the listeners and flags of
    their controllers. *)
Record same (s s' : State) : Prop := mkSame {
  same_subscribers : subscribers s' = subscribers s;
  same_variables : variables s' = variables s;
  same_produced : produced s' = produced s;
  same_log : log s' = log s;
  same_controllers : length (controllers s') = length (controllers s)
}.

Lemma same_refl s : same s s.
Proof. by split. Qed.

Lemma same_trans s1 s2 s3 : same s1 s2 -> same s2 s3 -> same s1 s3.
Proof. intros [] []. split; congruence. Qed.

Lemma wanes_same s s' : wanes s s' -> same s s'.
Proof. intros []. by split. Qed.

Lemma same_is_closed k s s' : same s s' -> is_closed k s' = is_closed k s.
Proof. intros []. unfold is_closed. congruence. Qed.

Lemma same_open_inners s s' : same s s' -> open_inners s' = open_inners s.
Proof. intros []. unfold open_inners. congruence. Qed.

Section MergeMap.
Variable callback : value -> nat -> Result Observable.
Variable tag : nat.

(** The inner Observables are producers of the user, or synchronous:
    [Observable.from] of an iterable. *)
Hypothesis callback_returns_sources :
  forall v i o, callback v i = Return o ->
    (exists name, o = Producer name) \/ (exists ws, o = FromIterable ws).

(** The shape of the store of one subscription to
    [source.mergeMap(callback)]: subscriber 0 is the downstream one,
    subscriber 1 the one handed to the outer source, the others belong to
    the inner subscriptions; the variables of the operator are in cell 0. *)
Record shape (s : State) : Prop := mkShape {
  sh_controllers : 2 <= length (controllers s);
  sh_down : exists closed,
      subscribers s !! 0 = Some (mkSafeSubscriber closed (logger tag) 0);
  sh_outer : exists closed,
      subscribers s !! 1 =
      Some (mkSafeSubscriber closed (MergeMapOuter callback 0 0 0) 1);
  sh_inner : forall k b, 2 <= k -> subscribers s !! k = Some b ->
      _destination b = MergeMapInner 0 0 /\
      _abortController b < length (controllers s);
  sh_vars : exists index active outerComplete,
      variables s !! 0 = Some (MergeMapVars index active outerComplete);
  sh_handed : forall k, k ∈ handed s -> 1 <= k < length (subscribers s);
  sh_outer_handed : 1 ∈ handed s
}.

Definition merging (s : State) : Prop := tokens_ok s /\ shape s.

Definition nexts (vs : list value) : list Entry :=
  (fun v => Delivered tag (Next v)) <$> vs.

(** Where the subscription stands. *)
Inductive phase (s : State) : Prop :=
  | running vs index active outerComplete :
      log s = nexts vs ->
      is_closed 0 s = Some false ->
      variables s !! 0 = Some (MergeMapVars index active outerComplete) ->
      is_closed 1 s = Some outerComplete ->
      active = Z.of_nat (open_inners s) ->
      ~ (outerComplete = true /\ active = 0%Z) ->
      phase s
  | completed vs index :
      log s = nexts vs ++ [Delivered tag Complete] ->
      is_closed 0 s = Some true ->
      variables s !! 0 = Some (MergeMapVars index 0%Z true) ->
      is_closed 1 s = Some true ->
      open_inners s = 0 ->
      phase s
  | errored vs err :
      log s = nexts vs ++ [Delivered tag (Error err)] ->
      is_closed 0 s = Some true ->
      phase s.

Lemma shape_same s s' : same s s' -> shape s -> shape s'.
Proof.
  intros [Hs Hv Hp Hl Hc] []. split.
  - by rewrite Hc.
  - by setoid_rewrite Hs.
  - by setoid_rewrite Hs.
  - intros k b. rewrite Hs, Hc. apply sh_inner0.
  - by setoid_rewrite Hv.
  - intros k. unfold handed. rewrite Hp, Hs. apply sh_handed0.
  - unfold handed. by rewrite Hp.
Qed.

Lemma phase_same s s' : same s s' -> phase s -> phase s'.
Proof.
  intros E. pose proof (same_is_closed 0 _ _ E) as H0.
  pose proof (same_is_closed 1 _ _ E) as H1.
  pose proof (same_open_inners _ _ E) as Ho. destruct E as [Hs Hv Hp Hl Hc].
  intros [vs i a oc|vs i|vs err].
  - eapply (running _ vs i a oc); congruence.
  - eapply (completed _ vs i); congruence.
  - eapply (errored _ vs err); congruence.
Qed.

Lemma shape_record e s : shape s -> shape (record e s).
Proof. by intros []. Qed.

Lemma shape_set_Vars index active outerComplete s : shape s ->
  shape (set_Vars 0 (MergeMapVars index active outerComplete) s).
Proof.
  intros []. split; try done.
  destruct sh_vars0 as (i & a & oc & Hv).
  exists index, active, outerComplete. simpl.
  apply list_lookup_insert_eq. by eapply lookup_lt_Some.
Qed.

Lemma shape_close k s : shape s -> shape (close k s).
Proof.
  intros []. split; try done; simpl.
  - destruct sh_down0 as [closed H]. destruct (decide (k = 0)) as [->|E].
    + rewrite list_lookup_alter_eq, H. by eexists.
    + rewrite list_lookup_alter_ne by done. by eexists.
  - destruct sh_outer0 as [closed H]. destruct (decide (k = 1)) as [->|E].
    + rewrite list_lookup_alter_eq, H. by eexists.
    + rewrite list_lookup_alter_ne by done. by eexists.
  - intros j b Hj. destruct (decide (k = j)) as [->|E].
    + rewrite list_lookup_alter_eq.
      destruct (subscribers s !! j) as [b'|] eqn:Hb; [|done].
      intros [= <-]. simpl. by eapply sh_inner0.
    + rewrite list_lookup_alter_ne by done. by apply sh_inner0.
  - intros j Hj. rewrite length_alter. by apply sh_handed0.
Qed.

(** The store after a call of a method of the downstream subscriber, up
    to the state of the controllers. *)
Definition after_downstream (n : Notification) (s : State) : State :=
  match is_closed 0 s with
  | Some false =>
      record (Delivered tag n) (if is_terminal n then close 0 s else s)
  | _ => s
  end.

Lemma shape_after_downstream n s : shape s -> shape (after_downstream n s).
Proof.
  intros H. unfold after_downstream.
  destruct (is_closed 0 s) as [[|]|]; try done.
  apply shape_record. destruct (is_terminal n); [by apply shape_close|done].
Qed.

Lemma tokens_ok_after_downstream n s :
  tokens_ok s -> tokens_ok (after_downstream n s).
Proof.
  intros H. apply (tokens_ok_frame s); [| |done]; unfold after_downstream;
    destruct (is_closed 0 s) as [[|]|]; try done; by destruct (is_terminal n).
Qed.

Lemma live_le_length s : live s <= length (controllers s).
Proof. apply length_filter. Qed.

Lemma downstream_method fuel n s :
  merging s -> length (controllers s) < fuel ->
  exists s', run (S fuel) (method 0 n) s = Some s' /\
             same (after_downstream n s) s' /\ tokens_ok s'.
Proof.
  intros [Hok Hsh] Hf. destruct (sh_down _ Hsh) as [closed H0].
  assert (is_closed 0 s = Some closed) as Hc0
    by (unfold is_closed; by rewrite H0).
  unfold after_downstream. rewrite Hc0.
  destruct closed.
  { exists s. split; [|split; [apply same_refl|done]].
    destruct n; rewrite run_S; simpl;
      unfold SafeSubscriber_next_body, SafeSubscriber_error_body,
        SafeSubscriber_complete_body; by rewrite H0. }
  assert (forall e, exists s', abort fuel 0 (record e (close 0 s)) = Some s' /\
                    same (record e (close 0 s)) s' /\ tokens_ok s') as Hab.
  { intros e. destruct (abort_returns fuel 0 (record e (close 0 s))) as [s' E].
    - exact (ok_child _ Hok).
    - pose proof (sh_controllers _ Hsh). simpl. lia.
    - rewrite (live_frame s) by done. pose proof (live_le_length s). lia.
    - exists s'. split; [done|]. split.
      + by eapply wanes_same, abort_wanes.
      + eapply abort_tokens_ok; [done|]. by apply (tokens_ok_frame s). }
  destruct n as [v|err|]; rewrite run_S; simpl;
    unfold SafeSubscriber_next_body, SafeSubscriber_error_body,
      SafeSubscriber_complete_body; rewrite H0; simpl.
  - eexists. split; [reflexivity|]. split; [apply same_refl|].
    by apply (tokens_ok_frame s).
  - apply Hab.
  - apply Hab.
Qed.

Lemma abort_same fuel c s :
  tokens_ok s -> c < length (controllers s) -> length (controllers s) < fuel ->
  exists s', abort fuel c s = Some s' /\ same s s' /\ tokens_ok s'.
Proof.
  intros Hok Hc Hf. destruct (abort_returns fuel c s) as [s' E].
  - exact (ok_child _ Hok).
  - done.
  - pose proof (live_le_length s). lia.
  - exists s'. split; [done|]. split.
    + by eapply wanes_same, abort_wanes.
    + by eapply abort_tokens_ok.
Qed.

(** The store after a call of a method of the subscriber [k] of an inner
    subscription, up to the state of the controllers. *)
Definition after_inner (k : nat) (n : Notification) (s : State) : State :=
  match is_closed k s, variables s !! 0 with
  | Some false, Some (MergeMapVars index active outerComplete) =>
      match n with
      | Next v => after_downstream (Next v) s
      | Error err => after_downstream (Error err) (close k s)
      | Complete =>
          let active := (active - 1)%Z in
          let s := set_Vars 0 (MergeMapVars index active outerComplete)
                     (close k s) in
          if outerComplete && bool_decide (active = 0%Z)
          then after_downstream Complete s
          else s
      end
  | _, _ => s
  end.

Lemma merging_close k s : merging s -> merging (close k s).
Proof.
  intros [Hok Hsh]. split; [by apply (tokens_ok_frame s)|by apply shape_close].
Qed.

Lemma merging_set_Vars index active outerComplete s :
  merging s -> merging (set_Vars 0 (MergeMapVars index active outerComplete) s).
Proof.
  intros [Hok Hsh].
  split; [by apply (tokens_ok_frame s)|by apply shape_set_Vars].
Qed.

Lemma inner_method fuel k n s :
  merging s -> 2 <= k -> k < length (subscribers s) ->
  length (controllers s) < fuel ->
  exists s', run (S (S fuel)) (method k n) s = Some s' /\
             same (after_inner k n s) s' /\ tokens_ok s'.
Proof.
  intros Hm Hk Hlt Hf. pose proof Hm as [Hok Hsh].
  destruct (lookup_lt_is_Some_2 _ _ Hlt) as [[closed dest ctrl] Hb].
  destruct (sh_inner _ Hsh _ _ Hk Hb) as [Hd Hc]. simpl in Hd, Hc. subst dest.
  destruct (sh_vars _ Hsh) as (index & active & oc & Hv).
  assert (is_closed k s = Some closed) as Hck
    by (unfold is_closed; by rewrite Hb).
  unfold after_inner. rewrite Hck, Hv.
  destruct closed.
  { exists s. split; [|split; [apply same_refl|done]].
    destruct n; rewrite run_S; simpl;
      unfold SafeSubscriber_next_body, SafeSubscriber_error_body,
        SafeSubscriber_complete_body; by rewrite Hb. }
  assert (forall s1, tokens_ok s1 ->
            length (controllers s1) = length (controllers s) ->
            exists s', abort (S fuel) ctrl s1 = Some s' /\ same s1 s' /\
                       tokens_ok s') as Hab.
  { intros s1 Hok1 Hl1. apply abort_same; [done|lia|lia]. }
  destruct n as [v|err|]; rewrite run_S; simpl;
    unfold SafeSubscriber_next_body, SafeSubscriber_error_body,
      SafeSubscriber_complete_body; rewrite Hb; simpl.
  - apply (downstream_method fuel (Next v)); done.
  - destruct (downstream_method fuel (Error err) (close k s))
      as (s1 & E1 & S1 & Hok1); [by apply merging_close|done|].
    change (method 0 (Error err)) with (SafeSubscriber_error 0 err) in E1.
    rewrite E1. simpl.
    destruct (Hab s1 Hok1) as (s' & E & S' & Hok').
    { rewrite (same_controllers _ _ S1). unfold after_downstream.
      destruct (is_closed 0 (close k s)) as [[|]|]; simpl; by rewrite ?length_alter. }
    exists s'. eauto using same_trans.
  - change (variables (close k s)) with (variables s). rewrite Hv. simpl.
    set (s1 := set_Vars 0 (MergeMapVars index (active - 1) oc) (close k s)).
    assert (merging s1) as Hm1 by (by apply merging_set_Vars, merging_close).
    destruct (oc && bool_decide ((active - 1)%Z = 0%Z)).
    + destruct (downstream_method fuel Complete s1) as (s2 & E2 & S2 & Hok2);
        [done|done|].
      change (method 0 Complete) with (SafeSubscriber_complete 0) in E2.
      rewrite E2. simpl.
      destruct (Hab s2 Hok2) as (s' & E & S' & Hok').
      { rewrite (same_controllers _ _ S2). unfold after_downstream.
        destruct (is_closed 0 s1) as [[|]|]; simpl; by rewrite ?length_alter. }
      exists s'. eauto using same_trans.
    + simpl. destruct (Hab s1 (proj1 Hm1)) as (s' & E & S' & Hok'); [done|].
      exists s'. eauto.
Qed.

(** The store after [subscribe] of a producer from the [next] handler of
    the outer subscription. *)
Definition after_subscribe (name : nat) (s : State) : State :=
  let c := length (controllers s) in
  let k := length (subscribers s) in
  set_produced (fun l => l ++ [(name, k, c)])
    (new_SafeSubscriber (MergeMapInner 0 0) c
       (chainAbort 0 c (new_AbortController s).2)).2.

(** The store after [subscribe] of a synchronous inner from the [next]
    handler of the outer subscription: the loop of [from] passes the
    values on, and the inner completes. *)
Definition after_subscription (s : State) : State :=
  let c := length (controllers s) in
  (new_SafeSubscriber (MergeMapInner 0 0) c
     (chainAbort 0 c (new_AbortController s).2)).2.

Definition after_values (ws : list value) (s : State) : State :=
  foldl (fun s w => after_downstream (Next w) s) s ws.

Definition after_iterable (ws : list value) (s : State) : State :=
  after_inner (length (subscribers s)) Complete
    (after_values ws (after_subscription s)).

(** The store after a call of a method of the subscriber of the outer
    subscription, up to the state of the controllers. *)
Definition after_outer (n : Notification) (s : State) : State :=
  match is_closed 1 s, variables s !! 0 with
  | Some false, Some (MergeMapVars index active outerComplete) =>
      match n with
      | Next v =>
          match callback v index with
          | Throw err =>
              after_downstream (Error err)
                (set_Vars 0 (MergeMapVars (S index) active outerComplete) s)
          | Return (Producer name) =>
              after_subscribe name
                (set_Vars 0 (MergeMapVars (S index) (active + 1)%Z outerComplete) s)
          | Return (FromIterable ws) =>
              after_iterable ws
                (set_Vars 0 (MergeMapVars (S index) (active + 1)%Z outerComplete) s)
          | Return _ => s
          end
      | Error err => after_downstream (Error err) (close 1 s)
      | Complete =>
          let s := set_Vars 0 (MergeMapVars index active true) (close 1 s) in
          if decide (active = 0%Z) then after_downstream Complete s else s
      end
  | _, _ => s
  end.

Lemma tokens_ok_after_subscribe name s :
  tokens_ok s -> 1 <= length (controllers s) ->
  tokens_ok (after_subscribe name s).
Proof.
  intros Hok Hl. unfold after_subscribe.
  apply (tokens_ok_frame (chainAbort 0 (length (controllers s))
                            (new_AbortController s).2)); [done..|].
  apply tokens_ok_chainAbort; simpl; rewrite ?length_app; simpl; try lia.
  by apply tokens_ok_new_AbortController.
Qed.

Lemma after_subscription_view s :
  subscribers (after_subscription s) =
    subscribers s
    ++ [mkSafeSubscriber false (MergeMapInner 0 0) (length (controllers s))] /\
  variables (after_subscription s) = variables s /\
  produced (after_subscription s) = produced s /\
  log (after_subscription s) = log s /\
  length (controllers (after_subscription s)) = S (length (controllers s)) /\
  signal_aborted (length (controllers s)) (after_subscription s) = Some false.
Proof.
  repeat split.
  - change (controllers (after_subscription s))
      with (controllers (chainAbort 0 (length (controllers s))
                           (new_AbortController s).2)).
    rewrite chainAbort_length. simpl. rewrite length_app. simpl. lia.
  - change (signal_aborted (length (controllers s)) (after_subscription s))
      with (signal_aborted (length (controllers s))
              (chainAbort 0 (length (controllers s)) (new_AbortController s).2)).
    rewrite chainAbort_signal_aborted. unfold signal_aborted. simpl.
    rewrite lookup_app_r by lia. by rewrite Nat.sub_diag.
Qed.

Lemma shape_after_subscription s : shape s -> shape (after_subscription s).
Proof.
  intros Hsh. destruct (sh_outer _ Hsh) as [closed1 H1].
  assert (2 <= length (subscribers s)) as Hlen
    by (apply lookup_lt_Some in H1; lia).
  destruct Hsh.
  destruct (after_subscription_view s) as (Es & Ev & Ep & _ & Ec & _).
  split; unfold handed; rewrite ?Es, ?Ev, ?Ep, ?Ec.
  - lia.
  - destruct sh_down0 as [closed H]. exists closed. by apply lookup_app_l_Some.
  - exists closed1. by apply lookup_app_l_Some.
  - intros k b Hk Hb.
    destruct (decide (k < length (subscribers s))) as [Hlt|Hge].
    + rewrite lookup_app_l in Hb by done.
      destruct (sh_inner0 k b Hk Hb). split; [done|lia].
    + rewrite lookup_app_r in Hb by lia.
      apply list_elem_of_lookup_2, list_elem_of_singleton in Hb. subst b.
      simpl. split; [done|lia].
  - done.
  - intros k Hk. rewrite length_app. simpl.
    apply sh_handed0 in Hk. lia.
  - done.
Qed.

Lemma merging_after_subscription s :
  merging s -> merging (after_subscription s).
Proof.
  intros [Hok Hsh]. pose proof (sh_controllers _ Hsh) as Hl. split.
  - apply (tokens_ok_frame (after_subscribe 0 s)); [done..|].
    apply tokens_ok_after_subscribe; [done|lia].
  - by apply shape_after_subscription.
Qed.

Lemma after_values_frame ws s :
  controllers (after_values ws s) = controllers s /\
  subscribers (after_values ws s) = subscribers s /\
  variables (after_values ws s) = variables s /\
  produced (after_values ws s) = produced s.
Proof.
  revert s. induction ws as [|w ws IH]; intros s; [done|].
  destruct (IH (after_downstream (Next w) s)) as (C & B & V & P).
  unfold after_values in *. simpl. rewrite C, B, V, P.
  unfold after_downstream. by destruct (is_closed 0 s) as [[|]|].
Qed.

Lemma shape_after_values ws s : shape s -> shape (after_values ws s).
Proof.
  revert s. induction ws as [|w ws IH]; intros s Hsh; [done|].
  apply (IH (after_downstream (Next w) s)). by apply shape_after_downstream.
Qed.

Lemma after_values_view ws s closed :
  is_closed 0 s = Some closed ->
  log (after_values ws s) = log s ++ (if closed then [] else nexts ws) /\
  controllers (after_values ws s) = controllers s /\
  subscribers (after_values ws s) = subscribers s /\
  variables (after_values ws s) = variables s /\
  produced (after_values ws s) = produced s.
Proof.
  intros H0. revert s H0. induction ws as [|w ws IH]; intros s H0; simpl.
  - by destruct closed; rewrite app_nil_r.
  - assert (is_closed 0 (after_downstream (Next w) s) = Some closed) as H0'.
    { unfold after_downstream. rewrite H0. by destruct closed. }
    destruct (IH _ H0') as (L & C & B & V & P).
    unfold after_values in *. rewrite L, C, B, V, P.
    unfold after_downstream. rewrite H0. destruct closed; [done|].
    simpl. by rewrite <- app_assoc.
Qed.

Lemma merging_after_values ws s : merging s -> merging (after_values ws s).
Proof.
  revert s. induction ws as [|w ws IH]; intros s Hm; [done|].
  apply (IH (after_downstream (Next w) s)). destruct Hm. split.
  - by apply tokens_ok_after_downstream.
  - by apply shape_after_downstream.
Qed.

(** The loop of a synchronous inner: its signal is not aborted, and every
    value goes to the downstream subscriber. *)
Lemma inner_loop fuel k c ws s :
  merging s ->
  subscribers s !! k = Some (mkSafeSubscriber false (MergeMapInner 0 0) c) ->
  signal_aborted c s = Some false ->
  from_loop (run (S (S fuel))) ws k c s = Some (after_values ws s).
Proof.
  revert s. induction ws as [|w ws IH]; intros s Hm Hk Ha; [done|].
  cbn [from_loop]. rewrite Ha. simpl.
  assert (run (S (S fuel)) (SafeSubscriber_next k w) s
          = Some (after_downstream (Next w) s)) as ->.
  { rewrite run_S. simpl. unfold SafeSubscriber_next_body. rewrite Hk. simpl.
    rewrite run_S. simpl. unfold SafeSubscriber_next_body.
    destruct (sh_down _ (proj2 Hm)) as [closed H0]. rewrite H0. simpl.
    unfold after_downstream, is_closed. rewrite H0. simpl.
    by destruct closed. }
  simpl. apply IH.
  - destruct Hm. split.
    + by apply tokens_ok_after_downstream.
    + by apply shape_after_downstream.
  - unfold after_downstream. by destruct (is_closed 0 s) as [[|]|].
  - unfold after_downstream. by destruct (is_closed 0 s) as [[|]|].
Qed.

Lemma set_Vars_set_Vars x v w s : set_Vars x w (set_Vars x v s) = set_Vars x w s.
Proof.
  unfold set_Vars, set_variables. simpl. by rewrite list_insert_insert_eq.
Qed.

Lemma outer_method fuel n s :
  merging s -> S (S (S (length (controllers s)))) < fuel ->
  exists s', run (S (S fuel)) (method 1 n) s = Some s' /\
             same (after_outer n s) s' /\ tokens_ok s'.
Proof.
  intros Hm Hf. pose proof Hm as [Hok Hsh].
  destruct (sh_outer _ Hsh) as [closed Hb].
  destruct (sh_vars _ Hsh) as (index & active & oc & Hv).
  pose proof (sh_controllers _ Hsh) as Hl.
  assert (is_closed 1 s = Some closed) as Hck
    by (unfold is_closed; by rewrite Hb).
  unfold after_outer. rewrite Hck, Hv.
  destruct closed.
  { exists s. split; [|split; [apply same_refl|done]].
    destruct n; rewrite run_S; simpl;
      unfold SafeSubscriber_next_body, SafeSubscriber_error_body,
        SafeSubscriber_complete_body; by rewrite Hb. }
  assert (forall s1, tokens_ok s1 ->
            length (controllers s1) = length (controllers s) ->
            exists s', abort (S fuel) 1 s1 = Some s' /\ same s1 s' /\
                       tokens_ok s') as Hab.
  { intros s1 Hok1 Hl1. apply abort_same; [done|lia|lia]. }
  destruct n as [v|err|]; rewrite run_S; simpl;
    unfold SafeSubscriber_next_body, SafeSubscriber_error_body,
      SafeSubscriber_complete_body; rewrite Hb; simpl.
  - rewrite Hv. simpl. destruct (callback v index) as [o|err] eqn:Hcb.
    + destruct (callback_returns_sources _ _ _ Hcb) as [[name ->]|[ws ->]].
      { rewrite run_S. simpl. unfold subscribe_body.
        eexists. split; [reflexivity|]. split.
        * unfold after_subscribe. split; try done. simpl.
          by rewrite list_insert_insert_eq.
        * set (s1 := set_Vars 0 (MergeMapVars (S index) (active + 1) oc)
                       (set_Vars 0 (MergeMapVars (S index) active oc) s)).
          apply (tokens_ok_after_subscribe name s1); [|simpl; lia].
          by apply (tokens_ok_frame s). }
      rewrite set_Vars_set_Vars.
      set (s1 := set_Vars 0 (MergeMapVars (S index) (active + 1) oc) s).
      assert (merging s1) as Hm1 by (by apply merging_set_Vars).
      destruct fuel as [|[|fuel]]; [lia..|].
      rewrite run_S.
      change (body (S (S fuel)) (run (S (S fuel)))
                (subscribe (FromIterable ws) (MergeMapInner 0 0) (Some 0)) s1)
        with (s2 ← from_loop (run (S (S fuel))) ws (length (subscribers s1))
                     (length (controllers s1)) (after_subscription s1);
              run (S (S fuel))
                (SafeSubscriber_complete (length (subscribers s1))) s2).
      destruct (after_subscription_view s1) as (Es & _ & _ & _ & Ec & Ea).
      pose proof (merging_after_subscription s1 Hm1) as Hm2.
      rewrite (inner_loop fuel _ _ ws (after_subscription s1) Hm2);
        [|rewrite Es, lookup_app_r by lia; by rewrite Nat.sub_diag|exact Ea].
      simpl.
      destruct (sh_down _ Hsh) as [closed0 H0].
      destruct (after_values_view ws (after_subscription s1) closed0)
        as (_ & Ec' & Es' & _).
      { unfold is_closed. rewrite Es, lookup_app_l by (apply lookup_lt_Some in H0; done).
        change (subscribers s1) with (subscribers s). by rewrite H0. }
      apply (inner_method fuel (length (subscribers s1)) Complete).
      * by apply merging_after_values.
      * destruct (sh_outer _ Hsh) as [closed1 H1]. apply lookup_lt_Some in H1.
        change (subscribers s1) with (subscribers s). lia.
      * rewrite Es', Es, length_app. simpl. lia.
      * rewrite Ec', Ec. change (controllers s1) with (controllers s). lia.
    + destruct (downstream_method fuel (Error err)
                  (set_Vars 0 (MergeMapVars (S index) active oc) s))
        as (s1 & E1 & S1 & Hok1); [by apply merging_set_Vars|simpl; lia|].
      exists s1. done.
  - destruct (downstream_method fuel (Error err) (close 1 s))
      as (s1 & E1 & S1 & Hok1); [by apply merging_close|simpl; lia|].
    change (method 0 (Error err)) with (SafeSubscriber_error 0 err) in E1.
    rewrite E1. simpl.
    destruct (Hab s1 Hok1) as (s' & E & S' & Hok').
    { rewrite (same_controllers _ _ S1). unfold after_downstream.
      destruct (is_closed 0 (close 1 s)) as [[|]|]; simpl; by rewrite ?length_alter. }
    exists s'. eauto using same_trans.
  - change (variables (close 1 s)) with (variables s). rewrite Hv. simpl.
    set (s1 := set_Vars 0 (MergeMapVars index active true) (close 1 s)).
    assert (merging s1) as Hm1 by (by apply merging_set_Vars, merging_close).
    destruct (decide (active = 0%Z)).
    + destruct (downstream_method fuel Complete s1) as (s2 & E2 & S2 & Hok2);
        [done|simpl; lia|].
      change (method 0 Complete) with (SafeSubscriber_complete 0) in E2.
      rewrite E2. simpl.
      destruct (Hab s2 Hok2) as (s' & E & S' & Hok').
      { rewrite (same_controllers _ _ S2). unfold after_downstream.
        destruct (is_closed 0 s1) as [[|]|]; simpl; by rewrite ?length_alter. }
      exists s'. eauto using same_trans.
    + destruct (Hab s1 (proj1 Hm1)) as (s' & E & S' & Hok'); [done|].
      exists s'. eauto.
Qed.

(** *** How the phase moves *)

Lemma is_closed_set_Vars j x v s : is_closed j (set_Vars x v s) = is_closed j s.
Proof. reflexivity. Qed.

Lemma open_inners_set_Vars x v s : open_inners (set_Vars x v s) = open_inners s.
Proof. reflexivity. Qed.

Lemma lookup_set_Vars v w s :
  variables s !! 0 = Some w -> variables (set_Vars 0 v s) !! 0 = Some v.
Proof.
  intros H. simpl. apply list_lookup_insert_eq. by eapply lookup_lt_Some.
Qed.

Lemma after_downstream_view n s closed :
  is_closed 0 s = Some closed ->
  log (after_downstream n s) =
    log s ++ (if closed then [] else [Delivered tag n]) /\
  is_closed 0 (after_downstream n s) = Some (closed || is_terminal n) /\
  (forall k, k <> 0 -> is_closed k (after_downstream n s) = is_closed k s) /\
  variables (after_downstream n s) = variables s /\
  open_inners (after_downstream n s) = open_inners s /\
  handed (after_downstream n s) = handed s /\
  length (subscribers (after_downstream n s)) = length (subscribers s).
Proof.
  intros H0. unfold after_downstream. rewrite H0. destruct closed.
  { rewrite app_nil_r. done. }
  destruct (is_terminal n) eqn:Hn; repeat split; try done.
  - change (is_closed 0 (record (Delivered tag n) (close 0 s)))
      with (is_closed 0 (close 0 s)).
    by rewrite is_closed_close, H0.
  - intros k Hk.
    change (is_closed k (record (Delivered tag n) (close 0 s)))
      with (is_closed k (close 0 s)).
    rewrite is_closed_close. by case_decide.
  - apply (open_inners_close_outer 0). lia.
  - simpl. by rewrite length_alter.
Qed.

Lemma nexts_snoc vs v : nexts vs ++ [Delivered tag (Next v)] = nexts (vs ++ [v]).
Proof. unfold nexts. by rewrite fmap_app. Qed.

(** Once the downstream subscriber is closed, a step that leaves it and
    the log alone keeps the subscription where it is. *)
Lemma phase_closed s s' :
  is_closed 0 s = Some true -> phase s ->
  (forall k, is_closed k s = Some true -> is_closed k s' = Some true) ->
  log s' = log s ->
  (open_inners s = 0 -> is_closed 1 s = Some true ->
   variables s' = variables s /\ open_inners s' = 0) ->
  phase s'.
Proof.
  intros H0 Hp Hc Hl Hv. destruct Hp as [vs i a oc ? H0'|vs i|vs err].
  - congruence.
  - destruct Hv as [Hv Ho]; [done..|].
    eapply (completed _ vs i); rewrite ?Hv, ?Hl; auto.
  - eapply (errored _ vs err); rewrite ?Hl; auto.
Qed.

Lemma phase_after_inner k n s :
  shape s -> phase s -> 2 <= k -> k < length (subscribers s) ->
  phase (after_inner k n s).
Proof.
  intros Hsh Hp Hk Hlt.
  destruct (lookup_lt_is_Some_2 _ _ Hlt) as [b Hb].
  assert (is_closed k s = Some (_closed b)) as Hck
    by (unfold is_closed; by rewrite Hb).
  destruct (sh_vars _ Hsh) as (index & active & oc & Hv).
  unfold after_inner. rewrite Hck, Hv.
  destruct (_closed b) eqn:Hcb; [done|].
  assert (is_closed 0 (close k s) = is_closed 0 s) as H0k.
  { rewrite is_closed_close. case_decide; [lia|done]. }
  assert (is_closed 1 (close k s) = is_closed 1 s) as H1k.
  { rewrite is_closed_close. case_decide; [lia|done]. }
  pose proof (open_inners_close k b s Hk Hb Hcb) as Hopen.
  destruct Hp as [vs i a oc' Hl H0 Hv' H1 Ha Hn|vs i Hl H0 Hv' H1 Ho|vs err Hl H0].
  - (* running *)
    rewrite Hv in Hv'. injection Hv' as <- <- <-.
    destruct n as [v|err|].
    + destruct (after_downstream_view (Next v) s false H0)
        as (L & C0 & Ck & V & O & _).
      specialize (Ck 1 ltac:(lia)).
      eapply (running _ (vs ++ [v]) index active oc);
        rewrite ?L, ?Hl, ?V, ?O, ?Ck, ?nexts_snoc; auto.
    + destruct (after_downstream_view (Error err) (close k s) false)
        as (L & C0 & _); [congruence|].
      eapply (errored _ vs err); [|done].
      rewrite L. change (log (close k s)) with (log s). by rewrite Hl.
    + set (s1 := set_Vars 0 (MergeMapVars index (active - 1) oc) (close k s)).
      assert (variables s1 !! 0 = Some (MergeMapVars index (active - 1) oc))
        as Hv1 by (by eapply lookup_set_Vars).
      assert (is_closed 0 s1 = Some false) as H01
        by (change (is_closed 0 s1) with (is_closed 0 (close k s)); congruence).
      assert (is_closed 1 s1 = Some oc) as H11
        by (change (is_closed 1 s1) with (is_closed 1 (close k s)); congruence).
      assert ((active - 1)%Z = Z.of_nat (open_inners s1)) as Ha1.
      { change (open_inners s1) with (open_inners (close k s)). lia. }
      destruct (oc && bool_decide ((active - 1)%Z = 0%Z)) eqn:Hcond.
      * apply andb_prop in Hcond as [-> Hz]. apply bool_decide_eq_true in Hz.
        destruct (after_downstream_view Complete s1 false H01)
          as (L & C0 & Ck & V & O & _).
        specialize (Ck 1 ltac:(lia)).
        eapply (completed _ vs index); rewrite ?L, ?V, ?O, ?Ck; auto.
        -- change (log s1) with (log s). by rewrite Hl.
        -- by rewrite Hz in Hv1.
        -- lia.
      * eapply (running _ vs index (active - 1)%Z oc); auto.
        intros [-> Hz]. rewrite Hz in Hcond. done.
  - (* completed: no inner subscription is open *)
    pose proof (open_inners_zero _ _ _ Ho Hk Hb). congruence.
  - (* errored *)
    assert (forall n s1, is_closed 0 s1 = Some true ->
              after_downstream n s1 = s1) as Hid.
    { intros n' s1 H. unfold after_downstream. by rewrite H. }
    assert (is_closed 0 (close k s) = Some true) as H0' by congruence.
    eapply (errored _ vs err).
    + destruct n as [v|e|]; rewrite ?Hid; try done.
      destruct (oc && _); rewrite ?Hid; done.
    + destruct n as [v|e|]; rewrite ?Hid; try done.
      destruct (oc && _); rewrite ?Hid; done.
Qed.

Lemma open_inners_after_subscribe name s :
  2 <= length (subscribers s) ->
  open_inners (after_subscribe name s) = S (open_inners s).
Proof.
  intros Hl. unfold open_inners, after_subscribe. simpl.
  rewrite drop_app_le by done. rewrite filter_app, length_app.
  rewrite filter_cons. simpl. lia.
Qed.

Lemma is_closed_after_subscribe k name s :
  k < length (subscribers s) ->
  is_closed k (after_subscribe name s) = is_closed k s.
Proof.
  intros Hk. unfold is_closed, after_subscribe. simpl.
  by rewrite lookup_app_l.
Qed.

Lemma shape_length s : shape s -> 2 <= length (subscribers s).
Proof.
  intros Hsh. destruct (sh_outer _ Hsh) as [closed H].
  apply lookup_lt_Some in H. lia.
Qed.

Lemma phase_after_next w s : phase s -> phase (after_downstream (Next w) s).
Proof.
  intros [vs i a oc Hl H0 Hv H1 Ha Hn|vs i Hl H0 Hv H1 Ho|vs err Hl H0].
  - destruct (after_downstream_view (Next w) s false H0)
      as (L & C0 & Ck & V & O & _).
    specialize (Ck 1 ltac:(lia)).
    eapply (running _ (vs ++ [w]) i a oc);
      rewrite ?L, ?Hl, ?V, ?O, ?Ck, ?nexts_snoc; auto.
  - unfold after_downstream. rewrite H0. by eapply (completed _ vs i).
  - unfold after_downstream. rewrite H0. by eapply (errored _ vs err).
Qed.

Lemma phase_after_values ws s : phase s -> phase (after_values ws s).
Proof.
  revert s. induction ws as [|w ws IH]; intros s Hp; [done|].
  apply (IH _ (phase_after_next w s Hp)).
Qed.

Lemma open_inners_after_subscription s :
  2 <= length (subscribers s) ->
  open_inners (after_subscription s) = S (open_inners s).
Proof.
  intros Hl. unfold open_inners, after_subscription. simpl.
  rewrite drop_app_le by done. rewrite filter_app, length_app.
  rewrite filter_cons. simpl. lia.
Qed.

Lemma is_closed_after_subscription k s :
  k < length (subscribers s) ->
  is_closed k (after_subscription s) = is_closed k s.
Proof.
  intros Hk. unfold is_closed, after_subscription. simpl.
  by rewrite lookup_app_l.
Qed.

(** A synchronous inner leaves the subscription where it was, but for
    the values it has delivered. *)
Lemma phase_after_iterable ws index active oc s :
  shape s -> phase s ->
  variables s !! 0 = Some (MergeMapVars index active oc) ->
  is_closed 1 s = Some false ->
  phase (after_iterable ws
           (set_Vars 0 (MergeMapVars (S index) (active + 1) oc) s)).
Proof.
  intros Hsh Hp Hv H1. pose proof (shape_length _ Hsh) as Hlen.
  set (s1 := set_Vars 0 (MergeMapVars (S index) (active + 1) oc) s).
  assert (shape s1) as Hsh1 by (by apply shape_set_Vars).
  destruct (after_subscription_view s1) as (Es & Ev & Ep & El & Ec & Ea).
  assert (phase (after_subscription s1)) as Hp2.
  { destruct Hp as [vs i a oc' Hl H0 Hv' H1' Ha Hn|vs i Hl H0 Hv' H1' Ho'
                    |vs err Hl H0].
    - rewrite Hv in Hv'. injection Hv' as <- <- <-.
      assert (oc = false) as -> by congruence.
      eapply (running _ vs (S index) (active + 1)%Z false).
      + by rewrite El.
      + rewrite is_closed_after_subscription by (simpl; lia). done.
      + rewrite Ev. by eapply lookup_set_Vars.
      + rewrite is_closed_after_subscription by (simpl; lia). done.
      + rewrite open_inners_after_subscription by done.
        change (open_inners s1) with (open_inners s). lia.
      + by intros [? _].
    - congruence.
    - eapply (errored _ vs err); [by rewrite El|].
      rewrite is_closed_after_subscription by (simpl; lia). done. }
  unfold after_iterable.
  destruct (after_values_frame ws (after_subscription s1)) as (_ & B & _).
  apply phase_after_inner.
  - by apply shape_after_values, shape_after_subscription.
  - by apply phase_after_values.
  - change (subscribers s1) with (subscribers s). lia.
  - rewrite B, Es, length_app. simpl. lia.
Qed.

(** What a synchronous inner leaves while the downstream subscriber and
    the subscriber of the outer source are open. *)
Lemma after_iterable_view ws index active s :
  shape s -> is_closed 0 s = Some false ->
  variables s !! 0 = Some (MergeMapVars index active false) ->
  let s' := after_iterable ws
              (set_Vars 0 (MergeMapVars (S index) (active + 1) false) s) in
  log s' = log s ++ nexts ws /\
  variables s' !! 0 = Some (MergeMapVars (S index) active false) /\
  is_closed (length (subscribers s)) s' = Some true /\
  open_inners s' = open_inners s /\
  produced s' = produced s.
Proof.
  intros Hsh H0 Hv. pose proof (shape_length _ Hsh) as Hlen.
  set (s1 := set_Vars 0 (MergeMapVars (S index) (active + 1) false) s).
  destruct (after_subscription_view s1) as (Es & Ev & Ep & El & Ec & Ea).
  pose proof (open_inners_after_subscription s1 Hlen) as Ho2.
  assert (is_closed 0 (after_subscription s1) = Some false) as H02.
  { rewrite is_closed_after_subscription by (simpl; lia). exact H0. }
  destruct (after_values_view ws _ false H02) as (L3 & C3 & B3 & V3 & P3).
  set (s3 := after_values ws (after_subscription s1)) in *.
  set (b := mkSafeSubscriber false (MergeMapInner 0 0) (length (controllers s))).
  assert (subscribers s3 !! length (subscribers s) = Some b) as Hk.
  { rewrite B3, Es. change (subscribers s1) with (subscribers s).
    rewrite lookup_app_r by lia. by rewrite Nat.sub_diag. }
  assert (variables s3 !! 0 = Some (MergeMapVars (S index) (active + 1) false))
    as Hv3.
  { rewrite V3, Ev. by eapply lookup_set_Vars. }
  assert (open_inners s3 = S (open_inners s)) as Ho3.
  { unfold open_inners. rewrite B3. exact Ho2. }
  pose proof (open_inners_close _ b s3 Hlen Hk eq_refl) as Hoc.
  assert (is_closed (length (subscribers s)) s3 = Some false) as Hck
    by (unfold is_closed; by rewrite Hk).
  cbv zeta. unfold after_iterable. fold s1. fold s3.
  change (length (subscribers s1)) with (length (subscribers s)).
  unfold after_inner. rewrite Hck, Hv3.
  change (false && bool_decide ((active + 1 - 1)%Z = 0%Z)) with false.
  cbv iota.
  split; [|split; [|split; [|split]]].
  - change (log s3 = log s ++ nexts ws). by rewrite L3, El.
  - replace active with (active + 1 - 1)%Z at 2 by lia.
    by eapply lookup_set_Vars.
  - change (is_closed (length (subscribers s))
              (close (length (subscribers s)) s3) = Some true).
    rewrite is_closed_close, decide_True by done. by rewrite Hck.
  - change (open_inners (close (length (subscribers s)) s3) = open_inners s).
    lia.
  - change (produced s3 = produced s). by rewrite P3, Ep.
Qed.

Lemma phase_after_outer n s :
  shape s -> phase s -> phase (after_outer n s).
Proof.
  intros Hsh Hp. pose proof (shape_length _ Hsh) as Hlen.
  destruct (sh_outer _ Hsh) as [closed Hb].
  assert (is_closed 1 s = Some closed) as Hck
    by (unfold is_closed; by rewrite Hb).
  destruct (sh_vars _ Hsh) as (index & active & oc & Hv).
  unfold after_outer. rewrite Hck, Hv.
  destruct closed; [done|].
  assert (is_closed 0 (close 1 s) = is_closed 0 s) as H01.
  { rewrite is_closed_close. case_decide; [lia|done]. }
  assert (is_closed 1 (close 1 s) = Some true) as H11.
  { rewrite is_closed_close, Hck. by case_decide. }
  pose proof (open_inners_close_outer 1 s ltac:(lia)) as Hopen.
  destruct Hp as [vs i a oc' Hl H0 Hv' H1 Ha Hn|vs i Hl H0 Hv' H1 Ho|vs err Hl H0].
  - (* running *)
    rewrite Hv in Hv'. injection Hv' as <- <- <-.
    rewrite Hck in H1. injection H1 as <-.
    destruct n as [v|err|].
    + destruct (callback v index) as [o|err] eqn:Hcb.
      * destruct (callback_returns_sources _ _ _ Hcb) as [[name ->]|[ws ->]].
        2: { apply phase_after_iterable; try done.
             by eapply (running _ vs index active false). }
        set (s1 := set_Vars 0 (MergeMapVars (S index) (active + 1) false) s).
        eapply (running _ vs (S index) (active + 1)%Z false).
        -- done.
        -- rewrite is_closed_after_subscribe by (simpl; lia). done.
        -- unfold after_subscribe. simpl.
           apply list_lookup_insert_eq. by eapply lookup_lt_Some.
        -- rewrite is_closed_after_subscribe by (simpl; lia). done.
        -- rewrite open_inners_after_subscribe by done.
           change (open_inners s1) with (open_inners s). lia.
        -- by intros [? _].
      * destruct (after_downstream_view (Error err)
                    (set_Vars 0 (MergeMapVars (S index) active false) s) false H0)
          as (L & C0 & _).
        eapply (errored _ vs err); [|done]. rewrite L. simpl. by rewrite Hl.
    + destruct (after_downstream_view (Error err) (close 1 s) false)
        as (L & C0 & _); [congruence|].
      eapply (errored _ vs err); [|done].
      rewrite L. change (log (close 1 s)) with (log s). by rewrite Hl.
    + set (s1 := set_Vars 0 (MergeMapVars index active true) (close 1 s)).
      assert (variables s1 !! 0 = Some (MergeMapVars index active true))
        as Hv1 by (by eapply lookup_set_Vars).
      assert (is_closed 0 s1 = Some false) as H0s
        by (change (is_closed 0 s1) with (is_closed 0 (close 1 s)); congruence).
      assert (open_inners s1 = open_inners s) as Ho1 by exact Hopen.
      destruct (decide (active = 0%Z)) as [Hz|Hz].
      * destruct (after_downstream_view Complete s1 false H0s)
          as (L & C0 & Ck & V & O & _).
        specialize (Ck 1 ltac:(lia)).
        eapply (completed _ vs index); rewrite ?L, ?V, ?O, ?Ck; auto.
        -- change (log s1) with (log s). by rewrite Hl.
        -- by rewrite Hz in Hv1.
        -- lia.
      * eapply (running _ vs index active true); auto.
        -- rewrite Ho1. done.
        -- by intros [_ ?].
  - congruence.
  - (* errored *)
    assert (forall n s1, is_closed 0 s1 = Some true ->
              after_downstream n s1 = s1) as Hid.
    { intros n' s1 H. unfold after_downstream. by rewrite H. }
    assert (is_closed 0 (close 1 s) = Some true) as H0' by congruence.
    destruct n as [v|e|].
    + destruct (callback v index) as [[]|e];
        try (by eapply (errored _ vs err)).
      * apply phase_after_iterable; try done. by eapply (errored _ vs err).
      * eapply (errored _ vs err); [exact Hl|].
        rewrite is_closed_after_subscribe by (simpl; lia). exact H0.
      * rewrite Hid by exact H0. eapply (errored _ vs err); [exact Hl|exact H0].
    + rewrite Hid by exact H0'. eapply (errored _ vs err); [exact Hl|exact H0'].
    + destruct (decide _); [rewrite Hid by exact H0'|];
        (eapply (errored _ vs err); [exact Hl|exact H0']).
Qed.

Lemma shape_after_inner k n s : shape s -> shape (after_inner k n s).
Proof.
  intros Hsh. unfold after_inner.
  destruct (is_closed k s) as [[|]|]; try done.
  destruct (variables s !! 0) as [[]|]; try done.
  destruct n.
  - by apply shape_after_downstream.
  - by apply shape_after_downstream, shape_close.
  - destruct (_ && _).
    + by apply shape_after_downstream, shape_set_Vars, shape_close.
    + by apply shape_set_Vars, shape_close.
Qed.

Lemma after_subscribe_view name s :
  subscribers (after_subscribe name s) =
    subscribers s
    ++ [mkSafeSubscriber false (MergeMapInner 0 0) (length (controllers s))] /\
  variables (after_subscribe name s) = variables s /\
  produced (after_subscribe name s) =
    produced s ++ [(name, length (subscribers s), length (controllers s))] /\
  log (after_subscribe name s) = log s /\
  length (controllers (after_subscribe name s)) = S (length (controllers s)).
Proof.
  repeat split.
  change (controllers (after_subscribe name s))
    with (controllers (chainAbort 0 (length (controllers s))
                         (new_AbortController s).2)).
  rewrite chainAbort_length. simpl. rewrite length_app. simpl. lia.
Qed.

Lemma shape_after_subscribe name s : shape s -> shape (after_subscribe name s).
Proof.
  intros Hsh. pose proof (shape_length _ Hsh) as Hlen.
  destruct Hsh.
  destruct (after_subscribe_view name s) as (Es & Ev & Ep & _ & Ec).
  split; unfold handed; rewrite ?Es, ?Ev, ?Ep, ?Ec.
  - lia.
  - destruct sh_down0 as [closed H]. exists closed. by apply lookup_app_l_Some.
  - destruct sh_outer0 as [closed H]. exists closed. by apply lookup_app_l_Some.
  - intros k b Hk Hb.
    destruct (decide (k < length (subscribers s))) as [Hlt|Hge].
    + rewrite lookup_app_l in Hb by done.
      destruct (sh_inner0 k b Hk Hb). split; [done|lia].
    + rewrite lookup_app_r in Hb by lia.
      apply list_elem_of_lookup_2, list_elem_of_singleton in Hb. subst b.
      simpl. split; [done|lia].
  - done.
  - intros k. rewrite fmap_app, elem_of_app. simpl.
    rewrite list_elem_of_singleton, length_app. simpl.
    intros [Hk| ->]; [|lia]. apply sh_handed0 in Hk. lia.
  - rewrite fmap_app, elem_of_app. by left.
Qed.

Lemma shape_after_outer n s : shape s -> shape (after_outer n s).
Proof.
  intros Hsh. unfold after_outer.
  destruct (is_closed 1 s) as [[|]|]; try done.
  destruct (variables s !! 0) as [[]|]; try done.
  destruct n.
  - destruct (callback _ _) as [[]|]; try done.
    + by apply shape_after_inner, shape_after_values, shape_after_subscription,
        shape_set_Vars.
    + by apply shape_after_subscribe, shape_set_Vars.
    + by apply shape_after_downstream, shape_set_Vars.
  - by apply shape_after_downstream, shape_close.
  - destruct (decide _).
    + by apply shape_after_downstream, shape_set_Vars, shape_close.
    + by apply shape_set_Vars, shape_close.
Qed.

Lemma length_controllers_after_downstream n s :
  length (controllers (after_downstream n s)) = length (controllers s).
Proof.
  unfold after_downstream. destruct (is_closed 0 s) as [[|]|]; try done.
  by destruct (is_terminal n).
Qed.

Lemma length_controllers_after_inner k n s :
  length (controllers (after_inner k n s)) = length (controllers s).
Proof.
  unfold after_inner.
  destruct (is_closed k s) as [[|]|]; try done.
  destruct (variables s !! 0) as [[]|]; try done.
  destruct n; rewrite ?length_controllers_after_downstream; try done.
  destruct (_ && _); rewrite ?length_controllers_after_downstream; done.
Qed.

Lemma length_controllers_after_outer n s :
  length (controllers (after_outer n s)) <= S (length (controllers s)).
Proof.
  unfold after_outer.
  destruct (is_closed 1 s) as [[|]|]; try lia.
  destruct (variables s !! 0) as [[]|]; try lia.
  destruct n; rewrite ?length_controllers_after_downstream;
    try (simpl; lia).
  - destruct (callback _ _) as [[ws| | |name| | | | | |]|];
      rewrite ?length_controllers_after_downstream; try (simpl; lia).
    { unfold after_iterable. rewrite length_controllers_after_inner.
      destruct (after_values_frame ws
                  (after_subscription
                     (set_Vars 0 (MergeMapVars (S index) (active + 1) outerComplete) s)))
        as (-> & _).
      destruct (after_subscription_view
                  (set_Vars 0 (MergeMapVars (S index) (active + 1) outerComplete) s))
        as (_ & _ & _ & _ & -> & _). simpl. lia. }
    destruct (after_subscribe_view name
                (set_Vars 0 (MergeMapVars (S index) (active + 1) outerComplete) s))
      as (_ & _ & _ & _ & ->). simpl. lia.
  - destruct (decide _); rewrite ?length_controllers_after_downstream;
      simpl; lia.
Qed.

(** The store after a call by a producer, up to the state of the
    controllers. *)
Definition after (e : nat * Notification) (s : State) : State :=
  if decide (e.1 ∈ handed s)
  then if decide (e.1 = 1) then after_outer e.2 s else after_inner e.1 e.2 s
  else s.

Lemma push_merging fuel e s :
  merging s -> phase s -> S (S (S (length (controllers s)))) < fuel ->
  exists s', push (S (S fuel)) e s = Some s' /\ same (after e s) s' /\
             merging s' /\ phase s' /\
             length (controllers s') <= S (length (controllers s)).
Proof.
  intros Hm Hp Hf. pose proof Hm as [Hok Hsh].
  destruct e as [k n]. unfold push, after. simpl.
  destruct (decide (k ∈ handed s)) as [Hk|Hk].
  - apply (sh_handed _ Hsh) in Hk. destruct (decide (k = 1)) as [->|Hne].
    + destruct (outer_method fuel n s Hm Hf) as (s' & E & S' & Hok').
      exists s'. split; [done|]. split; [done|]. split; [|split].
      * split; [done|]. eapply shape_same; [done|]. by apply shape_after_outer.
      * eapply phase_same; [done|]. by apply phase_after_outer.
      * rewrite (same_controllers _ _ S'). apply length_controllers_after_outer.
    + destruct (inner_method fuel k n s Hm) as (s' & E & S' & Hok'); [lia..|].
      exists s'. split; [done|]. split; [done|]. split; [|split].
      * split; [done|]. eapply shape_same; [done|]. by apply shape_after_inner.
      * eapply phase_same; [done|]. apply phase_after_inner; [done..|lia|lia].
      * rewrite (same_controllers _ _ S'), length_controllers_after_inner. lia.
  - exists s. split; [done|]. split; [apply same_refl|]. split; [done|].
    split; [done|lia].
Qed.

Lemma pushes_merging fuel events s :
  merging s -> phase s ->
  S (S (S (length (controllers s) + length events))) < fuel ->
  exists s', pushes (S (S fuel)) events s = Some s' /\
             merging s' /\ phase s' /\
             length (controllers s') <= length (controllers s) + length events.
Proof.
  revert s. induction events as [|e events IH]; simpl; intros s Hm Hp Hf.
  - exists s. split; [done|]. split; [done|]. split; [done|lia].
  - destruct (push_merging fuel e s Hm Hp) as (s1 & E1 & _ & Hm1 & Hp1 & Hl1);
      [lia|].
    rewrite E1. simpl.
    destruct (IH s1 Hm1 Hp1) as (s' & E & Hm' & Hp' & Hl'); [lia|].
    exists s'. split; [done|]. split; [done|]. split; [done|lia].
Qed.

(** The store that [source.mergeMap(callback).subscribe(logger)] leaves
    when [source] is a producer. *)
Definition subscribed : State :=
  set_produced (fun l => l ++ [(0, 1, 1)])
    (new_SafeSubscriber (MergeMapOuter callback 0 0 0) 1
       (chainAbort 0 1
          (new_AbortController
             (new_Vars (MergeMapVars 0 0 false)
                (new_SafeSubscriber (logger tag) 0
                   (new_AbortController empty).2).2).2).2)).2.

Lemma run_subscribe fuel :
  run (S (S fuel))
    (subscribe (Obs.mergeMap callback (Producer 0)) (logger tag) None) empty
  = Some subscribed.
Proof. vm_compute. reflexivity. Qed.

Lemma merging_subscribed :
  merging subscribed /\ phase subscribed /\ length (controllers subscribed) = 2.
Proof.
  split; [split|split].
  - unfold subscribed.
    eapply tokens_ok_frame; [| |apply tokens_ok_chainAbort;
      [| |apply tokens_ok_new_AbortController;
          eapply tokens_ok_frame;
            [| |apply tokens_ok_new_AbortController, tokens_ok_empty]]];
      try reflexivity; simpl; lia.
  - split.
    + simpl. lia.
    + by eexists.
    + by eexists.
    + intros [|[|k]] b Hk; try lia. done.
    + by exists 0, 0%Z, false.
    + intros k. unfold handed. simpl.
      rewrite list_elem_of_singleton. intros ->. lia.
    + unfold handed. simpl. by apply list_elem_of_singleton.
  - eapply (running _ [] 0 0%Z false); try reflexivity. by intros [? _].
  - reflexivity.
Qed.

Lemma nexts_no_terminal vs n : is_terminal n = true -> Delivered tag n ∉ nexts vs.
Proof.
  intros Hn (v & E & _)%list_elem_of_fmap. injection E as ->. done.
Qed.

(** An error is passed on at once while the downstream is open. *)
Lemma error_forwarded s :
  shape s -> is_closed 0 s = Some false ->
  (forall k err, k ∈ handed s -> is_closed k s = Some false ->
     log (after (k, Error err) s) = log s ++ [Delivered tag (Error err)]) /\
  (forall v err index active outerComplete,
     variables s !! 0 = Some (MergeMapVars index active outerComplete) ->
     is_closed 1 s = Some false -> callback v index = Throw err ->
     log (after (1, Next v) s) = log s ++ [Delivered tag (Error err)]).
Proof.
  intros Hsh H0. destruct (sh_vars _ Hsh) as (index & active & oc & Hv).
  assert (forall k, k <> 0 -> is_closed 0 (close k s) = Some false) as H0k.
  { intros k Hk. rewrite is_closed_close. by case_decide. }
  split.
  - intros k err Hk Hck. unfold after. simpl. rewrite decide_True by done.
    pose proof (sh_handed _ Hsh _ Hk) as Hk1.
    case_decide as E.
    + subst k. unfold after_outer. rewrite Hck, Hv.
      by destruct (after_downstream_view (Error err) (close 1 s) false
                     (H0k 1 ltac:(lia))) as (-> & _).
    + unfold after_inner. rewrite Hck, Hv.
      by destruct (after_downstream_view (Error err) (close k s) false
                     (H0k k ltac:(lia))) as (-> & _).
  - intros v err i a o Hv' H1 Hcb. rewrite Hv in Hv'. injection Hv' as <- <- <-.
    unfold after. simpl.
    destruct (sh_outer _ Hsh) as [closed Hb].
    case_decide as Hh.
    + unfold after_outer. rewrite H1, Hv, Hcb.
      by destruct (after_downstream_view (Error err)
                     (set_Vars 0 (MergeMapVars (S index) active oc) s) false H0)
        as (-> & _).
    + destruct Hh. apply (sh_outer_handed _ Hsh).
Qed.
End MergeMap.




(** A run, computed: the first inner is a producer, the second is
    synchronous and its values come between those of the first; the
    completion of the outer source alone does not complete the
    downstream; the completion of the last open inner does. *)
Lemma mergeMap_run :
  let callback := fun (v : value) (i : nat) =>
    match i with
    | 0 => Return (Producer 1)
    | S _ => Return (FromIterable [v; v])
    end in
  exists s0 s1 s2,
    run 10 (subscribe (Obs.mergeMap callback (Producer 0)) (logger 0) None)
      empty = Some s0 /\
    pushes 10 [(1, Next (JNumber 1)); (2, Next (JNumber 10));
               (1, Next (JNumber 5)); (2, Next (JNumber 11)); (1, Complete)] s0
      = Some s1 /\
    log s1 = [Delivered 0 (Next (JNumber 10)); Delivered 0 (Next (JNumber 5));
              Delivered 0 (Next (JNumber 5)); Delivered 0 (Next (JNumber 11))] /\
    is_closed 3 s1 = Some true /\
    open_inners s1 = 1 /\
    pushes 10 [(2, Complete)] s1 = Some s2 /\
    log s2 = log s1 ++ [Delivered 0 Complete].
Proof.
  do 3 eexists. split; [vm_compute; reflexivity|].
  split; [vm_compute; reflexivity|]. split; [reflexivity|].
  split; [reflexivity|]. split; [reflexivity|].
  split; [vm_compute; reflexivity|]. reflexivity.
Qed.

(** * Further properties *)

(** ** [controller.abort()] in general *)

Lemma signal_aborted_cases q s s' :
  wanes s s' -> q < length (controllers s) ->
  (is_aborted q s' -> is_aborted q s) ->
  signal_aborted q s' = signal_aborted q s.
Proof.
  intros W Hq Hback. pose proof (wanes_aborted _ _ W q) as Hm.
  unfold is_aborted in *.
  assert (is_Some (signal_aborted q s')) as [b' Hb'].
  { unfold signal_aborted. rewrite fmap_is_Some. apply lookup_lt_is_Some_2.
    by rewrite (wanes_length _ _ W). }
  assert (is_Some (signal_aborted q s)) as [b Hb].
  { unfold signal_aborted. rewrite fmap_is_Some. by apply lookup_lt_is_Some_2. }
  rewrite Hb', Hb in *. destruct b', b; try done.
  - by specialize (Hback eq_refl).
  - by specialize (Hm eq_refl).
Qed.

(** [abort()] returns in every well-formed store: a budget of one more
    than the number of controllers that are not aborted is enough for the
    whole cascade.  The controller is then aborted, its event has fired
    once, and the store is well formed again. *)
Theorem abort_cascade_returns (s : State) (c : nat) :
  tokens_ok s -> c < length (controllers s) ->
  exists s', abort (S (live s)) c s = Some s' /\
             tokens_ok s' /\ is_aborted c s' /\ fired c s' = 1.
Proof.
  intros Hok Hc.
  destruct (abort_returns (S (live s)) c s) as [s' E];
    [exact (ok_child _ Hok)|done|lia|].
  exists s'. pose proof (abort_tokens_ok _ _ _ _ E Hok) as Hok'.
  pose proof (abort_is_aborted _ _ _ _ E) as Ha.
  split; [done|]. split; [done|]. split; [done|].
  by apply (ok_fired _ Hok' c true).
Qed.

Lemma abort_cascade_returns_witness :
  exists s', abort (S (live (chainAbort 0 1 two_controllers))) 0
               (chainAbort 0 1 two_controllers) = Some s' /\
             tokens_ok s' /\ is_aborted 0 s' /\ fired 0 s' = 1.
Proof.
  apply (abort_cascade_returns (chainAbort 0 1 two_controllers) 0).
  - apply tokens_ok_chainAbort; simpl; try lia.
    do 2 apply tokens_ok_new_AbortController. apply tokens_ok_empty.
  - rewrite chainAbort_length. simpl. lia.
Defined.

(** [abort()] only cancels: it closes no subscriber, delivers and reports
    nothing, touches no variable of an operator, registers no listener and
    lowers no flag; a Subject can only lose subscribers by it. *)
Theorem abort_only_cancels (fuel : nat) (c : nat) (s s' : State) :
  abort fuel c s = Some s' ->
  subscribers s' = subscribers s /\
  variables s' = variables s /\
  log s' = log s /\
  (forall q, is_aborted q s -> is_aborted q s') /\
  (forall q e, e ∈ listeners_of q s' -> e ∈ listeners_of q s) /\
  (forall j x', subjects s' !! j = Some x' ->
     exists x, subjects s !! j = Some x /\
               subject_closed x' = subject_closed x /\
               forall k, k ∈ _subscribers x' -> k ∈ _subscribers x).
Proof.
  intros E. pose proof (abort_wanes _ _ _ _ E) as W.
  split; [apply W|]. split; [apply W|]. split; [apply W|].
  split; [apply W|]. split.
  - intros q e. by apply wanes_elem.
  - intros j x' Hx'. destruct (wanes_subjects _ _ W j x' Hx') as (x & Hx & Hc & Hs).
    exists x. split; [done|]. split; [done|].
    intros k Hk. by eapply elem_of_sublist.
Qed.

Lemma abort_only_cancels_witness :
  exists s',
    abort 3 0 (chainAbort 0 1 two_controllers) = Some s' /\
    subscribers s' = subscribers (chainAbort 0 1 two_controllers) /\
    variables s' = variables (chainAbort 0 1 two_controllers) /\
    log s' = log (chainAbort 0 1 two_controllers) /\
    (forall q, is_aborted q (chainAbort 0 1 two_controllers) -> is_aborted q s') /\
    (forall q e, e ∈ listeners_of q s' ->
                 e ∈ listeners_of q (chainAbort 0 1 two_controllers)) /\
    (forall j x', subjects s' !! j = Some x' ->
       exists x, subjects (chainAbort 0 1 two_controllers) !! j = Some x /\
                 subject_closed x' = subject_closed x /\
                 forall k, k ∈ _subscribers x' -> k ∈ _subscribers x).
Proof.
  eexists. split; [vm_compute; reflexivity|].
  apply (abort_only_cancels 3 0 (chainAbort 0 1 two_controllers)).
  vm_compute. reflexivity.
Defined.

(** [abort()] travels down the handlers only: a controller that is not
    reached from the aborted one through registered handlers keeps its
    flag. *)
Theorem abort_spares_unrelated (fuel : nat) (c q : nat) (s s' : State) :
  tokens_ok s -> q < length (controllers s) ->
  abort fuel c s = Some s' ->
  ~ reaches s c q ->
  signal_aborted q s' = signal_aborted q s.
Proof.
  intros Hok Hq E Hnr. destruct (abort_descends _ _ _ _ E Hok) as [W D].
  apply signal_aborted_cases; [done..|].
  intros Ha. destruct (D q Ha) as [|R]; [done|]. by destruct Hnr.
Qed.

(** Three controllers, the second chained to the first. *)
Definition three_controllers : State :=
  chainAbort 0 1 (new_AbortController two_controllers).2.

Lemma tokens_ok_three_controllers : tokens_ok three_controllers.
Proof.
  apply tokens_ok_chainAbort; simpl; try lia.
  do 3 apply tokens_ok_new_AbortController. apply tokens_ok_empty.
Qed.

Lemma abort_spares_unrelated_witness :
  exists s', abort 3 0 three_controllers = Some s' /\
             signal_aborted 2 s' = signal_aborted 2 three_controllers.
Proof.
  eexists. split; [vm_compute; reflexivity|].
  apply (abort_spares_unrelated 3 0 2 three_controllers).
  - apply tokens_ok_three_controllers.
  - vm_compute. lia.
  - vm_compute. reflexivity.
  - intros H. inversion H as [|x f z y Hin R]; subst.
    vm_compute in Hin. apply list_elem_of_singleton in Hin.
    injection Hin as -> ->.
    inversion R as [|x f z y Hin' _]; subst.
    vm_compute in Hin'. apply list_elem_of_singleton in Hin'. done.
Defined.

(** Every registered handler aborts a controller that is not aborted yet
    (what [chainAbort] on a fresh child sets up, and what the cleanup
    listeners keep up). *)
Definition handlers_live (s : State) : Prop :=
  forall x f z, (f, ChainHandler z) ∈ listeners_of x s ->
                signal_aborted z s = Some false.

Record cascades (s s' : State) : Prop := mkCascades {
  cascades_kept : kept s s';
  cascades_down : forall x f z,
      (f, ChainHandler z) ∈ listeners_of x s ->
      ~ is_aborted x s -> is_aborted x s' -> is_aborted z s'
}.

Lemma cascades_refl s : cascades s s.
Proof. split; [apply kept_refl|]. intros x f z _ Hn Ha. by destruct Hn. Qed.

Lemma cascades_trans s1 s2 s3 : cascades s1 s2 -> cascades s2 s3 -> cascades s1 s3.
Proof.
  intros [K1 D1] [K2 D2]. split; [by eapply kept_trans|].
  intros x f z Hin Hn Ha.
  destruct (decide (signal_aborted x s2 = Some true)) as [Hx|Hx].
  - apply (wanes_aborted _ _ (kept_wanes _ _ K2)). eauto.
  - destruct (kept_handlers _ _ K1 _ _ _ Hin) as [Hin2|Hz].
    + eauto.
    + by apply (wanes_aborted _ _ (kept_wanes _ _ K2)).
Qed.

Lemma abort_cascades fuel c s s' :
  abort fuel c s = Some s' -> tokens_ok s -> cascades s s'.
Proof.
  revert c s s'. induction fuel as [|fuel IH]; intros c s s' E Hok; [done|].
  pose proof (abort_kept _ _ _ _ E Hok) as K. split; [done|].
  pose proof E as E0.
  unfold abort in E; fold abort in E.
  destruct (controllers s !! c) as [a|] eqn:Hc; [|done].
  simpl in E. destruct (ac_aborted a) eqn:Ha.
  { simplify_eq. intros x f z _ Hn Hx. by destruct Hn. }
  set (s1 := set_controllers _ s) in E.
  assert (cascades s1 s') as [_ D].
  { eapply (dispatchEvent_inv fuel c cascades)
      with (full := ac_listeners a) (rest := ac_listeners a);
      try exact E; eauto using cascades_refl, cascades_trans.
    - intros f l t t' Hokt Hct Hin El.
      destruct l as [y|q g|j b]; [simpl in El; eauto|..];
        (split; [eapply run_listener_kept; eauto using abort_kept|]);
        simpl in El; simplify_eq; intros x f' z _ Hn Hx; destruct Hn.
      + unfold is_aborted in *.
        by rewrite signal_aborted_removeEventListener in Hx.
      + done.
    - by apply tokens_ok_raise.
    - by apply is_aborted_raise.
    - pose proof (ok_nodup _ Hok c) as Hn. unfold listeners_of in Hn.
      by rewrite Hc in Hn.
    - unfold s1. rewrite listeners_of_raise by done.
      unfold listeners_of. by rewrite Hc. }
  intros x f z Hin Hn Hx.
  destruct (decide (x = c)) as [->|Hne].
  - eapply abort_runs_handler; eauto.
    unfold signal_aborted. by rewrite Hc, <- Ha.
  - eapply D; eauto.
    + unfold s1. by rewrite listeners_of_raise.
    + unfold is_aborted, signal_aborted, s1. simpl.
      by rewrite list_lookup_insert_ne.
Qed.

Lemma abort_reaches fuel c q s s' :
  tokens_ok s -> handlers_live s ->
  signal_aborted c s = Some false ->
  reaches s c q ->
  abort fuel c s = Some s' ->
  is_aborted q s'.
Proof.
  intros Hok Hlive Hc R E.
  destruct (abort_cascades _ _ _ _ E Hok) as [_ D].
  pose proof (abort_is_aborted _ _ _ _ E) as Ha. clear E.
  revert Hc Ha. induction R as [x|x f z y Hin R IH]; intros Hx Ha; [done|].
  apply IH; [by eapply Hlive|].
  eapply D; eauto. unfold is_aborted. congruence.
Qed.

(** Aborting a controller aborts every controller below it: in a store
    where no handler of a chain points at an aborted controller, whatever
    is reached from the controller through the handlers that [chainAbort]
    registered is aborted when [abort()] returns. *)
Theorem abort_reaches_every_descendant (fuel : nat) (c q : nat) (s s' : State) :
  tokens_ok s -> handlers_live s ->
  signal_aborted c s = Some false ->
  reaches s c q ->
  abort fuel c s = Some s' ->
  is_aborted q s'.
Proof. apply abort_reaches. Qed.

(** Three controllers in a chain: 0 above 1 above 2. *)
Definition chain_of_three : State :=
  chainAbort 1 2 three_controllers.

Lemma abort_reaches_every_descendant_witness :
  exists s', abort 4 0 chain_of_three = Some s' /\ is_aborted 2 s'.
Proof.
  eexists. split; [vm_compute; reflexivity|].
  apply (abort_reaches_every_descendant 4 0 2 chain_of_three).
  - apply tokens_ok_chainAbort; [vm_compute; lia..|].
    apply tokens_ok_three_controllers.
  - intros [|[|[|x]]] f z H; vm_compute in H;
      rewrite ?list_elem_of_singleton, ?elem_of_cons, ?elem_of_nil in H;
      try done; set_solver.
  - reflexivity.
  - eapply (reaches_step _ 0 0 1); [vm_compute; set_solver|].
    eapply (reaches_step _ 1 2 2); [vm_compute; set_solver|]. constructor.
  - vm_compute. reflexivity.
Defined.

(** ** [Observable.from] on an iterable *)

(** An observer whose [next] handler aborts nothing. *)
Definition quiet_next (o : UserObserver) : Prop :=
  forall h v, uo_next o = Some h -> h v = [].

Lemma deliveries_nexts_app o vs calls :
  deliveries o ((Next <$> vs) ++ calls)
  = deliveries o (Next <$> vs) ++ deliveries o calls.
Proof.
  induction vs as [|v vs IH]; simpl; [done|].
  rewrite <- app_assoc. f_equal. exact IH.
Qed.

Lemma quiet_next_controllers o others c fuel s s' v :
  quiet_next o -> holds o others c false s ->
  run (S fuel) (method (length others) (Next v)) s = Some s' ->
  controllers s' = controllers s.
Proof.
  intros Hq H. pose proof (holds_lookup _ _ _ _ _ H) as Hk.
  rewrite run_S. simpl. unfold SafeSubscriber_next_body. rewrite Hk. simpl.
  destruct (uo_next o) as [h|] eqn:Hn; [|by intros [= <-]].
  rewrite (Hq h v Hn). simpl. by intros [= <-].
Qed.

(** The loop of [from]: it stops at the first turn that finds the signal
    aborted. *)
Lemma from_loop_delivers o others c fuel values s :
  scripts_within (S c) o ->
  holds o others c false s -> S c < fuel ->
  exists s' delivered,
    from_loop (run (S fuel)) values (length others) c s = Some s' /\
    holds o others c false s' /\
    delivered `prefix_of` values /\
    log s' = log s ++ deliveries o (Next <$> delivered) /\
    (quiet_next o -> signal_aborted c s = Some false ->
     delivered = values /\ signal_aborted c s' = Some false).
Proof.
  intros Hscripts H Hf. revert s H.
  induction values as [|v values IH]; intros s H; simpl.
  - exists s, []. simpl. rewrite app_nil_r. done.
  - assert (is_Some (signal_aborted c s)) as [a Ha].
    { unfold signal_aborted. rewrite fmap_is_Some. apply lookup_lt_is_Some.
      destruct H as (_ & -> & _). lia. }
    rewrite Ha. simpl. destruct a.
    + exists s, []. simpl. rewrite app_nil_r.
      split; [done|]. split; [done|]. split; [apply prefix_nil|].
      split; [done|]. by intros _ [=].
    + destruct (open_next o others c Hscripts fuel s v H Hf) as (s1 & E1 & H1 & L1).
      pose proof E1 as E1'. simpl in E1'. rewrite E1'. simpl.
      destruct (IH s1 H1) as (s' & delivered & E & H' & Hp & L & Q).
      exists s', (v :: delivered). split; [done|]. split; [done|].
      split; [by apply prefix_cons|]. split.
      * rewrite L, L1. simpl. by rewrite app_nil_r, <- app_assoc.
      * intros Hq _.
        pose proof (quiet_next_controllers _ _ _ _ _ _ _ Hq H E1) as Hc.
        destruct (Q Hq) as [-> Ha'].
        { unfold signal_aborted. by rewrite Hc. }
        done.
Qed.

Lemma from_subscribe (s0 : State) (o : UserObserver) (signal : option nat)
    (values : list value) :
  tokens_ok s0 ->
  (forall p, signal = Some p -> p < length (controllers s0)) ->
  scripts_within (S (length (controllers s0))) o ->
  let k := length (subscribers s0) in
  let c := length (controllers s0) in
  exists s delivered,
    run (S (S (S (S c))))
      (subscribe (FromIterable values) (PartialObserver o) signal) s0 = Some s /\
    delivered `prefix_of` values /\
    (quiet_next o -> delivered = values) /\
    log s = log s0 ++ deliveries o ((Next <$> delivered) ++ [Complete]) /\
    subscribers s = subscribers s0 ++ [mkSafeSubscriber true (PartialObserver o) c] /\
    is_aborted c s.
Proof.
  intros Hok Hsig Hscripts k c.
  set (s1 := (new_AbortController s0).2).
  set (s2 := match signal with Some p => chainAbort p c s1 | None => s1 end).
  set (s3 := (new_SafeSubscriber (PartialObserver o) c s2).2).
  assert (tokens_ok s2 /\ length (controllers s2) = S c /\
          subscribers s2 = subscribers s0 /\ log s2 = log s0 /\
          signal_aborted c s2 = Some false)
    as (Hok2 & Hl2 & Hs2 & Hlog2 & Ha2).
  { assert (tokens_ok s1) as Hok1 by (by apply tokens_ok_new_AbortController).
    assert (length (controllers s1) = S c) as Hl1.
    { unfold s1. simpl. rewrite length_app. simpl. unfold c. lia. }
    assert (signal_aborted c s1 = Some false) as Ha1.
    { unfold signal_aborted, s1. simpl. rewrite lookup_app_r by (unfold c; lia).
      by rewrite Nat.sub_diag. }
    unfold s2. destruct signal as [p|]; [|done].
    split; [|split; [|split; [done|split; [done|]]]].
    - apply tokens_ok_chainAbort; rewrite ?Hl1; [|lia|done].
      specialize (Hsig p eq_refl). fold c in Hsig. lia.
    - by rewrite chainAbort_length.
    - by rewrite chainAbort_signal_aborted. }
  assert (holds o (subscribers s0) c false s3) as H3.
  { split; [by apply (tokens_ok_frame s2)|]. split; [done|].
    unfold s3. simpl. by rewrite Hs2. }
  destruct (from_loop_delivers o (subscribers s0) c (S (S c)) values s3
              Hscripts H3) as (s4 & delivered & E4 & H4 & Hp & L4 & Q); [lia|].
  destruct (open_terminal o (subscribers s0) c Hscripts (S (S c)) s4 Complete H4)
    as (s & E & H & A & L); [lia|done|].
  exists s, delivered.
  split.
  { rewrite run_S. unfold body, subscribe_body.
    change (new_AbortController s0) with (c, s1).
    cbv beta iota zeta.
    change (match signal with Some p => chainAbort p c s1 | None => s1 end)
      with s2.
    change (new_SafeSubscriber (PartialObserver o) c s2) with
      (length (subscribers s2), s3).
    cbv beta iota zeta. rewrite Hs2. unfold init.
    fold k. fold k in E4, E. rewrite E4. simpl. exact E. }
  split; [done|]. split.
  { intros Hq. by apply Q. }
  split.
  { rewrite deliveries_nexts_app, L, L4. unfold s3. simpl.
    by rewrite Hlog2, app_assoc. }
  split; [apply H|done].
Qed.



(** When the [next] handler of the observer aborts nothing, subscribing
    to [Observable.from(iterable)] delivers every value of the iteration,
    in order, and then [complete], whatever the parent signal: also when it
    is already aborted, since [chainAbort] only listens for an ["abort"]
    event to come. *)
Theorem from_delivers_every_value
    (s0 : State) (o : UserObserver) (signal : option nat) (values : list value) :
  tokens_ok s0 ->
  (forall p, signal = Some p -> p < length (controllers s0)) ->
  scripts_within (S (length (controllers s0))) o ->
  quiet_next o ->
  exists fuel s,
    run fuel (subscribe (FromIterable values) (PartialObserver o) signal) s0
      = Some s /\
    log s = log s0 ++ deliveries o ((Next <$> values) ++ [Complete]).
Proof.
  intros Hok Hsig Hscripts Hq.
  destruct (from_subscribe s0 o signal values Hok Hsig Hscripts)
    as (s & delivered & E & _ & Hv & L & _).
  rewrite (Hv Hq) in L. by eexists _, s.
Qed.

(** The parent signal is aborted before [subscribe] is called. *)
Definition aborted_parent : State :=
  set_controllers (fun _ => [mkAbortController true 1 []]) empty.

Lemma tokens_ok_aborted_parent : tokens_ok aborted_parent.
Proof.
  split; unfold listeners_of, signal_aborted, fired; simpl.
  - intros [|c] b; simpl; [by intros [= <-]|done].
  - intros [|c] f l; simpl; set_solver.
  - intros [|c] f q h; simpl; set_solver.
  - intros [|c]; simpl; constructor.
  - intros [|x] f q h l; simpl; set_solver.
  - intros [|c] f x; simpl; set_solver.
Qed.

Lemma from_delivers_every_value_witness :
  exists fuel s,
    run fuel (subscribe (FromIterable one_two_three) (logger 7) (Some 0))
      aborted_parent = Some s /\
    log s = [Delivered 7 (Next (JNumber 1)); Delivered 7 (Next (JNumber 2));
             Delivered 7 (Next (JNumber 3)); Delivered 7 Complete].
Proof.
  apply (from_delivers_every_value aborted_parent
           (mkUserObserver 7 (Some (fun _ => [])) (Some (fun _ => [])) (Some []))
           (Some 0) one_two_three).
  - apply tokens_ok_aborted_parent.
  - intros p [= <-]. simpl. lia.
  - repeat split; simpl; intros *; intros [= <-]; set_solver by lia.
  - intros h v [= <-]. done.
Defined.

(** ** [Observable.from] on a thenable *)

(** How a thenable settles: it calls one of the two reactions it was
    given.  A thenable of the user may call them again, or both. *)
Inductive Settlement :=
  | Fulfilled (v : value)
  | Rejected (err : value).

Definition reaction (subscriber : nat) (r : Settlement) : Call :=
  match r with
  | Fulfilled v => onfulfilled subscriber v
  | Rejected err => onrejected subscriber err
  end.

(** What the reaction called first passes to the subscriber. *)
Definition settled (reactions : list Settlement) : list Notification :=
  match reactions with
  | [] => []
  | Fulfilled v :: _ => [Next v; Complete]
  | Rejected err :: _ => [Error err]
  end.

Lemma closed_reactions o others c fuel s reactions :
  holds o others c true s ->
  run_all (S (S fuel)) (reaction (length others) <$> reactions) s = Some s.
Proof.
  intros H. induction reactions as [|r reactions IH]; [done|].
  cbn [fmap list_fmap run_all].
  assert (run (S (S fuel)) (reaction (length others) r) s = Some s) as ->.
  { pose proof (fun n => closed_method_noop o others c fuel s n H) as E.
    destruct r as [v|err]; rewrite run_S; simpl.
    - pose proof (E (Next v)) as E1. simpl in E1. rewrite E1. simpl.
      apply (E Complete).
    - apply (E (Error err)). }
  exact IH.
Qed.

Lemma open_reactions o others c fuel s reactions :
  scripts_within (S c) o ->
  holds o others c false s -> S c < fuel ->
  exists s', run_all (S (S fuel)) (reaction (length others) <$> reactions) s
               = Some s' /\
             holds o others c (bool_decide (reactions <> [])) s' /\
             log s' = log s ++ deliveries o (settled reactions).
Proof.
  intros Hscripts H Hf. destruct reactions as [|r reactions].
  { exists s. simpl. by rewrite app_nil_r. }
  cbn [fmap list_fmap run_all].
  assert (exists s1, run (S (S fuel)) (reaction (length others) r) s = Some s1 /\
                     holds o others c true s1 /\
                     log s1 = log s ++ deliveries o (settled (r :: reactions)))
    as (s1 & -> & H1 & L1).
  { destruct r as [v|err]; rewrite run_S; simpl.
    - destruct (open_next o others c Hscripts fuel s v H Hf) as (s1 & E1 & H1 & L1).
      simpl in E1. rewrite E1. simpl.
      destruct (open_terminal o others c Hscripts fuel s1 Complete H1 Hf)
        as (s2 & E2 & H2 & _ & L2); [done|].
      simpl in E2. exists s2. split; [done|]. split; [done|].
      rewrite L2, L1. simpl. by rewrite app_nil_r, <- app_assoc.
    - destruct (open_terminal o others c Hscripts fuel s (Error err) H Hf)
        as (s1 & E1 & H1 & _ & L1); [done|].
      simpl in E1. by exists s1. }
  exists s1. simpl. split; [|done].
  by apply (closed_reactions o others c).
Qed.



(** ** [Subject] *)

(** [this._subscribers] of a Subject. *)
Definition subscribers_of (subject : nat) (s : State) : list nat :=
  match subjects s !! subject with
  | Some x => _subscribers x
  | None => []
  end.

(** The store with more entries in the log. *)
Definition records (es : list Entry) (s : State) : State :=
  foldl (fun s e => record e s) s es.

Lemma records_app es es' s : records (es ++ es') s = records es' (records es s).
Proof. apply foldl_app. Qed.

Lemma log_records es s : log (records es s) = log s ++ es.
Proof.
  revert s. induction es as [|e es IH]; intros s; simpl.
  - by rewrite app_nil_r.
  - rewrite IH. simpl. by rewrite <- app_assoc.
Qed.

Lemma subscribers_records es s : subscribers (records es s) = subscribers s.
Proof. revert s. induction es as [|e es IH]; intros s; simpl; [done|by rewrite IH]. Qed.

Lemma subjects_records es s : subjects (records es s) = subjects s.
Proof. revert s. induction es as [|e es IH]; intros s; simpl; [done|by rewrite IH]. Qed.

Lemma controllers_records es s : controllers (records es s) = controllers s.
Proof. revert s. induction es as [|e es IH]; intros s; simpl; [done|by rewrite IH]. Qed.

(** What subscriber [k] passes on when its [next] is called: nothing when
    it is closed. *)
Definition told (s : State) (v : value) (k : nat) : list Entry :=
  match subscribers s !! k with
  | Some b =>
      if _closed b then []
      else match _destination b with
           | PartialObserver o => deliveries o [Next v]
           | _ => []
           end
  | None => []
  end.

(** Subscriber [k] belongs to an observer of the user whose [next] handler
    aborts nothing. *)
Definition plain (s : State) (k : nat) : Prop :=
  exists b o, subscribers s !! k = Some b /\
              _destination b = PartialObserver o /\ quiet_next o.

Lemma told_records es s v k : told (records es s) v k = told s v k.
Proof. unfold told. by rewrite subscribers_records. Qed.

Lemma plain_records es s k : plain s k -> plain (records es s) k.
Proof. unfold plain. by rewrite subscribers_records. Qed.

Lemma SafeSubscriber_next_plain fuel s k v :
  plain s k ->
  run (S fuel) (SafeSubscriber_next k v) s = Some (records (told s v k) s).
Proof.
  intros (b & o & Hk & Hd & Hq). rewrite run_S. simpl.
  unfold SafeSubscriber_next_body, told. rewrite Hk. simpl.
  destruct (_closed b); [done|]. rewrite Hd. simpl.
  destruct (uo_next o) as [h|] eqn:Hn; [|done].
  by rewrite (Hq h v Hn).
Qed.

Lemma Subject_next_loop_plain n j x v i s :
  subjects s !! j = Some x ->
  (forall k, k ∈ _subscribers x -> plain s k) ->
  length (_subscribers x) - i <= n ->
  run (S (S n)) (Subject_next_loop j i v) s
  = Some (records (concat (told s v <$> drop i (_subscribers x))) s).
Proof.
  revert i s. induction n as [|n IH]; intros i s Hj Hp Hn;
    rewrite run_S; simpl; unfold Subject_next_loop_body; rewrite Hj; simpl;
    destruct (_subscribers x !! i) as [k|] eqn:Hi.
  - apply lookup_lt_Some in Hi. lia.
  - apply lookup_ge_None in Hi. by rewrite drop_ge.
  - rewrite SafeSubscriber_next_plain by (apply Hp; by eapply list_elem_of_lookup_2).
    simpl. rewrite (IH (S i)).
    + rewrite (drop_S _ _ _ Hi). simpl. rewrite records_app.
      do 3 f_equal. apply list_fmap_ext. intros _ k' _. apply told_records.
    + by rewrite subjects_records.
    + intros k' Hk'. by apply plain_records, Hp.
    + apply lookup_lt_Some in Hi. lia.
  - apply lookup_ge_None in Hi. by rewrite drop_ge.
Qed.


(** A Subject with two subscribers that record what they are told. *)
Definition two_loggers : State :=
  default empty
    (run_all 3 [subscribe (SubjectInit 0) (logger 1) None;
                subscribe (SubjectInit 0) (logger 2) None]
       (new_Subject empty).2).


(** The method of a Subject that a notification stands for. *)
Definition Subject_method (subject : nat) (n : Notification) : Call :=
  match n with
  | Next v => Subject_next subject v
  | Error err => Subject_error subject err
  | Complete => Subject_complete subject
  end.

Lemma closed_Subject_method fuel s j x n :
  subjects s !! j = Some x -> subject_closed x = true ->
  run (S fuel) (Subject_method j n) s = Some s.
Proof.
  intros Hj Hc.
  destruct n; rewrite run_S; simpl;
    unfold Subject_next_body, Subject_error_body, Subject_complete_body;
    by rewrite Hj; simpl; rewrite Hc.
Qed.

(** A closed Subject is silent.  Its [next], [error] and [complete] do
    nothing, and an observer that subscribes to it is added to the list
    of subscribers but is never told anything, not even [complete] or the
    [error] that closed the Subject. *)
Theorem closed_Subject_is_silent (s : State) (subject : nat) (x : Subject)
    (observer : Observer) (signal : option nat) (calls : list Notification) :
  subjects s !! subject = Some x ->
  subject_closed x = true ->
  exists fuel s1,
    run fuel (subscribe (SubjectInit subject) observer signal) s = Some s1 /\
    subscribers_of subject s1 = _subscribers x ++ [length (subscribers s)] /\
    log s1 = log s /\
    run_all fuel (Subject_method subject <$> calls) s1 = Some s1.
Proof.
  intros Hj Hc.
  set (s2 := match signal with
             | Some p => chainAbort p (length (controllers s)) (new_AbortController s).2
             | None => (new_AbortController s).2
             end).
  assert (subjects s2 = subjects s /\ log s2 = log s /\
          subscribers s2 = subscribers s) as (Hs2 & Hl2 & Hb2).
  { unfold s2. by destruct signal. }
  set (s3 := (new_SafeSubscriber observer (length (controllers s)) s2).2).
  set (s4 := set_subjects
               (<[subject := mkSubject (_subscribers x ++ [length (subscribers s)])
                                        (subject_closed x)]>) s3).
  set (s5 := addEventListener (length (controllers s)) (closures s4)
               (SubjectHandler subject (length (subscribers s)))
               (new_closure s4).2).
  assert (run 1 (subscribe (SubjectInit subject) observer signal) s = Some s5) as E.
  { rewrite run_S. unfold body, subscribe_body.
    change (new_AbortController s) with (length (controllers s), (new_AbortController s).2).
    cbv beta iota zeta. fold s2.
    change (new_SafeSubscriber observer (length (controllers s)) s2)
      with (length (subscribers s2), s3).
    cbv beta iota zeta. unfold init.
    assert (subjects s3 !! subject = Some x) as -> by (simpl; by rewrite Hs2).
    simpl. by rewrite Hb2. }
  assert (subjects s5 !! subject
          = Some (mkSubject (_subscribers x ++ [length (subscribers s)])
                            (subject_closed x))) as Hj5.
  { simpl. rewrite Hs2. apply list_lookup_insert_eq. by eapply lookup_lt_Some. }
  exists 1, s5. split; [done|]. split; [|split].
  - unfold subscribers_of. by rewrite Hj5.
  - simpl. done.
  - induction calls as [|n calls IH]; [done|]. cbn [fmap list_fmap run_all].
    rewrite (closed_Subject_method 0 s5 subject _ n Hj5 Hc). exact IH.
Qed.

(** A Subject that has completed. *)
Definition completed_Subject : State :=
  default empty (run 2 (Subject_complete 0) (new_Subject empty).2).

Lemma closed_Subject_is_silent_witness :
  exists fuel s1,
    run fuel (subscribe (SubjectInit 0) (logger 1) None) completed_Subject
      = Some s1 /\
    subscribers_of 0 s1 = [0] /\
    log s1 = [] /\
    run_all fuel (Subject_method 0 <$> [Next (JNumber 1); Complete]) s1 = Some s1.
Proof.
  apply (closed_Subject_is_silent completed_Subject 0 (mkSubject [] true)
           (logger 1) None [Next (JNumber 1); Complete]); reflexivity.
Defined.

(** *** Unsubscribing from a Subject *)

Lemma wanes_subscribers_of j s s' :
  wanes s s' -> subscribers_of j s' `sublist_of` subscribers_of j s.
Proof.
  intros W. unfold subscribers_of.
  destruct (subjects s' !! j) as [x'|] eqn:E; [|apply sublist_nil_l].
  destruct (wanes_subjects _ _ W _ _ E) as (x & -> & _ & H). done.
Qed.

Lemma not_elem_of_remove_first k l : NoDup l -> k ∉ remove_first k l.
Proof.
  induction 1 as [|y l Hy Hl IH]; simpl; [apply not_elem_of_nil|].
  case_decide as E; [by subst|]. rewrite not_elem_of_cons. done.
Qed.

Lemma subscribers_of_Subject_handler j k s :
  NoDup (subscribers_of j s) -> k ∉ subscribers_of j (Subject_handler j k s).
Proof.
  unfold subscribers_of, Subject_handler. simpl. intros Hn.
  rewrite list_lookup_alter_eq.
  destruct (subjects s !! j) as [x|]; simpl; [|apply not_elem_of_nil].
  by apply not_elem_of_remove_first.
Qed.

(** A handler of a Subject that is registered when the event is dispatched
    is run. *)
Lemma dispatchEvent_runs_Subject_handler fuel x rest s s' f j k :
  dispatchEvent (abort fuel) x rest s = Some s' ->
  (f, SubjectHandler j k) ∈ rest ->
  f ∈ (listeners_of x s').*1 ->
  NoDup (subscribers_of j s) ->
  k ∉ subscribers_of j s'.
Proof.
  revert s. induction rest as [|[g l] rest IH]; simpl; intros s H Hin Hreg Hn.
  - by apply elem_of_nil in Hin.
  - destruct (registered x g s) eqn:Hr.
    + destruct (run_listener (abort fuel) l s) as [s1|] eqn:E; [|done].
      simpl in H. apply elem_of_cons in Hin as [Heq|Hin].
      * injection Heq as <- <-. simpl in E. injection E as <-.
        intros Hk. eapply subscribers_of_Subject_handler; [exact Hn|].
        eapply elem_of_sublist; [exact Hk|].
        by apply wanes_subscribers_of, (dispatchEvent_wanes _ _ _ _ _ H).
      * eapply IH; eauto.
        eapply sublist_NoDup; [exact Hn|].
        by apply wanes_subscribers_of, (run_listener_wanes _ _ _ _ E).
    + apply elem_of_cons in Hin as [Heq|Hin]; [|eauto].
      injection Heq as <- <-. exfalso.
      assert (registered x f s = true); [|congruence].
      apply registered_spec. eapply elem_of_sublist; [exact Hreg|].
      apply fmap_sublist. by apply (dispatchEvent_wanes _ _ _ _ _ H).
Qed.

(** Between two stores, the handlers of Subjects on the controllers that
    were aborted in between have been run. *)
Record unsubscribes (s s' : State) : Prop := mkUnsubscribes {
  unsubscribes_kept : kept s s';
  unsubscribes_runs : forall x f j k,
    (f, SubjectHandler j k) ∈ listeners_of x s ->
    NoDup (subscribers_of j s) ->
    ~ is_aborted x s -> is_aborted x s' -> k ∉ subscribers_of j s'
}.

Lemma unsubscribes_refl s : unsubscribes s s.
Proof. split; [apply kept_refl|]. intros x f j k _ _ Hn Ha. by destruct Hn. Qed.

Lemma unsubscribes_trans s1 s2 s3 :
  unsubscribes s1 s2 -> unsubscribes s2 s3 -> unsubscribes s1 s3.
Proof.
  intros [K1 D1] [K2 D2]. split; [by eapply kept_trans|].
  intros x f j k Hin Hnd Hn Ha.
  destruct (decide (signal_aborted x s2 = Some true)) as [Hx|Hx].
  - intros Hk. eapply (D1 x f j k); eauto.
    eapply elem_of_sublist; [exact Hk|].
    apply wanes_subscribers_of, K2.
  - eapply (D2 x f j k); eauto.
    + by apply (kept_others _ _ K1).
    + eapply sublist_NoDup; [exact Hnd|]. apply wanes_subscribers_of, K1.
Qed.

Lemma abort_unsubscribes fuel c s s' :
  abort fuel c s = Some s' -> tokens_ok s -> unsubscribes s s'.
Proof.
  revert c s s'. induction fuel as [|fuel IH]; intros c s s' E Hok; [done|].
  pose proof (abort_kept _ _ _ _ E Hok) as K. split; [done|].
  unfold abort in E; fold abort in E.
  destruct (controllers s !! c) as [a|] eqn:Hc; [|done].
  simpl in E. destruct (ac_aborted a) eqn:Ha.
  { simplify_eq. intros x f j k _ _ Hn Hx. by destruct Hn. }
  set (s1 := set_controllers _ s) in E.
  assert (subscribers_of_s1 : forall j, subscribers_of j s1 = subscribers_of j s)
    by done.
  assert (unsubscribes s1 s') as [_ D].
  { eapply (dispatchEvent_inv fuel c unsubscribes)
      with (full := ac_listeners a) (rest := ac_listeners a);
      try exact E; eauto using unsubscribes_refl, unsubscribes_trans.
    - intros f l t t' Hokt Hct Hin El.
      destruct l as [y|q g|j b]; [simpl in El; eauto|..];
        (split; [eapply run_listener_kept; eauto using abort_kept|]);
        simpl in El; simplify_eq; intros x f' j' k' _ _ Hn Hx; destruct Hn.
      + unfold is_aborted in *.
        by rewrite signal_aborted_removeEventListener in Hx.
      + done.
    - by apply tokens_ok_raise.
    - by apply is_aborted_raise.
    - pose proof (ok_nodup _ Hok c) as Hn. unfold listeners_of in Hn.
      by rewrite Hc in Hn.
    - unfold s1. rewrite listeners_of_raise by done.
      unfold listeners_of. by rewrite Hc. }
  intros x f j k Hin Hnd Hn Hx.
  destruct (decide (x = c)) as [->|Hne].
  - eapply (dispatchEvent_runs_Subject_handler fuel c (ac_listeners a) s1 s' f j k);
      eauto.
    + unfold listeners_of in Hin. by rewrite Hc in Hin.
    + apply list_elem_of_fmap. exists (f, SubjectHandler j k). split; [done|].
      by apply (kept_others _ _ K).
  - eapply D; eauto.
    + unfold s1. by rewrite listeners_of_raise.
    + unfold is_aborted, signal_aborted, s1. simpl.
      by rewrite list_lookup_insert_ne.
Qed.

Lemma abort_runs_Subject_handler fuel c x f j k s s' :
  tokens_ok s -> handlers_live s ->
  signal_aborted c s = Some false ->
  reaches s c x ->
  (f, SubjectHandler j k) ∈ listeners_of x s ->
  NoDup (subscribers_of j s) ->
  abort fuel c s = Some s' ->
  k ∉ subscribers_of j s'.
Proof.
  intros Hok Hlive Hc R Hin Hnd E.
  eapply (unsubscribes_runs _ _ (abort_unsubscribes _ _ _ _ E Hok)); eauto.
  - destruct R as [x|x g z y Hg R]; [unfold is_aborted; congruence|].
    assert (signal_aborted y s = Some false) as Hy; [|unfold is_aborted; congruence].
    clear Hin Hc E. revert Hg. revert x g.
    induction R as [z|z g' z' y Hg' R IH]; intros x g Hg; [by eapply Hlive|].
    by eapply IH.
  - by eapply abort_reaches.
Qed.

(** [const handler = ..; signal.addEventListener("abort", handler)] of
    the Subject keeps the store well formed. *)
Lemma tokens_ok_Subject_listens c j k s :
  c < length (controllers s) -> tokens_ok s ->
  tokens_ok (addEventListener c (closures s) (SubjectHandler j k) (new_closure s).2).
Proof.
  intros Hc Hok.
  assert (tokens_ok (new_closure s).2) as Hok'.
  { destruct Hok as [H1 H2 H3 H4 H5 H6]. split; try done.
    - intros q f l H. simpl. pose proof (H2 _ _ _ H). lia.
    - intros q f x h H. simpl. pose proof (H3 _ _ _ _ H). lia. }
  assert (forall q e,
            e ∈ listeners_of q
                  (addEventListener c (closures s) (SubjectHandler j k)
                     (new_closure s).2) <->
            e ∈ listeners_of q s \/ (c = q /\ e = (closures s, SubjectHandler j k)))
    as Hin.
  { intros q e. rewrite listeners_of_addEventListener by done.
    case_decide; [rewrite elem_of_app, list_elem_of_singleton|]; naive_solver. }
  split.
  - intros q b. rewrite signal_aborted_addEventListener, fired_addEventListener.
    apply Hok.
  - intros q f l [H|[_ [= -> ->]]]%Hin; simpl; [|lia].
    pose proof (ok_fresh _ Hok _ _ _ H). lia.
  - intros q f x h [H|[_ [=]]]%Hin. simpl.
    pose proof (ok_target _ Hok _ _ _ _ H). lia.
  - intros q. rewrite listeners_of_addEventListener by done.
    case_decide; [|apply Hok]. rewrite fmap_app. apply NoDup_app.
    split; [apply Hok|]. split; [|apply NoDup_singleton].
    intros f ([f' l] & Heq & Hf)%list_elem_of_fmap Hs%list_elem_of_singleton.
    pose proof (ok_fresh _ Hok _ _ _ Hf). simpl in *. lia.
  - intros x f q h l [H1|[_ [=]]]%Hin [H2|[_ E]]%Hin.
    + by eapply ok_pair.
    + simplify_eq. pose proof (ok_target _ Hok _ _ _ _ H1). lia.
  - intros q f x [H|[_ [=]]]%Hin. simpl. rewrite length_alter.
    by eapply (ok_child _ Hok).
Qed.

Lemma handlers_live_frame s s' :
  controllers s' = controllers s -> handlers_live s -> handlers_live s'.
Proof.
  intros Hc H x f z. unfold listeners_of, signal_aborted. rewrite Hc. apply H.
Qed.

Lemma handlers_live_new_AbortController s :
  tokens_ok s -> handlers_live s -> handlers_live (new_AbortController s).2.
Proof.
  intros Hok H x f z Hin. unfold listeners_of, signal_aborted in *. simpl in *.
  destruct (decide (x < length (controllers s))) as [Hx|Hx].
  - rewrite lookup_app_l in Hin by done.
    pose proof (ok_child _ Hok x f z) as Hz. unfold listeners_of in Hz.
    rewrite lookup_app_l by auto. by eapply H.
  - rewrite lookup_app_r in Hin by lia.
    destruct (x - length (controllers s)) as [|[|n]]; simpl in Hin; set_solver.
Qed.

Lemma handlers_live_chainAbort p c s :
  p < length (controllers s) -> c < length (controllers s) ->
  signal_aborted c s = Some false ->
  handlers_live s -> handlers_live (chainAbort p c s).
Proof.
  intros Hp Hc Ha H x f z Hin. rewrite chainAbort_signal_aborted.
  apply elem_of_chainAbort in Hin; [|done..].
  destruct Hin as [Hin|[[_ [=]]|[_ [= _ ->]]]]; [by eapply H|done].
Qed.

(** Aborting the signal that was given to [subject.subscribe(observer,
    signal)] takes the subscriber out of the list of the Subject: the
    controller of the subscription is aborted through the chain, and the
    handler that the Subject registered on it runs. *)
Theorem aborting_the_signal_unsubscribes (s0 : State) (subject : nat)
    (x : Subject) (observer : Observer) (signal : nat) :
  tokens_ok s0 -> handlers_live s0 ->
  signal_aborted signal s0 = Some false ->
  subjects s0 !! subject = Some x ->
  NoDup (_subscribers x) ->
  (forall k, k ∈ _subscribers x -> k < length (subscribers s0)) ->
  let k := length (subscribers s0) in
  exists fuel s1 s2,
    run fuel (subscribe (SubjectInit subject) observer (Some signal)) s0 = Some s1 /\
    subscribers_of subject s1 = _subscribers x ++ [k] /\
    abort fuel signal s1 = Some s2 /\
    (k ∉ subscribers_of subject s2) /\
    is_aborted (length (controllers s0)) s2.
Proof.
  intros Hok Hlive Ha Hj Hnd Hlt k.
  set (c := length (controllers s0)).
  assert (signal < c) as Hp.
  { unfold signal_aborted in Ha. apply fmap_Some in Ha as (a & Ha & _).
    by apply lookup_lt_Some in Ha. }
  set (s1 := (new_AbortController s0).2).
  set (s2 := chainAbort signal c s1).
  set (s3 := (new_SafeSubscriber observer c s2).2).
  set (s4 := set_subjects
               (<[subject := mkSubject (_subscribers x ++ [k]) (subject_closed x)]>) s3).
  set (s5 := addEventListener c (closures s4) (SubjectHandler subject k)
               (new_closure s4).2).
  assert (length (controllers s1) = S c) as Hl1.
  { unfold s1. simpl. rewrite length_app. simpl. unfold c. lia. }
  assert (signal_aborted c s1 = Some false) as Hc1.
  { unfold signal_aborted, s1. simpl. rewrite lookup_app_r by (unfold c; lia).
    by rewrite Nat.sub_diag. }
  assert (tokens_ok s2) as Hok2.
  { apply tokens_ok_chainAbort; rewrite ?Hl1; [lia..|].
    by apply tokens_ok_new_AbortController. }
  assert (handlers_live s2) as Hlive2.
  { apply handlers_live_chainAbort; rewrite ?Hl1; [lia..|done|].
    by apply handlers_live_new_AbortController. }
  assert (length (controllers s2) = S c) as Hl2
    by (unfold s2; by rewrite chainAbort_length).
  assert (tokens_ok s4) as Hok4 by (by apply (tokens_ok_frame s2)).
  assert (length (controllers s4) = S c) as Hl4 by done.
  assert (tokens_ok s5) as Hok5.
  { apply tokens_ok_Subject_listens; [rewrite Hl4; lia|done]. }
  assert (forall q e, e ∈ listeners_of q s5 <->
            e ∈ listeners_of q s2 \/ (c = q /\ e = (closures s4, SubjectHandler subject k)))
    as Hin5.
  { intros q e. unfold s5.
    rewrite listeners_of_addEventListener
      by (change (controllers (new_closure s4).2) with (controllers s2); lia).
    change (listeners_of q (new_closure s4).2) with (listeners_of q s2).
    case_decide; [rewrite elem_of_app, list_elem_of_singleton|]; naive_solver. }
  assert (forall q, signal_aborted q s5 = signal_aborted q s1) as Ha5.
  { intros q. unfold s5. rewrite signal_aborted_addEventListener.
    change (signal_aborted q (new_closure s4).2) with (signal_aborted q s2).
    apply chainAbort_signal_aborted. }
  assert (handlers_live s5) as Hlive5.
  { intros q f z [Hin|[_ [=]]]%Hin5. rewrite Ha5.
    rewrite <- (chainAbort_signal_aborted z signal c s1). by eapply Hlive2. }
  assert (subjects s5 !! subject
          = Some (mkSubject (_subscribers x ++ [k]) (subject_closed x))) as Hj5.
  { simpl. apply list_lookup_insert_eq. by eapply lookup_lt_Some. }
  set (fuel := S (S (S c))).
  assert (run fuel (subscribe (SubjectInit subject) observer (Some signal)) s0
          = Some s5) as E.
  { unfold fuel. rewrite run_S. unfold body, subscribe_body.
    change (new_AbortController s0) with (c, s1).
    cbv beta iota zeta. fold s2.
    change (new_SafeSubscriber observer c s2) with (length (subscribers s2), s3).
    cbv beta iota zeta. unfold init.
    assert (subjects s3 !! subject = Some x) as -> by done.
    simpl. done. }
  assert (length (controllers s5) = S c) as Hl5.
  { unfold s5, addEventListener, set_controllers. cbn [controllers].
    rewrite length_alter. exact Hl2. }
  destruct (abort_returns fuel signal s5) as [s6 E6].
  { exact (ok_child _ Hok5). }
  { rewrite Hl5. lia. }
  { pose proof (live_le_length s5) as Hle. rewrite Hl5 in Hle. unfold fuel. lia. }
  assert (reaches s5 signal c) as R.
  { eapply (reaches_step _ signal (closures s1) c); [|constructor].
    apply Hin5. left. unfold s2. apply elem_of_chainAbort; rewrite ?Hl1; [lia..|].
    right. right. done. }
  exists fuel, s5, s6. split; [done|]. split.
  { unfold subscribers_of. by rewrite Hj5. }
  split; [done|]. split.
  - eapply (abort_runs_Subject_handler fuel signal c (closures s4) subject k s5 s6);
      eauto.
    + rewrite Ha5. unfold signal_aborted, s1. simpl.
      rewrite lookup_app_l by (fold c; lia). exact Ha.
    + apply Hin5. by right.
    + unfold subscribers_of. rewrite Hj5. simpl. apply NoDup_app.
      split; [done|]. split; [|apply NoDup_singleton].
      intros y Hy ->%list_elem_of_singleton. apply Hlt in Hy. unfold k in Hy. lia.
  - eapply (abort_reaches fuel signal c s5 s6); eauto.
    rewrite Ha5. unfold signal_aborted, s1. simpl.
    rewrite lookup_app_l by (fold c; lia). exact Ha.
Qed.

(** A Subject with one subscriber, and a controller of the user. *)
Definition one_logger : State :=
  default empty
    (run 2 (subscribe (SubjectInit 0) (logger 1) None)
       (new_AbortController (new_Subject empty).2).2).

Lemma tokens_ok_one_logger : tokens_ok one_logger.
Proof.
  apply (tokens_ok_Subject_listens 1 0 0
           (new_SafeSubscriber (logger 1) 1
              (set_subjects (<[0 := mkSubject [0] false]>)
                 (new_AbortController
                    (new_AbortController (new_Subject empty).2).2).2)).2).
  - simpl. lia.
  - apply (tokens_ok_frame
             (new_AbortController
                (new_AbortController (new_Subject empty).2).2).2); [done..|].
    apply tokens_ok_new_AbortController, tokens_ok_new_AbortController.
    by apply (tokens_ok_frame empty); [..|apply tokens_ok_empty].
Qed.

Lemma aborting_the_signal_unsubscribes_witness :
  exists fuel s1 s2,
    run fuel (subscribe (SubjectInit 0) (logger 2) (Some 0)) one_logger = Some s1 /\
    subscribers_of 0 s1 = [0; 1] /\
    abort fuel 0 s1 = Some s2 /\
    (1 ∉ subscribers_of 0 s2) /\
    is_aborted 2 s2.
Proof.
  apply (aborting_the_signal_unsubscribes one_logger 0 (mkSubject [0] false)
           (logger 2) 0).
  - apply tokens_ok_one_logger.
  - intros [|[|q]] f z H; vm_compute in H; set_solver.
  - reflexivity.
  - reflexivity.
  - apply NoDup_singleton.
  - intros k ->%list_elem_of_singleton. vm_compute. lia.
Defined.

(** ** Operators on a synchronous source *)

(** An observer none of whose handlers aborts anything. *)
Definition quiet (o : UserObserver) : Prop :=
  (forall h v, uo_next o = Some h -> h v = []) /\
  (forall h err, uo_error o = Some h -> h err = []) /\
  (forall h, uo_complete o = Some h -> h = []).

Section Pipeline.
(** The two subscriptions that [source.op(..).subscribe(o, signal)] makes
    for one of the operators [filter], [take] and [scan]: the subscriber
    [k] of the observer [o], with the controller [c], and the subscriber
    [S k] of the observer [up] that the operator hands to [source], with
    the controller [S c] chained to [c].  [x] names the variables of the
    operator. *)
Variable o : UserObserver.
Variable others : list SafeSubscriber.
Variable c : nat.
Variable up : Observer.
Variable x : nat.

Let k := length others.

Hypothesis Hquiet : quiet o.

Record pipe (d u : bool) (V : Vars) (s : State) : Prop := mkPipe {
  pipe_ok : tokens_ok s;
  pipe_length : length (controllers s) = S (S c);
  pipe_subscribers :
    subscribers s
    = others ++ [mkSafeSubscriber d (PartialObserver o) c;
                 mkSafeSubscriber u up (S c)];
  pipe_vars : variables s !! x = Some V;
  pipe_open : d = false ->
    signal_aborted c s = Some false /\ signal_aborted (S c) s = Some false /\
    exists h, (h, ChainHandler (S c)) ∈ listeners_of c s;
  pipe_closed : d = true -> is_aborted c s /\ is_aborted (S c) s
}.

Lemma pipe_down d u V s :
  pipe d u V s ->
  subscribers s !! k = Some (mkSafeSubscriber d (PartialObserver o) c).
Proof.
  intros H. rewrite (pipe_subscribers _ _ _ _ H). unfold k.
  rewrite lookup_app_r by lia. by rewrite Nat.sub_diag.
Qed.

Lemma pipe_up d u V s :
  pipe d u V s -> subscribers s !! S k = Some (mkSafeSubscriber u up (S c)).
Proof.
  intros H. rewrite (pipe_subscribers _ _ _ _ H). unfold k.
  rewrite lookup_app_r by lia. by replace (S (length others) - length others) with 1 by lia.
Qed.

Lemma pipe_frame d u V s s' :
  controllers s' = controllers s -> closures s' = closures s ->
  subscribers s' = subscribers s -> variables s' = variables s ->
  pipe d u V s -> pipe d u V s'.
Proof.
  intros Hc Hn Hs Hv [H1 H2 H3 H4 H5 H6].
  split; unfold is_aborted, signal_aborted, listeners_of in *;
    rewrite ?Hc, ?Hs, ?Hv; try done.
  by apply (tokens_ok_frame s).
Qed.

Lemma pipe_set_Vars d u V V' s : pipe d u V s -> pipe d u V' (set_Vars x V' s).
Proof.
  intros [H1 H2 H3 H4 H5 H6]. split; try done.
  - by apply (tokens_ok_frame s).
  - simpl. apply list_lookup_insert_eq. by eapply lookup_lt_Some.
Qed.

Lemma pipe_close_up d V s : pipe d false V s -> pipe d true V (close (S k) s).
Proof.
  intros [H1 H2 H3 H4 H5 H6]. split; try done.
  - by apply (tokens_ok_frame s).
  - simpl. rewrite H3. unfold k. rewrite alter_app_r_alt by lia.
    by replace (S (length others) - length others) with 1 by lia.
Qed.

(** A value for the observer. *)
Lemma pipe_next fuel d u V s v :
  pipe d u V s ->
  exists s', run (S fuel) (SafeSubscriber_next k v) s = Some s' /\
             pipe d u V s' /\
             log s' = log s ++ (if d then [] else deliveries o [Next v]).
Proof.
  intros H. rewrite run_S. simpl. unfold SafeSubscriber_next_body.
  rewrite (pipe_down _ _ _ _ H). simpl. destruct d.
  { exists s. by rewrite app_nil_r. }
  destruct (uo_next o) as [h|] eqn:Hn.
  - rewrite (proj1 Hquiet h v Hn). simpl. eexists. split; [done|].
    split; [by apply (pipe_frame _ _ _ s)|done].
  - exists s. by rewrite app_nil_r.
Qed.

(** An [error] or [complete] for the observer: the subscriber closes, and
    its [abort()] reaches the controller of the upstream subscription. *)
Lemma pipe_terminal fuel d u V s n :
  pipe d u V s -> is_terminal n = true -> S (S c) < fuel ->
  exists s', run (S fuel) (method k n) s = Some s' /\
             pipe true u V s' /\
             log s' = log s ++ (if d then [] else deliveries o [n]).
Proof.
  intros H Hn Hf. pose proof (pipe_down _ _ _ _ H) as Hk.
  destruct d.
  { exists s. rewrite app_nil_r. split; [|done].
    destruct n; rewrite run_S; simpl;
      unfold SafeSubscriber_next_body, SafeSubscriber_error_body,
        SafeSubscriber_complete_body; by rewrite Hk. }
  assert (forall s1,
            controllers s1 = controllers s -> closures s1 = closures s ->
            subscribers s1 = subscribers (close k s) ->
            variables s1 = variables s ->
            exists s', abort fuel c s1 = Some s' /\
                       pipe true u V s' /\ log s' = log s1) as Hab.
  { intros s1 Hc1 Hn1 Hs1 Hv1.
    assert (tokens_ok s1) as Hok1 by (apply (tokens_ok_frame s); [done..|apply H]).
    destruct (pipe_open _ _ _ _ H eq_refl) as (Hc & Hc' & h & Hh).
    destruct (abort_returns fuel c s1) as [s' E].
    - exact (ok_child _ Hok1).
    - rewrite Hc1, (pipe_length _ _ _ _ H). lia.
    - pose proof (live_le_length s1) as Hl.
      rewrite Hc1, (pipe_length _ _ _ _ H) in Hl. lia.
    - exists s'. split; [done|].
      pose proof (abort_wanes _ _ _ _ E) as W.
      split; [split|].
      + by eapply abort_tokens_ok.
      + by rewrite (wanes_length _ _ W), Hc1, (pipe_length _ _ _ _ H).
      + rewrite (wanes_subscribers _ _ W), Hs1. simpl.
        rewrite (pipe_subscribers _ _ _ _ H). unfold k.
        rewrite alter_app_r_alt by lia. by rewrite Nat.sub_diag.
      + rewrite (wanes_variables _ _ W), Hv1. apply H.
      + done.
      + intros _. split; [by eapply abort_is_aborted|].
        eapply (abort_runs_handler fuel c s1 s' h (S c)); eauto.
        * unfold signal_aborted. by rewrite Hc1.
        * unfold listeners_of. by rewrite Hc1.
      + apply W. }
  destruct n as [v|err|]; [done|..]; rewrite run_S; simpl;
    unfold SafeSubscriber_error_body, SafeSubscriber_complete_body;
    rewrite Hk; simpl.
  - destruct (uo_error o) as [h|] eqn:Hh.
    + rewrite (proj1 (proj2 Hquiet) h err Hh). simpl.
      destruct (Hab (record (Delivered (uo_tag o) (Error err)) (close k s)))
        as (s' & E & H' & L); [done..|].
      exists s'. by rewrite L.
    + simpl. destruct (Hab (hostReportError err (close k s)))
        as (s' & E & H' & L); [done..|].
      exists s'. by rewrite L.
  - destruct (uo_complete o) as [h|] eqn:Hh.
    + rewrite (proj2 (proj2 Hquiet) h Hh). simpl.
      destruct (Hab (record (Delivered (uo_tag o) Complete) (close k s)))
        as (s' & E & H' & L); [done..|].
      exists s'. by rewrite L.
    + simpl. destruct (Hab (close k s)) as (s' & E & H' & L); [done..|].
      exists s'. rewrite L. by rewrite app_nil_r.
Qed.

(** [subscriber.next(v)] on the upstream subscriber runs the [next] of the
    observer of the operator. *)
Lemma pipe_up_next fuel d V s v :
  pipe d false V s ->
  run (S fuel) (SafeSubscriber_next (S k) v) s
  = Observer_next fuel (run fuel) up v s.
Proof.
  intros H. rewrite run_S. simpl. unfold SafeSubscriber_next_body.
  by rewrite (pipe_up _ _ _ _ H).
Qed.

(** The [complete] of the source, for an operator whose observer passes it
    on. *)
Lemma pipe_up_complete fuel d V s :
  (forall f call t, Observer_complete f call up t
                    = call (SafeSubscriber_complete k) t) ->
  pipe d false V s -> S (S c) < fuel ->
  exists s', run (S (S fuel)) (SafeSubscriber_complete (S k)) s = Some s' /\
             pipe true true V s' /\
             log s' = log s ++ (if d then [] else deliveries o [Complete]).
Proof.
  intros Hup H Hf. rewrite run_S. simpl. unfold SafeSubscriber_complete_body.
  rewrite (pipe_up _ _ _ _ H). simpl. rewrite Hup.
  destruct (pipe_terminal fuel d true V (close (S k) s) Complete)
    as (s1 & E1 & H1 & L1); [by apply pipe_close_up|done|done|].
  simpl in E1. rewrite E1. simpl.
  destruct (abort_returns (S fuel) (S c) s1) as [s' E].
  - exact (ok_child _ (pipe_ok _ _ _ _ H1)).
  - rewrite (pipe_length _ _ _ _ H1). lia.
  - pose proof (live_le_length s1) as Hl.
    rewrite (pipe_length _ _ _ _ H1) in Hl. lia.
  - exists s'. split; [done|].
    pose proof (abort_wanes _ _ _ _ E) as W. split; [split|].
    + eapply abort_tokens_ok; [done|apply H1].
    + by rewrite (wanes_length _ _ W), (pipe_length _ _ _ _ H1).
    + rewrite (wanes_subscribers _ _ W). apply H1.
    + rewrite (wanes_variables _ _ W). apply H1.
    + done.
    + intros _. destruct (pipe_closed _ _ _ _ H1 eq_refl).
      split; by apply (wanes_aborted _ _ W).
    + by rewrite (wanes_log _ _ W), L1.
Qed.
End Pipeline.

(** The store that [source.op(..).subscribe(o, signal)] has made when the
    subscription procedure of [source] starts. *)
Definition piped (s0 : State) (signal : option nat) (o : UserObserver)
    (V0 : Vars) (up : Observer) : State :=
  let c := length (controllers s0) in
  let s1 := (new_AbortController s0).2 in
  let s2 := match signal with Some p => chainAbort p c s1 | None => s1 end in
  let s3 := (new_SafeSubscriber (PartialObserver o) c s2).2 in
  let s4 := (new_Vars V0 s3).2 in
  let s5 := (new_AbortController s4).2 in
  let s6 := chainAbort c (S c) s5 in
  (new_SafeSubscriber up (S c) s6).2.

Lemma pipe_piped s0 signal o V0 up :
  tokens_ok s0 ->
  (forall p, signal = Some p -> p < length (controllers s0)) ->
  pipe o (subscribers s0) (length (controllers s0)) up (length (variables s0))
    false false V0 (piped s0 signal o V0 up) /\
  log (piped s0 signal o V0 up) = log s0.
Proof.
  intros Hok Hsig. unfold piped.
  set (c := length (controllers s0)).
  set (s1 := (new_AbortController s0).2).
  set (s2 := match signal with Some p => chainAbort p c s1 | None => s1 end).
  set (s3 := (new_SafeSubscriber (PartialObserver o) c s2).2).
  set (s4 := (new_Vars V0 s3).2).
  set (s5 := (new_AbortController s4).2).
  set (s6 := chainAbort c (S c) s5).
  assert (length (controllers s1) = S c) as Hl1.
  { unfold s1. simpl. rewrite length_app. simpl. unfold c. lia. }
  assert (signal_aborted c s1 = Some false) as Hc1.
  { unfold signal_aborted, s1. simpl. rewrite lookup_app_r by (unfold c; lia).
    by rewrite Nat.sub_diag. }
  assert (tokens_ok s2 /\ length (controllers s2) = S c /\
          subscribers s2 = subscribers s0 /\ log s2 = log s0 /\
          variables s2 = variables s0 /\ signal_aborted c s2 = Some false)
    as (Hok2 & Hl2 & Hs2 & Hlog2 & Hv2 & Hc2).
  { assert (tokens_ok s1) as Hok1 by (by apply tokens_ok_new_AbortController).
    unfold s2. destruct signal as [p|]; [|done].
    split; [|split; [|split; [done|split; [done|split; [done|]]]]].
    - apply tokens_ok_chainAbort; rewrite ?Hl1; [|lia|done].
      specialize (Hsig p eq_refl). fold c in Hsig. lia.
    - by rewrite chainAbort_length.
    - by rewrite chainAbort_signal_aborted. }
  assert (tokens_ok s4) as Hok4 by (by apply (tokens_ok_frame s2)).
  assert (length (controllers s5) = S (S c)) as Hl5.
  { unfold s5. simpl. rewrite length_app. simpl. fold s2. lia. }
  assert (controllers s5 = controllers s2 ++ [mkAbortController false 0 []])
    as Hc5 by done.
  assert (forall q, signal_aborted q s6 = signal_aborted q s5) as Ha6
    by (intros q; apply chainAbort_signal_aborted).
  assert (forall q, q < S c -> signal_aborted q s5 = signal_aborted q s2) as Ha5.
  { intros q Hq. unfold signal_aborted. rewrite Hc5.
    rewrite lookup_app_l by lia. done. }
  split; [split|].
  - apply (tokens_ok_frame s6); [done..|].
    apply tokens_ok_chainAbort; rewrite ?Hl5; [lia..|].
    by apply tokens_ok_new_AbortController.
  - change (length (controllers s6) = S (S c)). unfold s6.
    by rewrite chainAbort_length.
  - change ((subscribers s2 ++ [mkSafeSubscriber false (PartialObserver o) c])
              ++ [mkSafeSubscriber false up (S c)]
            = subscribers s0 ++ [mkSafeSubscriber false (PartialObserver o) c;
                                 mkSafeSubscriber false up (S c)]).
    by rewrite Hs2, <- app_assoc.
  - change ((variables s2 ++ [V0]) !! length (variables s0) = Some V0).
    rewrite Hv2, lookup_app_r by lia. by rewrite Nat.sub_diag.
  - intros _.
    change (signal_aborted c s6 = Some false /\ signal_aborted (S c) s6 = Some false /\
            exists h, (h, ChainHandler (S c)) ∈ listeners_of c s6).
    rewrite !Ha6. split; [|split].
    + rewrite Ha5 by lia. done.
    + unfold signal_aborted. rewrite Hc5, lookup_app_r by lia.
      by replace (S c - length (controllers s2)) with 0 by lia.
    + exists (closures s5). unfold s6.
      apply elem_of_chainAbort; rewrite ?Hl5; [lia..|]. right. right. done.
  - done.
  - change (log s2 = log s0). done.
Qed.

(** *** [filter] *)

(** What the observer of [filter] passes on for the values of the source,
    from the value with the given index on. *)
Fixpoint filter_loop (callback : value -> nat -> Result bool)
    (values : list value) (index : nat) : list Notification :=
  match values with
  | [] => []
  | v :: values =>
      match callback v index with
      | Throw err => [Error err]
      | Return true => Next v :: filter_loop callback values (S index)
      | Return false => filter_loop callback values (S index)
      end
  end.

Lemma filter_from_loop o others c callback x fuel values :
  quiet o -> S (S c) < fuel ->
  forall d index s,
  pipe o others c (FilterObserver callback x (length others)) x d false
    (FilterVars index) s ->
  exists s' index',
    from_loop (run (S (S fuel))) values (S (length others)) (S c) s = Some s' /\
    pipe o others c (FilterObserver callback x (length others)) x
      (d || existsb is_terminal (filter_loop callback values index)) false
      (FilterVars index') s' /\
    log s' = log s ++ (if d then []
                       else deliveries o (filter_loop callback values index)).
Proof.
  intros Hq Hf. induction values as [|v values IH]; intros d index s H.
  { exists s, index. simpl. rewrite orb_false_r.
    split; [done|]. split; [done|]. by destruct d; rewrite app_nil_r. }
  cbn [from_loop].
  destruct d.
  { destruct (pipe_closed _ _ _ _ _ _ _ _ _ H eq_refl) as [_ Ha].
    rewrite Ha. simpl. exists s, index. by rewrite app_nil_r. }
  destruct (pipe_open _ _ _ _ _ _ _ _ _ H eq_refl) as (_ & Ha & _).
  rewrite Ha. simpl.
  rewrite (pipe_up_next o others c _ x (S fuel) false _ s v H).
  cbn [Observer_next]. rewrite (pipe_vars _ _ _ _ _ _ _ _ _ H). simpl.
  pose proof (pipe_set_Vars o others c _ x false false _ (FilterVars (S index)) s H)
    as H1.
  cbn [filter_loop]. destruct (callback v index) as [[|]|err] eqn:Hcb.
  - destruct (pipe_next o others c _ x Hq fuel false false _ _ v H1)
      as (s1 & E1 & H1' & L1).
    rewrite E1. simpl.
    destruct (IH false (S index) s1 H1') as (s' & index' & E & H' & L).
    exists s', index'. split; [done|]. split; [done|].
    rewrite L, L1. simpl. by rewrite app_nil_r, <- app_assoc.
  - simpl. destruct (IH false (S index) _ H1) as (s' & index' & E & H' & L).
    exists s', index'. done.
  - destruct (pipe_terminal o others c _ x Hq fuel false false _ _ (Error err) H1)
      as (s1 & E1 & H1' & L1); [done..|].
    simpl in E1. rewrite E1. simpl.
    destruct (IH true (S index) s1 H1') as (s' & index' & E & H' & L).
    exists s', index'. split; [done|]. split; [done|].
    rewrite L, L1. simpl. by rewrite app_nil_r.
Qed.

Lemma deliveries_snoc_Complete o calls :
  deliveries o (calls ++ [Complete])
  = deliveries o calls
    ++ (if existsb is_terminal calls then [] else deliveries o [Complete]).
Proof.
  induction calls as [|[v|err|] calls IH]; simpl.
  - done.
  - rewrite IH. by rewrite app_assoc.
  - by rewrite app_nil_r.
  - by rewrite app_nil_r.
Qed.

(** Subscribing to an operator applied to [from(values)]: the operator
    declares its variables and subscribes its own observer to the source,
    with the signal of the first subscription; the source then runs its
    loop and completes. *)
Lemma run_subscribe_piped (op : Observable) (V0 : Vars)
    (up_of : nat -> nat -> Observer) (values : list value)
    (s0 : State) (o : UserObserver) (signal : option nat) (fuel : nat) :
  (forall call subscriber signal s,
     init call op subscriber signal s
     = call (subscribe (FromIterable values)
               (up_of (length (variables s)) subscriber) (Some signal))
         (new_Vars V0 s).2) ->
  let k := length (subscribers s0) in
  let c := length (controllers s0) in
  let x := length (variables s0) in
  run (S (S fuel)) (subscribe op (PartialObserver o) signal) s0
  = s ← from_loop (run fuel) values (S k) (S c)
          (piped s0 signal o V0 (up_of x k));
    run fuel (SafeSubscriber_complete (S k)) s.
Proof.
  intros Hinit k c x.
  rewrite run_S. unfold body, subscribe_body.
  change (new_AbortController s0) with (c, (new_AbortController s0).2).
  cbv beta iota zeta.
  set (s2 := match signal with
             | Some p => chainAbort p c (new_AbortController s0).2
             | None => (new_AbortController s0).2
             end).
  change (new_SafeSubscriber (PartialObserver o) c s2)
    with (length (subscribers s2), (new_SafeSubscriber (PartialObserver o) c s2).2).
  cbv beta iota zeta.
  assert (length (subscribers s2) = k) as -> by (unfold s2; by destruct signal).
  rewrite Hinit.
  set (s3 := (new_SafeSubscriber (PartialObserver o) c s2).2).
  assert (length (variables s3) = x) as -> by (unfold s3, s2; by destruct signal).
  rewrite run_S. unfold body, subscribe_body.
  set (s4 := (new_Vars V0 s3).2).
  change (new_AbortController s4)
    with (length (controllers s4), (new_AbortController s4).2).
  cbv beta iota zeta.
  assert (length (controllers s4) = S c) as ->.
  { change (length (controllers s2) = S c). unfold s2.
    destruct signal; rewrite ?chainAbort_length; simpl; rewrite length_app;
      simpl; unfold c; lia. }
  set (s6 := chainAbort c (S c) (new_AbortController s4).2).
  change (new_SafeSubscriber (up_of x k) (S c) s6)
    with (length (subscribers s6), (new_SafeSubscriber (up_of x k) (S c) s6).2).
  cbv beta iota zeta.
  assert (length (subscribers s6) = S k) as ->.
  { change (length (subscribers s2 ++ [mkSafeSubscriber false (PartialObserver o) c])
            = S k).
    rewrite length_app. simpl.
    assert (subscribers s2 = subscribers s0) as -> by (unfold s2; by destruct signal).
    unfold k. lia. }
  reflexivity.
Qed.

(** [from(values).filter(callback)], subscribed with an observer whose
    handlers abort nothing, in any well-formed store and with any parent
    signal: the observer is given, in order, the values for which
    [callback(value, index)] is true, [index] counting all the values of
    the source from 0, and then [complete]; if [callback] throws, the
    observer is given the values passed before, then the error, and nothing
    more. *)
Theorem filter_of_iterable (s0 : State) (o : UserObserver) (signal : option nat)
    (callback : value -> nat -> Result bool) (values : list value) :
  tokens_ok s0 ->
  (forall p, signal = Some p -> p < length (controllers s0)) ->
  quiet o ->
  exists fuel s,
    run fuel (subscribe (Obs.filter callback (FromIterable values))
                (PartialObserver o) signal) s0 = Some s /\
    log s = log s0 ++ deliveries o (filter_loop callback values 0 ++ [Complete]) /\
    is_aborted (length (controllers s0)) s /\
    is_aborted (S (length (controllers s0))) s.
Proof.
  intros Hok Hsig Hq.
  set (c := length (controllers s0)). set (k := length (subscribers s0)).
  set (x := length (variables s0)).
  set (fuel := S (S (S c))).
  destruct (pipe_piped s0 signal o (FilterVars 0) (FilterObserver callback x k)
              Hok Hsig) as [H7 L7].
  fold c in H7.
  destruct (filter_from_loop o (subscribers s0) c callback x fuel values Hq
              ltac:(unfold fuel; lia) false 0 _ H7) as (s8 & index & E8 & H8 & L8).
  destruct (pipe_up_complete o (subscribers s0) c
              (FilterObserver callback x k) x Hq fuel _ _ s8
              (fun _ _ _ => eq_refl) H8 ltac:(unfold fuel; lia))
    as (s & E & H & L).
  exists (S (S (S (S fuel)))), s. split.
  - rewrite (run_subscribe_piped _ (FilterVars 0)
               (fun x k => FilterObserver callback x k) values) by done.
    cbv zeta. subst k x c. rewrite E8. exact E.
  - split; [|exact (pipe_closed _ _ _ _ _ _ _ _ _ H eq_refl)].
    rewrite L, L8, L7, deliveries_snoc_Complete, <- app_assoc. simpl.
    by destruct (existsb is_terminal (filter_loop callback values 0)).
Qed.

(** Keep the values with an even index; the callback throws on the
    fourth. *)
Definition even_index (v : value) (index : nat) : Result bool :=
  if decide (index = 3) then Throw JNaN else Return (Nat.even index).

Lemma filter_of_iterable_witness :
  let o := mkUserObserver 7 (Some (fun _ => [])) (Some (fun _ => [])) (Some []) in
  let values := [JNumber 10; JNumber 11; JNumber 12; JNumber 13; JNumber 14] in
  exists fuel s,
    run fuel (subscribe (Obs.filter even_index (FromIterable values))
                (PartialObserver o) None) empty = Some s /\
    log s = [Delivered 7 (Next (JNumber 10)); Delivered 7 (Next (JNumber 12));
             Delivered 7 (Error JNaN)] /\
    is_aborted 0 s /\ is_aborted 1 s.
Proof.
  apply (filter_of_iterable empty
           (mkUserObserver 7 (Some (fun _ => [])) (Some (fun _ => [])) (Some []))
           None even_index
           [JNumber 10; JNumber 11; JNumber 12; JNumber 13; JNumber 14]).
  - apply tokens_ok_empty.
  - done.
  - repeat split; intros *; by intros [= <-].
Defined.

(** *** [take] *)

(** What the observer of [take] passes on, [i] values having been seen. *)
Fixpoint take_loop (count : Z) (values : list value) (i : nat)
    : list Notification :=
  match values with
  | [] => []
  | v :: values =>
      Next v :: if decide (Z.of_nat (S i) = count) then [Complete]
                else take_loop count values (S i)
  end.

Lemma take_from_loop o others c count x fuel values :
  quiet o -> S (S c) < fuel ->
  forall d i s,
  pipe o others c (TakeObserver count x (length others)) x d false (TakeVars i) s ->
  exists s' i',
    from_loop (run (S (S fuel))) values (S (length others)) (S c) s = Some s' /\
    pipe o others c (TakeObserver count x (length others)) x
      (d || existsb is_terminal (take_loop count values i)) false (TakeVars i') s' /\
    log s' = log s ++ (if d then [] else deliveries o (take_loop count values i)).
Proof.
  intros Hq Hf. induction values as [|v values IH]; intros d i s H.
  { exists s, i. simpl. rewrite orb_false_r.
    split; [done|]. split; [done|]. by destruct d; rewrite app_nil_r. }
  cbn [from_loop].
  destruct d.
  { destruct (pipe_closed _ _ _ _ _ _ _ _ _ H eq_refl) as [_ Ha].
    rewrite Ha. simpl. exists s, i. by rewrite app_nil_r. }
  destruct (pipe_open _ _ _ _ _ _ _ _ _ H eq_refl) as (_ & Ha & _).
  rewrite Ha. simpl.
  rewrite (pipe_up_next o others c _ x (S fuel) false _ s v H).
  cbn [Observer_next].
  destruct (pipe_next o others c _ x Hq fuel false false _ _ v H)
    as (s1 & E1 & H1 & L1).
  rewrite E1. simpl. rewrite (pipe_vars _ _ _ _ _ _ _ _ _ H1). simpl.
  pose proof (pipe_set_Vars o others c _ x false false _ (TakeVars (S i)) s1 H1)
    as H2.
  cbn [take_loop]. case_decide as Hc.
  - destruct (pipe_terminal o others c _ x Hq fuel false false _ _ Complete H2)
      as (s2 & E2 & H2' & L2); [done..|].
    simpl in E2. rewrite E2. simpl.
    destruct (IH true (S i) s2 H2') as (s' & i' & E & H' & L).
    exists s', i'. split; [done|]. split; [done|].
    rewrite L, L2. simpl in *. rewrite L1. by rewrite !app_nil_r, <- app_assoc.
  - simpl. destruct (IH false (S i) _ H2) as (s' & i' & E & H' & L).
    exists s', i'. split; [done|]. split; [done|].
    rewrite L. simpl in *. rewrite L1. by rewrite app_nil_r, <- app_assoc.
Qed.

Lemma take_loop_all count values i :
  (count <= Z.of_nat i)%Z -> take_loop count values i = Next <$> values.
Proof.
  revert i. induction values as [|v values IH]; intros i Hi; simpl; [done|].
  rewrite decide_False by lia. by rewrite IH by lia.
Qed.

Lemma take_loop_first o count values i :
  (Z.of_nat i < count)%Z ->
  deliveries o (take_loop count values i ++ [Complete])
  = deliveries o ((Next <$> take (Z.to_nat count - i) values) ++ [Complete]).
Proof.
  revert i. induction values as [|v values IH]; intros i Hi.
  { by rewrite take_nil. }
  replace (Z.to_nat count - i) with (S (Z.to_nat count - S i)) by lia.
  cbn [take_loop take fmap list_fmap app deliveries]. f_equal.
  case_decide as Hc.
  - replace (Z.to_nat count - S i) with 0 by lia. by rewrite take_0.
  - apply IH. lia.
Qed.

(** [from(values).take(count)], subscribed with an observer whose handlers
    abort nothing: when [count] is at least 1, the observer is given the
    first [count] values (all of them if there are fewer) and then
    [complete]; when [count] is 0 or negative, the observer is given every
    value of the source and then [complete], since the count of values
    passed on is compared with [count] only after a value has been passed
    on. *)
Theorem take_of_iterable (s0 : State) (o : UserObserver) (signal : option nat)
    (count : Z) (values : list value) :
  tokens_ok s0 ->
  (forall p, signal = Some p -> p < length (controllers s0)) ->
  quiet o ->
  exists fuel s,
    run fuel (subscribe (Obs.take count (FromIterable values))
                (PartialObserver o) signal) s0 = Some s /\
    log s = log s0
            ++ deliveries o
                 ((Next <$> (if decide (0 < count)%Z
                             then take (Z.to_nat count) values
                             else values)) ++ [Complete]) /\
    is_aborted (length (controllers s0)) s /\
    is_aborted (S (length (controllers s0))) s.
Proof.
  intros Hok Hsig Hq.
  set (c := length (controllers s0)). set (k := length (subscribers s0)).
  set (x := length (variables s0)).
  set (fuel := S (S (S c))).
  set (n := Z.max count 0).
  destruct (pipe_piped s0 signal o (TakeVars 0) (TakeObserver n x k)
              Hok Hsig) as [H7 L7].
  fold c in H7.
  destruct (take_from_loop o (subscribers s0) c n x fuel values Hq
              ltac:(unfold fuel; lia) false 0 _ H7) as (s8 & index & E8 & H8 & L8).
  destruct (pipe_up_complete o (subscribers s0) c
              (TakeObserver n x k) x Hq fuel _ _ s8
              (fun _ _ _ => eq_refl) H8 ltac:(unfold fuel; lia))
    as (s & E & H & L).
  exists (S (S (S (S fuel)))), s. split.
  - unfold Obs.take. fold n.
    rewrite (run_subscribe_piped _ (TakeVars 0)
               (fun x k => TakeObserver n x k) values) by done.
    cbv zeta. subst k x c. rewrite E8. exact E.
  - split; [|exact (pipe_closed _ _ _ _ _ _ _ _ _ H eq_refl)].
    rewrite L, L8, L7, <- app_assoc. f_equal.
    change (false || existsb is_terminal (take_loop n values 0))
      with (existsb is_terminal (take_loop n values 0)).
    rewrite <- deliveries_snoc_Complete.
    case_decide as Hc.
    + rewrite take_loop_first by (unfold n; lia).
      replace (Z.to_nat n - 0) with (Z.to_nat count) by (unfold n; lia). done.
    + by rewrite take_loop_all by (unfold n; lia).
Qed.

Lemma take_of_iterable_witness :
  let o := mkUserObserver 7 (Some (fun _ => [])) (Some (fun _ => [])) (Some []) in
  exists fuel s,
    run fuel (subscribe (Obs.take 2 (FromIterable one_two_three))
                (PartialObserver o) None) empty = Some s /\
    log s = [Delivered 7 (Next (JNumber 1)); Delivered 7 (Next (JNumber 2));
             Delivered 7 Complete] /\
    is_aborted 0 s /\ is_aborted 1 s.
Proof.
  apply (take_of_iterable empty
           (mkUserObserver 7 (Some (fun _ => [])) (Some (fun _ => [])) (Some []))
           None 2 one_two_three).
  - apply tokens_ok_empty.
  - done.
  - repeat split; intros *; by intros [= <-].
Defined.


(** *** [scan] *)

(** What the observer of [scan] passes on, from the value with index [i]
    on, [state] being the accumulator. *)
Fixpoint scan_loop (callback : value -> value -> nat -> Result value)
    (hasInit : bool) (state : value) (i : nat) (values : list value)
    : list Notification :=
  match values with
  | [] => []
  | v :: values =>
      (if negb hasInit && bool_decide (i = 0) then [Next v] else [])
      ++ match callback state v i with
         | Throw err => [Error err]
         | Return state => Next state :: scan_loop callback hasInit state (S i) values
         end
  end.

Lemma scan_from_loop o others c callback hasInit x fuel values :
  quiet o -> S (S c) < fuel ->
  forall d state i s,
  pipe o others c (ScanObserver callback hasInit x (length others)) x d false
    (ScanVars state i) s ->
  exists s' state' i',
    from_loop (run (S (S fuel))) values (S (length others)) (S c) s = Some s' /\
    pipe o others c (ScanObserver callback hasInit x (length others)) x
      (d || existsb is_terminal (scan_loop callback hasInit state i values)) false
      (ScanVars state' i') s' /\
    log s' = log s ++ (if d then []
                       else deliveries o (scan_loop callback hasInit state i values)).
Proof.
  intros Hq Hf. induction values as [|v values IH]; intros d state i s H.
  { exists s, state, i. simpl. rewrite orb_false_r.
    split; [done|]. split; [done|]. by destruct d; rewrite app_nil_r. }
  cbn [from_loop].
  destruct d.
  { destruct (pipe_closed _ _ _ _ _ _ _ _ _ H eq_refl) as [_ Ha].
    rewrite Ha. simpl. exists s, state, i. by rewrite app_nil_r. }
  destruct (pipe_open _ _ _ _ _ _ _ _ _ H eq_refl) as (_ & Ha & _).
  rewrite Ha. simpl.
  rewrite (pipe_up_next o others c _ x (S fuel) false _ s v H).
  cbn [Observer_next]. rewrite (pipe_vars _ _ _ _ _ _ _ _ _ H). simpl.
  pose proof (pipe_set_Vars o others c _ x false false _ (ScanVars state (S i)) s H)
    as H1.
  assert (exists s1,
            (if negb hasInit && bool_decide (i = 0)
             then run (S fuel) (SafeSubscriber_next (length others) v)
                    (set_Vars x (ScanVars state (S i)) s)
             else Some (set_Vars x (ScanVars state (S i)) s)) = Some s1 /\
            pipe o others c (ScanObserver callback hasInit x (length others)) x
              false false (ScanVars state (S i)) s1 /\
            log s1 = log s ++ deliveries o
                       (if negb hasInit && bool_decide (i = 0) then [Next v] else []))
    as (s1 & -> & H1' & L1).
  { destruct (negb hasInit && bool_decide (i = 0)).
    - destruct (pipe_next o others c _ x Hq fuel false false _ _ v H1)
        as (s1 & E1 & H1' & L1).
      by exists s1.
    - eexists. split; [done|]. split; [done|]. simpl. by rewrite app_nil_r. }
  simpl. rewrite (pipe_vars _ _ _ _ _ _ _ _ _ H1'). simpl.
  assert (forall rest,
            deliveries o ((if negb hasInit && bool_decide (i = 0)
                           then [Next v] else []) ++ rest)
            = deliveries o (if negb hasInit && bool_decide (i = 0)
                            then [Next v] else []) ++ deliveries o rest) as Hd.
  { intros rest. destruct (negb hasInit && bool_decide (i = 0)); [|done].
    simpl. by rewrite app_nil_r. }
  assert (forall rest,
            existsb is_terminal ((if negb hasInit && bool_decide (i = 0)
                                  then [Next v] else []) ++ rest)
            = existsb is_terminal rest) as He.
  { intros rest. by destruct (negb hasInit && bool_decide (i = 0)). }
  cbn [scan_loop]. rewrite Hd, He.
  destruct (callback state v i) as [state'|err] eqn:Hcb.
  - pose proof (pipe_set_Vars o others c _ x false false _ (ScanVars state' (S i))
                  s1 H1') as H2.
    destruct (pipe_next o others c _ x Hq fuel false false _ _ state' H2)
      as (s2 & E2 & H2' & L2).
    rewrite E2. simpl.
    destruct (IH false state' (S i) s2 H2') as (s' & st & i' & E & H' & L).
    exists s', st, i'. split; [done|]. split; [done|].
    rewrite L, L2. simpl log. rewrite L1. simpl.
    by rewrite app_nil_r, <- !app_assoc.
  - destruct (pipe_terminal o others c _ x Hq fuel false false _ _ (Error err) H1')
      as (s2 & E2 & H2' & L2); [done..|].
    simpl in E2. rewrite E2. simpl.
    destruct (IH true state (S i) s2 H2') as (s' & st & i' & E & H' & L).
    exists s', st, i'. split; [done|]. split; [done|].
    rewrite L, L2, L1. by rewrite app_nil_r, <- app_assoc.
Qed.

(** [from(values).scan(callback, seed)], subscribed with an observer
    whose handlers abort nothing: the observer is given the accumulator
    after each value, starting from the seed, and then [complete]; if
    [callback] throws, the observer is given the error after the
    accumulators reached so far, and nothing more.  Without a seed the
    accumulator starts as [undefined], the first value is passed on as it
    is, and [callback(undefined, first, 0)] is then called as well. *)
Theorem scan_of_iterable (s0 : State) (o : UserObserver) (signal : option nat)
    (callback : value -> value -> nat -> Result value)
    (initialValue : option value) (values : list value) :
  tokens_ok s0 ->
  (forall p, signal = Some p -> p < length (controllers s0)) ->
  quiet o ->
  exists fuel s,
    run fuel (subscribe (Obs.scan callback initialValue (FromIterable values))
                (PartialObserver o) signal) s0 = Some s /\
    log s = log s0
            ++ deliveries o
                 (scan_loop callback (bool_decide (is_Some initialValue))
                    (default JUndefined initialValue) 0 values ++ [Complete]) /\
    is_aborted (length (controllers s0)) s /\
    is_aborted (S (length (controllers s0))) s.
Proof.
  intros Hok Hsig Hq.
  set (c := length (controllers s0)). set (k := length (subscribers s0)).
  set (x := length (variables s0)).
  set (fuel := S (S (S c))).
  set (hasInit := bool_decide (is_Some initialValue)).
  set (seed := default JUndefined initialValue).
  destruct (pipe_piped s0 signal o (ScanVars seed 0)
              (ScanObserver callback hasInit x k) Hok Hsig) as [H7 L7].
  fold c in H7.
  destruct (scan_from_loop o (subscribers s0) c callback hasInit x fuel values Hq
              ltac:(unfold fuel; lia) false seed 0 _ H7)
    as (s8 & st & index & E8 & H8 & L8).
  destruct (pipe_up_complete o (subscribers s0) c
              (ScanObserver callback hasInit x k) x Hq fuel _ _ s8
              (fun _ _ _ => eq_refl) H8 ltac:(unfold fuel; lia))
    as (s & E & H & L).
  exists (S (S (S (S fuel)))), s. split.
  - unfold Obs.scan. fold hasInit seed.
    rewrite (run_subscribe_piped _ (ScanVars seed 0)
               (fun x k => ScanObserver callback hasInit x k) values) by done.
    cbv zeta. subst k x c. rewrite E8. exact E.
  - split; [|exact (pipe_closed _ _ _ _ _ _ _ _ _ H eq_refl)].
    rewrite L, L8, L7, <- app_assoc. f_equal.
    by rewrite deliveries_snoc_Complete.
Qed.

(** The running sums from a seed. *)
Lemma scan_of_iterable_witness :
  let o := mkUserObserver 7 (Some (fun _ => [])) (Some (fun _ => [])) (Some []) in
  exists fuel s,
    run fuel (subscribe (Obs.scan add (Some (JNumber 10)) (FromIterable one_two_three))
                (PartialObserver o) None) empty = Some s /\
    log s = [Delivered 7 (Next (JNumber 11)); Delivered 7 (Next (JNumber 13));
             Delivered 7 (Next (JNumber 16)); Delivered 7 Complete] /\
    is_aborted 0 s /\ is_aborted 1 s.
Proof.
  apply (scan_of_iterable empty
           (mkUserObserver 7 (Some (fun _ => [])) (Some (fun _ => [])) (Some []))
           None add (Some (JNumber 10)) one_two_three).
  - apply tokens_ok_empty.
  - done.
  - repeat split; intros *; by intros [= <-].
Defined.

(** ** What no method undoes *)

(** From one store to a later one: every object is still there, an aborted
    signal is still aborted, a closed subscriber is still closed and still
    has its observer and its controller, a closed Subject is still closed,
    and the log has only been added to. *)
Record grows (s s' : State) : Prop := mkGrows {
  grows_controllers : forall q a,
    controllers s !! q = Some a ->
    exists a', controllers s' !! q = Some a' /\
               (ac_aborted a = true -> ac_aborted a' = true);
  grows_subscribers : forall k b,
    subscribers s !! k = Some b ->
    exists b', subscribers s' !! k = Some b' /\
               _destination b' = _destination b /\
               _abortController b' = _abortController b /\
               (_closed b = true -> _closed b' = true);
  grows_subjects : forall j x,
    subjects s !! j = Some x ->
    exists x', subjects s' !! j = Some x' /\
               (subject_closed x = true -> subject_closed x' = true);
  grows_variables : length (variables s) <= length (variables s');
  grows_log : log s `prefix_of` log s'
}.

Lemma grows_refl s : grows s s.
Proof. split; eauto. Qed.

Lemma grows_trans s1 s2 s3 : grows s1 s2 -> grows s2 s3 -> grows s1 s3.
Proof.
  intros [A1 B1 C1 D1 E1] [A2 B2 C2 D2 E2]. split.
  - intros q a H. destruct (A1 _ _ H) as (a' & H' & Ha).
    destruct (A2 _ _ H') as (a'' & H'' & Ha'). eauto.
  - intros k b H. destruct (B1 _ _ H) as (b' & H' & ? & ? & ?).
    destruct (B2 _ _ H') as (b'' & H'' & ? & ? & ?).
    exists b''. repeat split; [done|congruence..|auto].
  - intros j x H. destruct (C1 _ _ H) as (x' & H' & ?).
    destruct (C2 _ _ H') as (x'' & H'' & ?). eauto.
  - lia.
  - by etrans.
Qed.

Lemma grows_controllers_only s s' :
  subscribers s' = subscribers s -> subjects s' = subjects s ->
  variables s' = variables s -> log s' = log s ->
  (forall q a, controllers s !! q = Some a ->
     exists a', controllers s' !! q = Some a' /\
                (ac_aborted a = true -> ac_aborted a' = true)) ->
  grows s s'.
Proof. intros Hb Hj Hv Hl Hc. split; rewrite ?Hb, ?Hj, ?Hv, ?Hl; eauto. Qed.

Lemma wanes_grows s s' : wanes s s' -> grows s s'.
Proof.
  intros W. split.
  - intros q a H.
    assert (is_Some (controllers s' !! q)) as [a' H'].
    { apply lookup_lt_is_Some. rewrite (wanes_length _ _ W).
      by eapply lookup_lt_Some. }
    exists a'. split; [done|]. intros Ha.
    pose proof (wanes_aborted _ _ W q) as Hq. unfold is_aborted, signal_aborted in Hq.
    rewrite H, H' in Hq. simpl in Hq. rewrite Ha in Hq.
    specialize (Hq eq_refl). by injection Hq.
  - rewrite (wanes_subscribers _ _ W). eauto.
  - intros j x H.
    assert (is_Some (subjects s' !! j)) as [x' H'].
    { apply lookup_lt_is_Some. rewrite (wanes_subjects_length _ _ W).
      by eapply lookup_lt_Some. }
    exists x'. split; [done|].
    destruct (wanes_subjects _ _ W _ _ H') as (x0 & H0 & -> & _). congruence.
  - by rewrite (wanes_variables _ _ W).
  - by rewrite (wanes_log _ _ W).
Qed.

Lemma grows_record e s : grows s (record e s).
Proof. split; eauto. by apply prefix_app_r. Qed.

Lemma grows_close k s : grows s (close k s).
Proof.
  split; eauto. intros i b H. simpl.
  destruct (decide (i = k)) as [->|Hne].
  - rewrite list_lookup_alter_eq, H. simpl. eauto.
  - rewrite list_lookup_alter_ne by done. eauto.
Qed.

Lemma grows_set_Vars x V s : grows s (set_Vars x V s).
Proof. split; eauto. simpl. by rewrite length_insert. Qed.

Lemma grows_new_Vars V s : grows s (new_Vars V s).2.
Proof. split; eauto. simpl. rewrite length_app. lia. Qed.

Lemma grows_new_AbortController s : grows s (new_AbortController s).2.
Proof.
  apply grows_controllers_only; try done. intros q a H. simpl.
  exists a. split; [|done]. by apply lookup_app_l_Some.
Qed.

Lemma grows_new_SafeSubscriber observer c s :
  grows s (new_SafeSubscriber observer c s).2.
Proof.
  split; eauto. intros k b H. exists b. split; [|done].
  simpl. by apply lookup_app_l_Some.
Qed.

Lemma grows_addEventListener p f l s : grows s (addEventListener p f l s).
Proof.
  apply grows_controllers_only; try done. intros q a H. simpl.
  destruct (decide (q = p)) as [->|Hne].
  - rewrite list_lookup_alter_eq, H. simpl. eauto.
  - rewrite list_lookup_alter_ne by done. eauto.
Qed.

Lemma grows_new_closure s : grows s (new_closure s).2.
Proof. split; eauto. Qed.

Lemma grows_chainAbort p c s : grows s (chainAbort p c s).
Proof.
  unfold chainAbort. simpl.
  eapply grows_trans; [|apply grows_addEventListener].
  eapply grows_trans; [|apply grows_addEventListener].
  split; eauto.
Qed.

Lemma grows_set_thenables f s : grows s (set_thenables f s).
Proof. split; eauto. Qed.

Lemma grows_set_produced f s : grows s (set_produced f s).
Proof. split; eauto. Qed.

Lemma grows_subscribe_Subject j x k s :
  subjects s !! j = Some x ->
  grows s (set_subjects (<[j := mkSubject (_subscribers x ++ [k]) (subject_closed x)]>) s).
Proof.
  intros Hj. split; eauto. intros i y H. simpl.
  destruct (decide (i = j)) as [->|Hne].
  - rewrite list_lookup_insert_eq by (by eapply lookup_lt_Some).
    eexists. split; [done|]. simpl. congruence.
  - rewrite list_lookup_insert_ne by done. eauto.
Qed.

Lemma grows_set_subject_closed j s : grows s (set_subject_closed j s).
Proof.
  split; eauto. intros i y H. simpl.
  destruct (decide (i = j)) as [->|Hne].
  - rewrite list_lookup_alter_eq, H. simpl. eauto.
  - rewrite list_lookup_alter_ne by done. eauto.
Qed.

Lemma grows_shift j s : grows s (shift j s).
Proof.
  split; eauto. intros i y H. simpl.
  destruct (decide (i = j)) as [->|Hne].
  - rewrite list_lookup_alter_eq, H. simpl. eauto.
  - rewrite list_lookup_alter_ne by done. eauto.
Qed.

Lemma abort_grows fuel c s s' : abort fuel c s = Some s' -> grows s s'.
Proof. intros H. by apply wanes_grows, (abort_wanes _ _ _ _ H). Qed.

Lemma abort_all_grows fuel cs s s' : abort_all fuel cs s = Some s' -> grows s s'.
Proof.
  revert s. induction cs as [|c cs IH]; simpl; intros s H.
  - injection H as <-. apply grows_refl.
  - destruct (abort fuel c s) as [s1|] eqn:E; [|done]. simpl in H.
    eapply grows_trans; [by eapply abort_grows|eauto].
Qed.

Ltac grows_chain :=
  repeat first
    [ apply grows_refl
    | assumption
    | match goal with
      | |- grows ?s (record ?e ?t) => apply (grows_trans s t); [|apply grows_record]
      | |- grows ?s (hostReportError ?e ?t) =>
          apply (grows_trans s t); [|apply grows_record]
      | |- grows ?s (close ?k ?t) => apply (grows_trans s t); [|apply grows_close]
      | |- grows ?s (set_Vars ?x ?V ?t) =>
          apply (grows_trans s t); [|apply grows_set_Vars]
      | |- grows ?s (new_Vars ?V ?t).2 =>
          apply (grows_trans s t); [|apply grows_new_Vars]
      | |- grows ?s (new_AbortController ?t).2 =>
          apply (grows_trans s t); [|apply grows_new_AbortController]
      | |- grows ?s (new_SafeSubscriber ?o ?c ?t).2 =>
          apply (grows_trans s t); [|apply grows_new_SafeSubscriber]
      | |- grows ?s (new_closure ?t).2 =>
          apply (grows_trans s t); [|apply grows_new_closure]
      | |- grows ?s (addEventListener ?p ?f ?l ?t) =>
          apply (grows_trans s t); [|apply grows_addEventListener]
      | |- grows ?s (chainAbort ?p ?c ?t) =>
          apply (grows_trans s t); [|apply grows_chainAbort]
      | |- grows ?s (set_thenables ?f ?t) =>
          apply (grows_trans s t); [|apply grows_set_thenables]
      | |- grows ?s (set_produced ?f ?t) =>
          apply (grows_trans s t); [|apply grows_set_produced]
      | |- grows ?s (set_subject_closed ?j ?t) =>
          apply (grows_trans s t); [|apply grows_set_subject_closed]
      | |- grows ?s (shift ?j ?t) => apply (grows_trans s t); [|apply grows_shift]
      | |- grows ?s (set_controllers _ ?t) =>
          apply (grows_trans s t); [|apply grows_new_AbortController]
      | |- grows ?s (set_closures _ ?t) =>
          apply (grows_trans s t); [|apply grows_new_closure]
      | |- grows ?s (set_variables _ ?t) =>
          apply (grows_trans s t); [|apply grows_new_Vars]
      | |- grows ?s (set_subscribers _ ?t) =>
          apply (grows_trans s t); [|apply grows_new_SafeSubscriber]
      | H : grows ?t ?s' |- grows ?s ?s' => apply (grows_trans s t s'); [|exact H]
      end ].

Section Grows.
Variable fuel : nat.
Hypothesis IH : forall c s s', run fuel c s = Some s' -> grows s s'.

Ltac grows_cases :=
  repeat match goal with
    | H : Some _ = Some _ |- _ => injection H as <-
    | H : None = Some _ |- _ => discriminate H
    | H : run fuel _ _ = Some _ |- _ => apply IH in H
    | H : abort fuel _ _ = Some _ |- _ => apply abort_grows in H
    | H : abort_all fuel _ _ = Some _ |- _ => apply abort_all_grows in H
    | H : mbind _ ?e = Some _ |- _ =>
        let E := fresh "E" in destruct e eqn:E; simpl in H
    | H : match ?e with _ => _ end = Some _ |- _ =>
        let E := fresh "E" in destruct e eqn:E; simpl in H
    end.

Lemma checkSubscribe_grows callback vars subscriber signal s s' :
  checkSubscribe (run fuel) callback vars subscriber signal s = Some s' ->
  grows s s'.
Proof. unfold checkSubscribe. intros H. grows_cases; grows_chain. Qed.

Lemma Observer_next_grows destination v s s' :
  Observer_next fuel (run fuel) destination v s = Some s' -> grows s s'.
Proof.
  destruct destination; cbn [Observer_next]; intros H;
    try (apply checkSubscribe_grows in H);
    unfold new_AbortController in *;
    grows_cases; try (apply checkSubscribe_grows in H); grows_chain.
Qed.

Lemma Observer_error_grows destination err s s' :
  Observer_error fuel (run fuel) destination err s = Some s' -> grows s s'.
Proof.
  destruct destination; cbn [Observer_error]; intros H; grows_cases; grows_chain.
Qed.

Lemma Observer_complete_grows destination s s' :
  Observer_complete fuel (run fuel) destination s = Some s' -> grows s s'.
Proof.
  destruct destination; cbn [Observer_complete]; intros H;
    try (apply checkSubscribe_grows in H);
    grows_cases; try (apply checkSubscribe_grows in H); grows_chain.
Qed.

Lemma from_loop_grows values subscriber signal s s' :
  from_loop (run fuel) values subscriber signal s = Some s' -> grows s s'.
Proof.
  revert s. induction values as [|v values IHv]; simpl; intros s H.
  - injection H as <-. apply grows_refl.
  - grows_cases; [apply grows_refl|]. apply IHv in H. grows_chain.
Qed.

Lemma init_grows this subscriber signal s s' :
  init (run fuel) this subscriber signal s = Some s' -> grows s s'.
Proof.
  destruct this; cbn [init]; unfold new_Vars, new_closure; intros H;
    grows_cases; try (apply from_loop_grows in E); grows_chain.
  by apply grows_subscribe_Subject.
Qed.

Lemma body_grows c s s' : body fuel (run fuel) c s = Some s' -> grows s s'.
Proof.
  destruct c; cbn [body];
    unfold subscribe_body, SafeSubscriber_next_body, SafeSubscriber_error_body,
      SafeSubscriber_complete_body, Subject_next_body, Subject_next_loop_body,
      Subject_error_body, Subject_error_loop_body, Subject_complete_body,
      Subject_complete_loop_body, new_AbortController, new_SafeSubscriber;
    intros H; try destruct signal; grows_cases;
    repeat match goal with
      | H : init _ _ _ _ _ = Some _ |- _ => apply init_grows in H
      | H : Observer_next _ _ _ _ _ = Some _ |- _ => apply Observer_next_grows in H
      | H : Observer_error _ _ _ _ _ = Some _ |- _ => apply Observer_error_grows in H
      | H : Observer_complete _ _ _ _ = Some _ |- _ =>
          apply Observer_complete_grows in H
      end;
    grows_chain.
Qed.
End Grows.

Lemma run_grows fuel c s s' : run fuel c s = Some s' -> grows s s'.
Proof.
  revert c s s'. induction fuel as [|fuel IH]; intros c s s' H; [done|].
  rewrite run_S in H. by eapply body_grows.
Qed.

Lemma run_all_grows fuel cs s s' : run_all fuel cs s = Some s' -> grows s s'.
Proof.
  revert s. induction cs as [|c cs IH]; simpl; intros s H.
  - injection H as <-. apply grows_refl.
  - destruct (run fuel c s) as [s1|] eqn:E; [|done]. simpl in H.
    eapply grows_trans; [by eapply run_grows|eauto].
Qed.


